(** * YT-search-skip backend: the response sanitizer and the request handler

    A shallow embedding of [server.js]: [getVideoId], [extractJSON] and the
    [POST /analyze-video] handler, together with the parts of the JavaScript
    runtime they lean on (strings as UTF-16 code units, [String.prototype.trim],
    the regular expressions of the file, [JSON.parse], [parseFloat], [isNaN],
    the relational operators and their coercions).

    Console logging has no influence on any returned value and is left out;
    so are the resource limits of an engine (stack depth, string length).
    The URL parser, the transcript provider and the AI client are parameters
    of the handler. *)

From Stdlib Require Import ZArith NArith List Bool Lia String Ascii.
From Stdlib Require Import Floats.SpecFloat.
Import ListNotations.

Set Implicit Arguments.
Set Warnings "-register-all".

(** ** JavaScript strings *)

Module JsString.

(** A JavaScript string is a sequence of UTF-16 code units. *)
Definition code_unit := N.
Definition t := list code_unit.

(** ASCII literals. *)
Definition lit (s : string) : t := map N_of_ascii (list_ascii_of_string s).

(** The double quote, U+0022. *)
Definition dq : t := [34%N].

(** [quoted "start"] is the seven code units ["start"], quotes included. *)
Definition quoted (s : string) : t := dq ++ lit s ++ dq.

Definition eqb (a b : t) : bool :=
  if list_eq_dec N.eq_dec a b then true else false.

(** WhiteSpace and LineTerminator code points: what [trim] strips and what
    [\s] matches. *)
Definition is_whitespace (c : code_unit) : bool :=
  ((9 <=? c) && (c <=? 13) || (c =? 32) || (c =? 160) || (c =? 5760)
   || (8192 <=? c) && (c <=? 8202) || (c =? 8232) || (c =? 8233)
   || (c =? 8239) || (c =? 8287) || (c =? 12288) || (c =? 65279))%N.

(** [\d] *)
Definition is_digit (c : code_unit) : bool := ((48 <=? c) && (c <=? 57))%N.

Fixpoint drop_while (p : code_unit -> bool) (s : t) : t :=
  match s with
  | [] => []
  | c :: r => if p c then drop_while p r else s
  end.

Fixpoint take_while (p : code_unit -> bool) (s : t) : t :=
  match s with
  | [] => []
  | c :: r => if p c then c :: take_while p r else []
  end.

Definition trimStart (s : t) : t := drop_while is_whitespace s.
Definition trimEnd (s : t) : t := rev (drop_while is_whitespace (rev s)).

(** [String.prototype.trim] *)
Definition trim (s : t) : t := trimEnd (trimStart s).

(** [strip_prefix p s] is [Some r] when [s = p ++ r]. *)
Fixpoint strip_prefix (p s : t) : option t :=
  match p, s with
  | [], _ => Some s
  | _ :: _, [] => None
  | a :: p', b :: s' => if (a =? b)%N then strip_prefix p' s' else None
  end.

(** [strip_suffix p s] is [Some r] when [s = r ++ p]. *)
Definition strip_suffix (p s : t) : option t :=
  match strip_prefix (rev p) (rev s) with
  | Some r => Some (rev r)
  | None => None
  end.

(** [s.replace(/pat/g, rep)] for a literal, non-empty pattern: the matches
    are found left to right and do not overlap.  [skip] counts the code
    units of the current match that are still to be jumped over. *)
Fixpoint replace_all_from (pat rep : t) (skip : nat) (s : t) : t :=
  match s with
  | [] => []
  | c :: r =>
      match skip with
      | S k => replace_all_from pat rep k r
      | O =>
          match strip_prefix pat s with
          | Some _ => rep ++ replace_all_from pat rep (List.length pat - 1) r
          | None => c :: replace_all_from pat rep 0 r
          end
      end
  end.

Definition replace_all (pat rep s : t) : t := replace_all_from pat rep 0 s.

(** [s] contains [pat] as a substring. *)
Fixpoint contains (pat s : t) : bool :=
  match strip_prefix pat s with
  | Some _ => true
  | None => match s with [] => false | _ :: r => contains pat r end
  end.

End JsString.

(** ** Regular expressions

    The patterns of [server.js] are built from literal text, the classes
    [\s], [\d] and [[\s\S]] under the greedy quantifiers, an optional
    character, one capture group and the two anchors; the only flag in use
    is [g].  The matcher follows the backtracking order of the language: a
    quantifier first takes all it can, then gives code units back one at a
    time until the rest of the pattern matches. *)

Module Regex.
Import JsString.

Inductive regex : Type :=
| Lit (s : JsString.t)           (* literal code units *)
| Star (p : code_unit -> bool)   (* a class, zero or more times *)
| Plus (p : code_unit -> bool)   (* a class, one or more times *)
| Opt (c : code_unit)            (* one code unit, or nothing *)
| Seq (r1 r2 : regex)
| Group (r : regex)              (* capture group 1 *)
| Bol                            (* the anchor at the start of the input *)
| Eol.                           (* the anchor at the end of the input *)

Section Matcher.
Variable A : Type.

(** [n] is the length of the whole input: the start anchor holds where
    that many code units are still ahead. *)
Variable n : nat.

Definition or_else (a b : option A) : option A :=
  match a with
  | Some x => Some x
  | None => b
  end.

(** The greedy star over a class: the longest run first, then shorter
    ones. *)
Fixpoint star_class (p : code_unit -> bool) (s : JsString.t)
  (k : JsString.t -> option A) : option A :=
  match s with
  | c :: r => if p c then or_else (star_class p r k) (k s) else k s
  | [] => k s
  end.

(** [run r s cap k] matches [r] at the head of [s] and hands the rest of
    the text and the capture to the continuation [k]; a failure of [k]
    makes the pattern try its next alternative. *)
Fixpoint run (r : regex) (s : JsString.t) (cap : option JsString.t)
  (k : JsString.t -> option JsString.t -> option A) : option A :=
  match r with
  | Lit l =>
      match strip_prefix l s with
      | Some s' => k s' cap
      | None => None
      end
  | Star p => star_class p s (fun s' => k s' cap)
  | Plus p =>
      match s with
      | c :: s1 => if p c then star_class p s1 (fun s' => k s' cap) else None
      | [] => None
      end
  | Opt c =>
      match s with
      | d :: s1 => if (d =? c)%N then or_else (k s1 cap) (k s cap) else k s cap
      | [] => k s cap
      end
  | Seq r1 r2 => run r1 s cap (fun s' cap' => run r2 s' cap' k)
  | Group r0 =>
      run r0 s cap
        (fun s' _ => k s' (Some (firstn (List.length s - List.length s') s)))
  | Bol => if (List.length s =? n)%nat then k s cap else None
  | Eol =>
      match s with
      | [] => k s cap
      | _ :: _ => None
      end
  end.

End Matcher.

(** A match of [r] that starts at the head of [s]: the capture and the
    text behind the match. *)
Definition match_here (n : nat) (r : regex) (s : JsString.t)
  : option (option JsString.t * JsString.t) :=
  run n r s None (fun s' cap => Some (cap, s')).

Record found := { before : JsString.t; matched : JsString.t;
                  group1 : option JsString.t; after : JsString.t }.

(** The leftmost match in [s]. *)
Fixpoint exec (n : nat) (r : regex) (s : JsString.t) : option found :=
  match match_here n r s with
  | Some (cap, rest) =>
      Some {| before := [];
              matched := firstn (List.length s - List.length rest) s;
              group1 := cap; after := rest |}
  | None =>
      match s with
      | [] => None
      | c :: s' =>
          match exec n r s' with
          | Some f => Some {| before := c :: before f; matched := matched f;
                              group1 := group1 f; after := after f |}
          | None => None
          end
      end
  end.

(** A replacement string: plain text and references to group 1. *)
Inductive piece : Type :=
| Text (s : JsString.t)
| Group1.

Definition expand (rep : list piece) (cap : option JsString.t) : JsString.t :=
  List.concat
    (map (fun p => match p with
                   | Text s => s
                   | Group1 => match cap with Some c => c | None => [] end
                   end) rep).

Definition replace_in (n : nat) (r : regex) (rep : list piece)
  (s : JsString.t) : JsString.t :=
  match exec n r s with
  | Some f => before f ++ expand rep (group1 f) ++ after f
  | None => s
  end.

(** [s.replace(r, rep)] for a pattern without the [g] flag: the leftmost
    match is replaced. *)
Definition replace (r : regex) (rep : list piece) (s : JsString.t)
  : JsString.t :=
  replace_in (List.length s) r rep s.

(** The matches of a [g] pattern are taken left to right, each search
    resuming where the previous match ended, one code unit further after an
    empty match.  [skip] counts the code units of the current match that
    are still to be jumped over. *)
Fixpoint replace_global_from (n : nat) (r : regex) (rep : list piece)
  (skip : nat) (s : JsString.t) : JsString.t :=
  match s with
  | [] =>
      match match_here n r [] with
      | Some (cap, _) => expand rep cap
      | None => []
      end
  | c :: rest =>
      match skip with
      | S k => replace_global_from n r rep k rest
      | O =>
          match match_here n r s with
          | Some (cap, aft) =>
              if (List.length aft =? List.length s)%nat
              then expand rep cap ++ c :: replace_global_from n r rep 0 rest
              else expand rep cap
                   ++ replace_global_from n r rep
                        (List.length rest - List.length aft) rest
          | None => c :: replace_global_from n r rep 0 rest
          end
      end
  end.

(** [s.replace(r, rep)] for a pattern with the [g] flag. *)
Definition replace_global (r : regex) (rep : list piece) (s : JsString.t)
  : JsString.t :=
  replace_global_from (List.length s) r rep 0 s.

Definition match_first_in (n : nat) (r : regex) (s : JsString.t)
  : option JsString.t :=
  match exec n r s with
  | Some f => Some (matched f)
  | None => None
  end.

(** [s.match(r)[0]] for a pattern without the [g] flag, [None] for a
    [null] result. *)
Definition match_first (r : regex) (s : JsString.t) : option JsString.t :=
  match_first_in (List.length s) r s.

End Regex.

(** ** JavaScript numbers *)

Module JsNumber.
Import JsString.

(** A Number is an IEEE 754 binary64 value; [spec_float] is the Standard
    Library's specification of such values (a single NaN, signed zeros and
    infinities, and [S754_finite s m e] for [(-1)^s * m * 2^e]). *)
Definition t := spec_float.

Definition prec : Z := 53.
Definition emax : Z := 1024.

Definition NaN : t := S754_nan.
Definition zero : t := S754_zero false.
Definition one : t := binary_round prec emax false 1 0.

Definition is_nan (x : t) : bool :=
  match x with S754_nan => true | _ => false end.

(** [Number::lessThan], with [None] for [undefined] (an operand is NaN). *)
Definition lessThan (x y : t) : option bool :=
  match SFcompare x y with
  | None => None
  | Some Lt => Some true
  | Some _ => Some false
  end.

(** The quotient [n / d] of two positive integers, rounded to the nearest
    double, ties to even.  The quotient is first computed with at least 55
    significant bits, the remainder telling on which side of the half-way
    point the exact value lies. *)
Definition round_ratio (neg : bool) (n d : positive) : t :=
  let s := Z.max 0 (55 + Z.log2 (Zpos d) - Z.log2 (Zpos n)) in
  let num := (Zpos n * 2 ^ s)%Z in
  let q := (num / Zpos d)%Z in
  let r := (num mod Zpos d)%Z in
  let loc := if (r =? 0)%Z then loc_Exact
             else loc_Inexact (Z.compare (2 * r) (Zpos d)) in
  binary_round_aux prec emax neg q (- s) loc.

(** The double nearest to [(-1)^neg * m * 10^e]. *)
Definition of_decimal (neg : bool) (m : N) (e : Z) : t :=
  match m with
  | N0 => S754_zero neg
  | Npos p =>
      match e with
      | Zneg k => round_ratio neg p (Pos.pow 10 k)
      | Z0 => round_ratio neg p 1
      | Zpos k => round_ratio neg (p * Pos.pow 10 k) 1
      end
  end.

(** The integer [m], rounded to the nearest double. *)
Definition of_N (m : N) : t := of_decimal false m 0.

(** The value of a sequence of digits in the given radix (digits and
    letters are read as in hexadecimal). *)
Definition digit_value (c : code_unit) : N :=
  (if (48 <=? c) && (c <=? 57) then c - 48
   else if (97 <=? c) && (c <=? 122) then c - 87
   else if (65 <=? c) && (c <=? 90) then c - 55
   else 0)%N.

Definition digits_value (radix : N) (ds : JsString.t) : N :=
  fold_left (fun acc c => (acc * radix + digit_value c)%N) ds 0%N.

(** *** Number::toString *)

(** The decimal digits of [n], most significant first. *)
Fixpoint dec_digits_aux (fuel : nat) (n : N) (acc : JsString.t) : JsString.t :=
  match fuel with
  | O => acc
  | S f =>
      let acc' := (48 + n mod 10)%N :: acc in
      if (n / 10 =? 0)%N then acc' else dec_digits_aux f (n / 10)%N acc'
  end.

Definition dec_digits (n : N) : JsString.t :=
  dec_digits_aux (S (N.to_nat (N.log2 n))) n [].

(** [scaled m e a] is the pair [(p, q)] with [m * 2^e * 10^a = p / q]. *)
Definition scaled (m : positive) (e a : Z) : Z * Z :=
  let '(p1, q1) := match e with
                   | Zneg k => (Zpos m, Zpos (Pos.pow 2 k))
                   | _ => (Zpos m * 2 ^ e, 1)
                   end%Z in
  match a with
  | Zneg k => (p1, q1 * Zpos (Pos.pow 10 k))
  | _ => (p1 * 10 ^ a, q1)
  end%Z.

(** The [n] with [10^(n-1) <= m * 2^e < 10^n], searched upwards from [n]. *)
Fixpoint magnitude_from (fuel : nat) (m : positive) (e n : Z) : Z :=
  match fuel with
  | O => n
  | S f =>
      let '(p, q) := scaled m e (- n) in
      if (p <? q)%Z then n else magnitude_from f m e (n + 1)
  end.

Definition magnitude (m : positive) (e : Z) : Z :=
  magnitude_from 700 m e (-330).

(** The shortest digit string: the least [k], and for it the [s] with [k]
    digits nearest to the value, such that [s * 10^(n-k)] reads back as the
    same double.  The result is [(s, n)]. *)
Fixpoint shortest_from (fuel : nat) (m : positive) (e n0 : Z) (k : Z)
  : N * Z :=
  let '(p, q) := scaled m e (k - n0) in
  let lo := (p / q)%Z in
  let hi := (lo + 1)%Z in
  let '(hi', nhi) := if (hi =? 10 ^ k)%Z then (10 ^ (k - 1), n0 + 1)%Z
                     else (hi, n0) in
  let x := S754_finite false m e in
  let ok_lo := SFeqb (of_decimal false (Z.to_N lo) (n0 - k)) x in
  let ok_hi := SFeqb (of_decimal false (Z.to_N hi') (nhi - k)) x in
  let pick_lo := (Z.to_N lo, n0) in
  let pick_hi := (Z.to_N hi', nhi) in
  match fuel with
  | O => pick_lo
  | S f =>
      match ok_lo, ok_hi with
      | true, true =>
          match Z.compare (2 * (p mod q)) q with
          | Lt => pick_lo
          | Gt => pick_hi
          | Eq => if Z.even lo then pick_lo else pick_hi
          end
      | true, false => pick_lo
      | false, true => pick_hi
      | false, false => shortest_from f m e n0 (k + 1)
      end
  end.

Definition zeros (n : Z) : JsString.t := repeat 48%N (Z.to_nat n).

Definition format_digits (ds : JsString.t) (n : Z) : JsString.t :=
  let k := Z.of_nat (List.length ds) in
  if ((k <=? n) && (n <=? 21))%Z then ds ++ zeros (n - k)
  else if ((0 <? n) && (n <=? 21))%Z then
    firstn (Z.to_nat n) ds ++ lit "." ++ skipn (Z.to_nat n) ds
  else if ((-6 <? n) && (n <=? 0))%Z then lit "0." ++ zeros (- n) ++ ds
  else
    let ex := (n - 1)%Z in
    let sign := if (ex <? 0)%Z then lit "-" else lit "+" in
    let mant := match ds with
                | [d] => [d]
                | d :: rest => d :: lit "." ++ rest
                | [] => []
                end in
    mant ++ lit "e" ++ sign ++ dec_digits (Z.to_N (Z.abs ex)).

Definition toString (x : t) : JsString.t :=
  match x with
  | S754_nan => lit "NaN"
  | S754_zero _ => lit "0"
  | S754_infinity s => (if s then lit "-" else []) ++ lit "Infinity"
  | S754_finite s m e =>
      let '(d, n) := shortest_from 17 m e (magnitude m e) 1 in
      (if s then lit "-" else []) ++ format_digits (dec_digits d) n
  end.

End JsNumber.

(** ** JavaScript values *)

Module JsValue.
Import JsString.

(** The values that reach the functions of [server.js]: what [JSON.parse]
    and the JSON body parser build, plus [undefined].  An object is its list
    of own properties in enumeration order; nothing is shared between two
    parsed values, so a property assignment is a functional update. *)
Inductive value : Type :=
| VUndefined
| VNull
| VBool (b : bool)
| VNum (x : JsNumber.t)
| VStr (s : JsString.t)
| VArr (elems : list value)
| VObj (props : list (JsString.t * value)).

Definition props := list (JsString.t * value).

(** Thrown errors.  The catch blocks of [server.js] only log them. *)
Inductive error := TypeError | SyntaxError | ExternalError.

(** The outcome of an evaluation: a value, or a thrown error. *)
Inductive completion (A : Type) : Type :=
| Normal (a : A)
| Throw (e : error).
Arguments Normal {A} a.
Arguments Throw {A} e.

Definition bind {A B} (c : completion A) (k : A -> completion B)
  : completion B :=
  match c with
  | Normal a => k a
  | Throw e => Throw e
  end.

Module Notations.
Notation "x <- c ;; k" := (bind c (fun x => k))
  (at level 61, c at next level, right associativity).
End Notations.
Import Notations.

(** [try { c } catch (error) { h }] *)
Definition try_catch {A} (c : completion A) (h : A) : A :=
  match c with
  | Normal a => a
  | Throw _ => h
  end.

(** *** Own properties *)

Fixpoint get_own (ps : props) (k : JsString.t) : option value :=
  match ps with
  | [] => None
  | (k', v) :: r => if JsString.eqb k' k then Some v else get_own r k
  end.

Definition has_own (ps : props) (k : JsString.t) : bool :=
  match get_own ps k with Some _ => true | None => false end.

(** An array index is a canonical numeric string below [2^32 - 1]; such
    keys are enumerated first, in ascending order. *)
Definition array_index (k : JsString.t) : option N :=
  match k with
  | [] => None
  | c :: r =>
      if forallb is_digit k && (negb (c =? 48)%N || match r with [] => true | _ => false end)
      then let n := JsNumber.digits_value 10 k in
           if (n <=? 4294967294)%N then Some n else None
      else None
  end.

Fixpoint insert_index (ps : props) (i : N) (k : JsString.t) (v : value)
  : props :=
  match ps with
  | [] => [(k, v)]
  | (k', v') :: r =>
      match array_index k' with
      | Some j => if (j <? i)%N then (k', v') :: insert_index r i k v
                  else (k, v) :: ps
      | None => (k, v) :: ps
      end
  end.

Fixpoint replace_own (ps : props) (k : JsString.t) (v : value) : props :=
  match ps with
  | [] => []
  | (k', v') :: r =>
      if JsString.eqb k' k then (k', v) :: r else (k', v') :: replace_own r k v
  end.

(** Defining or assigning the own property [k]: an existing property keeps
    its place, a new one goes after the existing ones of its kind. *)
Definition obj_set (ps : props) (k : JsString.t) (v : value) : props :=
  if has_own ps k then replace_own ps k v
  else match array_index k with
       | Some i => insert_index ps i k v
       | None => ps ++ [(k, v)]
       end.

(** [v.k] for a property name [k] that no prototype defines (every name
    that [server.js] reads, [length] apart, which arrays and strings carry
    themselves). *)
Definition get_prop (v : value) (k : JsString.t) : completion value :=
  match v with
  | VUndefined | VNull => Throw TypeError
  | VObj ps => Normal (match get_own ps k with Some x => x | None => VUndefined end)
  | VArr l =>
      if JsString.eqb k (lit "length")
      then Normal (VNum (JsNumber.of_N (N.of_nat (List.length l))))
      else Normal VUndefined
  | VStr s =>
      if JsString.eqb k (lit "length")
      then Normal (VNum (JsNumber.of_N (N.of_nat (List.length s))))
      else Normal VUndefined
  | VBool _ | VNum _ => Normal VUndefined
  end.

(** [v.k = x] in strict code (an ES module).  The only assignments of
    [server.js] target a property that is already an own property of a
    parsed object; an array carrying extra named properties is not a
    [value], and the assignment is never reached for one. *)
Definition set_prop (v : value) (k : JsString.t) (x : value)
  : completion value :=
  match v with
  | VObj ps => Normal (VObj (obj_set ps k x))
  | _ => Throw TypeError
  end.

Definition is_string (v : value) : bool :=
  match v with VStr _ => true | _ => false end.

Definition is_array (v : value) : bool :=
  match v with VArr _ => true | _ => false end.

Definition is_object (v : value) : bool :=
  match v with VObj _ => true | _ => false end.

(** [!!v] *)
Definition truthy (v : value) : bool :=
  match v with
  | VUndefined | VNull => false
  | VBool b => b
  | VNum x => match x with S754_zero _ | S754_nan => false | _ => true end
  | VStr s => match s with [] => false | _ => true end
  | VArr _ | VObj _ => true
  end.

End JsValue.

(** ** Conversions and operators *)

Module JsOps.
Import JsString JsValue JsValue.Notations.

(** *** Numeric literals in strings *)

Inductive dec_lit := DInfinity | DFinite (m : N) (e : Z).

Definition dec_value (neg : bool) (d : dec_lit) : JsNumber.t :=
  match d with
  | DInfinity => S754_infinity neg
  | DFinite m e => JsNumber.of_decimal neg m e
  end.

Definition is_nil (s : JsString.t) : bool :=
  match s with [] => true | _ => false end.

(** An optional sign: the sign read and the rest. *)
Definition scan_sign (s : JsString.t) : bool * JsString.t :=
  match s with
  | c :: r => if (c =? 45)%N then (true, r)
              else if (c =? 43)%N then (false, r)
              else (false, s)
  | [] => (false, s)
  end.

(** ExponentPart, when one is complete at the head of [s]. *)
Definition scan_exponent (s : JsString.t) : Z * JsString.t :=
  match s with
  | c :: r =>
      if ((c =? 101) || (c =? 69))%N then
        let '(neg, r1) := scan_sign r in
        let ds := take_while is_digit r1 in
        if is_nil ds then (0%Z, s)
        else
          let n := Z.of_N (JsNumber.digits_value 10 ds) in
          ((if neg then - n else n)%Z, drop_while is_digit r1)
      else (0%Z, s)
  | [] => (0%Z, s)
  end.

(** The longest prefix of [s] that is a StrUnsignedDecimalLiteral. *)
Definition scan_unsigned_decimal (s : JsString.t)
  : option (dec_lit * JsString.t) :=
  match strip_prefix (lit "Infinity") s with
  | Some r => Some (DInfinity, r)
  | None =>
      let ip := take_while is_digit s in
      let r1 := drop_while is_digit s in
      let '(fp, r2) :=
        match r1 with
        | c :: r => if (c =? 46)%N
                    then (take_while is_digit r, drop_while is_digit r)
                    else ([], r1)
        | [] => ([], r1)
        end in
      if is_nil ip && is_nil fp then None
      else
        let '(ex, r3) := scan_exponent r2 in
        Some (DFinite (JsNumber.digits_value 10 (ip ++ fp))
                      (ex - Z.of_nat (List.length fp)), r3)
  end.

(** [parseFloat(s)] for a string [s]. *)
Definition parseFloat (s : JsString.t) : JsNumber.t :=
  let '(neg, r) := scan_sign (trimStart s) in
  match scan_unsigned_decimal r with
  | Some (d, _) => dec_value neg d
  | None => JsNumber.NaN
  end.

Definition is_radix_digit (radix : N) (c : code_unit) : bool :=
  (is_digit c || (97 <=? c)%N && (c <=? 102)%N || (65 <=? c)%N && (c <=? 70)%N)
  && (JsNumber.digit_value c <? radix)%N.

(** NonDecimalIntegerLiteral: [0x], [0o] and [0b] literals. *)
Definition non_decimal_literal (s : JsString.t) : option JsNumber.t :=
  match s with
  | 48%N :: c :: ds =>
      let radix := (if (c =? 120) || (c =? 88) then 16
                    else if (c =? 111) || (c =? 79) then 8
                    else if (c =? 98) || (c =? 66) then 2
                    else 0)%N in
      if (radix =? 0)%N || is_nil ds || negb (forallb (is_radix_digit radix) ds)
      then None
      else Some (JsNumber.of_N (JsNumber.digits_value radix ds))
  | _ => None
  end.

(** [StringToNumber] *)
Definition StringToNumber (s : JsString.t) : JsNumber.t :=
  let s' := trim s in
  if is_nil s' then JsNumber.zero
  else match non_decimal_literal s' with
       | Some x => x
       | None =>
           let '(neg, r) := scan_sign s' in
           match scan_unsigned_decimal r with
           | Some (d, []) => dec_value neg d
           | _ => JsNumber.NaN
           end
       end.

(** *** ToString, ToPrimitive, ToNumber *)

(** [ToString].  An array converts through [Array.prototype.join]; a plain
    object converts to ["[object Object]"] through [Object.prototype], unless
    an own [toString] property (never callable in a parsed value) hides the
    inherited method: [OrdinaryToPrimitive] then finds neither a [valueOf]
    nor a [toString] that returns a primitive and throws a TypeError
    (ECMA-262, 7.1.1.1). *)
Fixpoint ToString (v : value) : completion JsString.t :=
  match v with
  | VUndefined => Normal (lit "undefined")
  | VNull => Normal (lit "null")
  | VBool b => Normal (if b then lit "true" else lit "false")
  | VNum x => Normal (JsNumber.toString x)
  | VStr s => Normal s
  | VArr l =>
      let element x :=
        match x with
        | VUndefined | VNull => Normal []
        | _ => ToString x
        end in
      (fix join (l : list value) : completion JsString.t :=
         match l with
         | [] => Normal []
         | [x] => element x
         | x :: r =>
             s1 <- element x ;;
             s2 <- join r ;;
             Normal (s1 ++ lit "," ++ s2)
         end) l
  | VObj ps =>
      if has_own ps (lit "toString") then Throw TypeError
      else Normal (lit "[object Object]")
  end.

(** [ToPrimitive], with either hint. *)
Definition ToPrimitive (v : value) : completion value :=
  match v with
  | VArr _ | VObj _ => s <- ToString v ;; Normal (VStr s)
  | _ => Normal v
  end.

(** [ToNumber] of a primitive. *)
Definition prim_to_number (v : value) : JsNumber.t :=
  match v with
  | VUndefined => JsNumber.NaN
  | VNull => JsNumber.zero
  | VBool b => if b then JsNumber.one else JsNumber.zero
  | VNum x => x
  | VStr s => StringToNumber s
  | VArr _ | VObj _ => JsNumber.NaN
  end.

Definition ToNumber (v : value) : completion JsNumber.t :=
  p <- ToPrimitive v ;; Normal (prim_to_number p).

(** [isNaN(v)] *)
Definition isNaN (v : value) : completion bool :=
  n <- ToNumber v ;; Normal (JsNumber.is_nan n).

(** Code-unit order on strings. *)
Fixpoint string_lt (a b : JsString.t) : bool :=
  match a, b with
  | _, [] => false
  | [], _ :: _ => true
  | x :: a', y :: b' =>
      if (x <? y)%N then true
      else if (y <? x)%N then false
      else string_lt a' b'
  end.

(** [IsLessThan] on two primitives; [None] is [undefined]. *)
Definition prim_less_than (px py : value) : option bool :=
  match px, py with
  | VStr a, VStr b => Some (string_lt a b)
  | _, _ => JsNumber.lessThan (prim_to_number px) (prim_to_number py)
  end.

(** [a >= b] *)
Definition ge (a b : value) : completion bool :=
  pa <- ToPrimitive a ;;
  pb <- ToPrimitive b ;;
  Normal (match prim_less_than pa pb with
          | Some false => true
          | _ => false
          end).

(** [a > b]: the right operand is converted last, the comparison is
    [b < a]. *)
Definition gt (a b : value) : completion bool :=
  pa <- ToPrimitive a ;;
  pb <- ToPrimitive b ;;
  Normal (match prim_less_than pb pa with
          | Some true => true
          | _ => false
          end).

End JsOps.

(** ** JSON *)

Module Json.
Import JsString JsValue.

(** JSON white space: tab, line feed, carriage return, space. *)
Definition is_json_ws (c : code_unit) : bool :=
  ((c =? 9) || (c =? 10) || (c =? 13) || (c =? 32))%N.

Definition skip_ws (s : JsString.t) : JsString.t := drop_while is_json_ws s.

Definition is_hex (c : code_unit) : bool :=
  (is_digit c || (97 <=? c) && (c <=? 102) || (65 <=? c) && (c <=? 70))%N.

(** The character denoted by a one-letter escape. *)
Definition escape (c : code_unit) : option code_unit :=
  (if c =? 34 then Some 34            (* quotation mark *)
   else if c =? 92 then Some 92       (* reverse solidus *)
   else if c =? 47 then Some 47       (* solidus *)
   else if c =? 98 then Some 8        (* b: backspace *)
   else if c =? 102 then Some 12      (* f: form feed *)
   else if c =? 110 then Some 10      (* n: line feed *)
   else if c =? 114 then Some 13      (* r: carriage return *)
   else if c =? 116 then Some 9       (* t: tab *)
   else None)%N.

(** The rest of a string literal, after its opening quote: the string
    denoted and what follows the closing quote. *)
Fixpoint parse_string_body (s : JsString.t)
  : option (JsString.t * JsString.t) :=
  match s with
  | [] => None
  | c :: r =>
      if (c =? 34)%N then Some ([], r)
      else if (c =? 92)%N then
        match r with
        | [] => None
        | e :: r1 =>
            if (e =? 117)%N then
              match r1 with
              | a :: b :: c' :: d :: r2 =>
                  if forallb is_hex [a; b; c'; d] then
                    match parse_string_body r2 with
                    | Some (str, rest) =>
                        Some (JsNumber.digits_value 16 [a; b; c'; d] :: str, rest)
                    | None => None
                    end
                  else None
              | _ => None
              end
            else
              match escape e, parse_string_body r1 with
              | Some u, Some (str, rest) => Some (u :: str, rest)
              | _, _ => None
              end
        end
      else if (c <? 32)%N then None
      else
        match parse_string_body r with
        | Some (str, rest) => Some (c :: str, rest)
        | None => None
        end
  end.

(** A number literal at the head of [s]: [-? int frac? exp?]. *)
Definition parse_number (s : JsString.t) : option (JsNumber.t * JsString.t) :=
  let '(neg, r) := match s with
                   | c :: r => if (c =? 45)%N then (true, r) else (false, s)
                   | [] => (false, s)
                   end in
  match r with
  | [] => None
  | d :: more =>
      if is_digit d then
        let '(ip, r1) := if (d =? 48)%N then ([d], more)
                         else (take_while is_digit r, drop_while is_digit r) in
        let '(fp, r2) :=
          match r1 with
          | c :: r' =>
              let fp := take_while is_digit r' in
              if (c =? 46)%N && negb (JsOps.is_nil fp)
              then (fp, drop_while is_digit r')
              else ([], r1)
          | [] => ([], r1)
          end in
        let '(ex, r3) := JsOps.scan_exponent r2 in
        Some (JsNumber.of_decimal neg (JsNumber.digits_value 10 (ip ++ fp))
                (ex - Z.of_nat (List.length fp)), r3)
      else None
  end.

Inductive presult (A : Type) : Type :=
| POk (a : A) (rest : JsString.t)
| PSyntaxError
| POutOfFuel.
Arguments POk {A} a rest.
Arguments PSyntaxError {A}.
Arguments POutOfFuel {A}.

Definition parse_literal (s : JsString.t) : presult value :=
  match strip_prefix (lit "true") s with
  | Some r => POk (VBool true) r
  | None =>
      match strip_prefix (lit "false") s with
      | Some r => POk (VBool false) r
      | None =>
          match strip_prefix (lit "null") s with
          | Some r => POk VNull r
          | None => PSyntaxError
          end
      end
  end.

(** Recursive descent.  [parse_elements] reads what follows [[] or a comma
    inside an array, [parse_members] what follows [{] or a comma inside an
    object; a repeated key overwrites the earlier value. *)
Fixpoint parse_value (fuel : nat) (s : JsString.t) : presult value :=
  match fuel with
  | O => POutOfFuel
  | S f =>
      match skip_ws s with
      | [] => PSyntaxError
      | c :: r =>
          if (c =? 123)%N then
            match skip_ws r with
            | [] => PSyntaxError
            | c' :: r' => if (c' =? 125)%N then POk (VObj []) r'
                          else parse_members f [] r
            end
          else if (c =? 91)%N then
            match skip_ws r with
            | [] => PSyntaxError
            | c' :: r' => if (c' =? 93)%N then POk (VArr []) r'
                          else parse_elements f [] r
            end
          else if (c =? 34)%N then
            match parse_string_body r with
            | Some (str, r') => POk (VStr str) r'
            | None => PSyntaxError
            end
          else if (c =? 45)%N || is_digit c then
            match parse_number (c :: r) with
            | Some (x, r') => POk (VNum x) r'
            | None => PSyntaxError
            end
          else parse_literal (c :: r)
      end
  end
with parse_elements (fuel : nat) (acc : list value) (s : JsString.t)
  : presult value :=
  match fuel with
  | O => POutOfFuel
  | S f =>
      match parse_value f s with
      | POk v r =>
          match skip_ws r with
          | [] => PSyntaxError
          | c :: r' =>
              if (c =? 44)%N then parse_elements f (v :: acc) r'
              else if (c =? 93)%N then POk (VArr (rev (v :: acc))) r'
              else PSyntaxError
          end
      | PSyntaxError => PSyntaxError
      | POutOfFuel => POutOfFuel
      end
  end
with parse_members (fuel : nat) (acc : props) (s : JsString.t)
  : presult value :=
  match fuel with
  | O => POutOfFuel
  | S f =>
      match skip_ws s with
      | [] => PSyntaxError
      | q :: r =>
          if (q =? 34)%N then
            match parse_string_body r with
            | None => PSyntaxError
            | Some (key, r1) =>
                match skip_ws r1 with
                | [] => PSyntaxError
                | c :: r2 =>
                    if (c =? 58)%N then
                      match parse_value f r2 with
                      | POk v r3 =>
                          match skip_ws r3 with
                          | [] => PSyntaxError
                          | c' :: r4 =>
                              if (c' =? 44)%N
                              then parse_members f (obj_set acc key v) r4
                              else if (c' =? 125)%N
                              then POk (VObj (obj_set acc key v)) r4
                              else PSyntaxError
                          end
                      | PSyntaxError => PSyntaxError
                      | POutOfFuel => POutOfFuel
                      end
                    else PSyntaxError
                end
            end
          else PSyntaxError
      end
  end.

(** [JSON.parse(s)]: [None] stands for the SyntaxError it throws.  The fuel
    is enough for any text (lemma [parse_fuel_enough] below). *)
Definition parse_fuel (s : JsString.t) : nat := 2 * List.length s + 2.

Definition parse (s : JsString.t) : option value :=
  match parse_value (parse_fuel s) s with
  | POk v rest => if JsOps.is_nil (skip_ws rest) then Some v else None
  | _ => None
  end.

(** *** JSON.stringify *)

Definition hex_digit (n : N) : code_unit :=
  (if n <? 10 then 48 + n else 87 + n)%N.

Definition unicode_escape (c : code_unit) : JsString.t :=
  [92; 117; hex_digit (c / 4096 mod 16); hex_digit (c / 256 mod 16);
   hex_digit (c / 16 mod 16); hex_digit (c mod 16)]%N.

Definition is_high_surrogate (c : code_unit) : bool :=
  ((55296 <=? c) && (c <=? 56319))%N.
Definition is_low_surrogate (c : code_unit) : bool :=
  ((56320 <=? c) && (c <=? 57343))%N.

Definition quote_unit (c : code_unit) : JsString.t :=
  (if c =? 8 then [92; 98]
   else if c =? 9 then [92; 116]
   else if c =? 10 then [92; 110]
   else if c =? 12 then [92; 102]
   else if c =? 13 then [92; 114]
   else if c =? 34 then [92; 34]
   else if c =? 92 then [92; 92]
   else if (c <? 32) || is_high_surrogate c || is_low_surrogate c
   then unicode_escape c
   else [c])%N.

(** The body of [QuoteJSONString]: a surrogate pair is kept, a lone
    surrogate is escaped. *)
Fixpoint quote_body (s : JsString.t) : JsString.t :=
  match s with
  | [] => []
  | c :: r =>
      match r with
      | c2 :: r2 =>
          if is_high_surrogate c && is_low_surrogate c2
          then c :: c2 :: quote_body r2
          else quote_unit c ++ quote_body r
      | [] => quote_unit c
      end
  end.

Definition quote (s : JsString.t) : JsString.t := dq ++ quote_body s ++ dq.

Fixpoint join (sep : JsString.t) (l : list JsString.t) : JsString.t :=
  match l with
  | [] => []
  | [x] => x
  | x :: r => x ++ sep ++ join sep r
  end.

Definition is_finite (x : JsNumber.t) : bool :=
  match x with
  | S754_zero _ | S754_finite _ _ _ => true
  | _ => false
  end.

(** [JSON.stringify(v)], without indentation; [None] is [undefined]. *)
Fixpoint stringify (v : value) : option JsString.t :=
  match v with
  | VUndefined => None
  | VNull => Some (lit "null")
  | VBool b => Some (if b then lit "true" else lit "false")
  | VNum x => Some (if is_finite x then JsNumber.toString x else lit "null")
  | VStr s => Some (quote s)
  | VArr l =>
      let element x :=
        match stringify x with Some s => s | None => lit "null" end in
      Some (lit "[" ++
            join (lit ",")
              ((fix elements (l : list value) : list JsString.t :=
                  match l with
                  | [] => []
                  | x :: r => element x :: elements r
                  end) l)
            ++ lit "]")
  | VObj ps =>
      Some (lit "{" ++
            join (lit ",")
              ((fix members (ps : props) : list JsString.t :=
                  match ps with
                  | [] => []
                  | (k, x) :: r =>
                      match stringify x with
                      | Some s => (quote k ++ lit ":" ++ s) :: members r
                      | None => members r
                      end
                  end) ps)
            ++ lit "}")
  end.

End Json.

(** ** server.js *)

Module Server.
Import JsString JsValue JsValue.Notations JsOps Regex.

(** *** The patterns of [extractJSON] *)

(** [[\s\S]]: every code unit. *)
Definition any_unit (c : code_unit) : bool := true.

(** [/^```json\s*/] *)
Definition re_json_fence : regex :=
  Seq Bol (Seq (Lit (lit "```json")) (Star is_whitespace)).

(** [/^```\s*/] *)
Definition re_open_fence : regex :=
  Seq Bol (Seq (Lit (lit "```")) (Star is_whitespace)).

(** [/\s*```$/] *)
Definition re_close_fence : regex :=
  Seq (Star is_whitespace) (Seq (Lit (lit "```")) Eol).

(** [/\{[\s\S]*\}/] *)
Definition re_object : regex :=
  Seq (Lit (lit "{")) (Seq (Star any_unit) (Lit (lit "}"))).

Definition start_key : JsString.t := quoted "start" ++ lit ":".
Definition end_key : JsString.t := quoted "end" ++ lit ":".

(** The group of the two unit patterns: digits, an optional dot, optional
    digits. *)
Definition re_number : regex :=
  Seq (Plus is_digit) (Seq (Opt 46%N) (Star is_digit)).

(** The two unit patterns, with the [g] flag: the key with its quotes and
    colon, optional white space, the captured number, then [ms]. *)
Definition re_ms (key : JsString.t) : regex :=
  Seq (Lit key)
    (Seq (Star is_whitespace) (Seq (Group re_number) (Lit (lit "ms")))).

(** The replacement of a unit pattern: the key, a space, group 1. *)
Definition ms_template (key : JsString.t) : list piece :=
  [Text (key ++ lit " "); Group1].

(** *** The text steps of [extractJSON] *)

(** The variable [cleanText] after the trim and the three fence
    replacements. *)
Definition cleanText (text : JsString.t) : JsString.t :=
  let cleanText := trim text in
  let cleanText := replace re_json_fence [] cleanText in
  let cleanText := replace re_open_fence [] cleanText in
  let cleanText := replace re_close_fence [] cleanText in
  cleanText.

(** [cleanText.match(...)]: [None] for [null], else element 0 of the
    match. *)
Definition jsonMatch (cleanText : JsString.t) : option JsString.t :=
  match_first re_object cleanText.

(** The variable [jsonStr] after the five replacements, from element 0 of
    the match. *)
Definition jsonStr (jsonMatch0 : JsString.t) : JsString.t :=
  let jsonStr := jsonMatch0 in
  let jsonStr := replace_global (re_ms start_key) (ms_template start_key)
                   jsonStr in
  let jsonStr := replace_global (re_ms end_key) (ms_template end_key)
                   jsonStr in
  let jsonStr := replace_global (Lit (lit "&amp;#39;")) [Text (lit "'")]
                   jsonStr in
  let jsonStr := replace_global (Lit (lit "&amp;quot;")) [Text dq] jsonStr in
  let jsonStr := replace_global (Lit (lit "&amp;")) [Text (lit "&")]
                   jsonStr in
  jsonStr.

(** *** The segment filter *)

(** [if (typeof segment.k === 'string') segment.k = parseFloat(segment.k)] *)
Definition coerce_field (segment : value) (k : JsString.t)
  : completion value :=
  v <- get_prop segment k ;;
  match v with
  | VStr s => set_prop segment k (VNum (parseFloat s))
  | _ => Normal segment
  end.

(** The conjunction [isValid], evaluated left to right. *)
Definition isValid (segment : value) : completion bool :=
  start <- get_prop segment (lit "start") ;;
  nan1 <- isNaN start ;;
  if nan1 then Normal false else
  end_ <- get_prop segment (lit "end") ;;
  nan2 <- isNaN end_ ;;
  if nan2 then Normal false else
  text <- get_prop segment (lit "text") ;;
  if negb (is_string text) then Normal false else
  nonneg <- ge start (VNum JsNumber.zero) ;;
  if negb nonneg then Normal false else
  gt end_ start.

(** The callback of [parsed.adSegments.filter]: the segment as the two
    assignments leave it, and the verdict. *)
Definition check_segment (segment : value) : completion (value * bool) :=
  s1 <- coerce_field segment (lit "start") ;;
  s2 <- coerce_field s1 (lit "end") ;;
  ok <- isValid s2 ;;
  Normal (s2, ok).

Fixpoint filter_segments (l : list value) : completion (list value) :=
  match l with
  | [] => Normal []
  | segment :: r =>
      c <- check_segment segment ;;
      kept <- filter_segments r ;;
      Normal (if snd c then fst c :: kept else kept)
  end.

(** *** extractJSON *)

(** [{ adSegments: [] }] *)
Definition empty_result : value := VObj [(lit "adSegments", VArr [])].

(** The body of the [try] block. *)
Definition extractJSON_try (text : value) : completion value :=
  match text with
  | VStr s =>
      match jsonMatch (cleanText s) with
      | None => Normal empty_result
      | Some jsonMatch0 =>
          match Json.parse (jsonStr jsonMatch0) with
          | None => Throw SyntaxError
          | Some parsed =>
              adSegments <- get_prop parsed (lit "adSegments") ;;
              match adSegments with
              | VArr l =>
                  kept <- filter_segments l ;;
                  set_prop parsed (lit "adSegments") (VArr kept)
              | _ => Normal empty_result
              end
          end
      end
  | _ => Throw TypeError
  end.

Definition extractJSON (text : value) : value :=
  try_catch (extractJSON_try text) empty_result.

(** *** The request handler *)

Record response := { status : Z; body : value }.

(** [{ error: msg, transcript: [], adSegments: [] }] *)
Definition error_body (msg : JsString.t) : value :=
  VObj [(lit "error", VStr msg);
        (lit "transcript", VArr []);
        (lit "adSegments", VArr [])].

Definition msg_url_required : JsString.t := lit "Video URL is required".
Definition msg_invalid_url : JsString.t := lit "Invalid YouTube URL".
Definition msg_fetch_failed : JsString.t :=
  lit "Could not fetch video transcript. The video might not have captions available.".
Definition msg_no_transcript : JsString.t :=
  lit "No transcript available for this video".
Definition msg_unexpected : JsString.t :=
  lit "An unexpected error occurred while analyzing the video".

Definition newline : JsString.t := [10%N].

(** The fixed part of the prompt, up to the transcript. *)
Definition prompt_head : JsString.t :=
  Json.join newline
    [ lit "You are an AI trained to analyze YouTube video transcripts and identify sponsored segments or advertisements.";
      [];
      lit "Task: Analyze the following transcript and identify any sponsored segments or advertisements.";
      [];
      lit "Instructions:";
      lit "1. Look for phrases like:";
      lit "   - " ++ quoted "this video is sponsored by";
      lit "   - " ++ quoted "thanks to our sponsor";
      lit "   - " ++ quoted "special thanks to";
      lit "   - " ++ quoted "check out";
      lit "   - " ++ quoted "use code";
      lit "   - " ++ quoted "discount code";
      lit "   - " ++ quoted "affiliate link";
      lit "2. For each ad segment found, note:";
      lit "   - The start timestamp (as a number in seconds, without "
        ++ quoted "s" ++ lit " suffix)";
      lit "   - The end timestamp (as a number in seconds, without "
        ++ quoted "s" ++ lit " suffix)";
      lit "   - The relevant text mentioning the sponsorship";
      [];
      lit "Format your response as ONLY a JSON object with this exact structure:";
      lit "{";
      lit "  " ++ quoted "adSegments" ++ lit ": [";
      lit "    {";
      lit "      " ++ quoted "start"
        ++ lit ": 295.32,    // seconds as a number, no " ++ quoted "s" ++ lit " suffix";
      lit "      " ++ quoted "end"
        ++ lit ": 359.16,      // seconds as a number, no " ++ quoted "s" ++ lit " suffix";
      lit "      " ++ quoted "text" ++ lit ": " ++ quoted "string"
        ++ lit "    // the sponsorship text";
      lit "    }";
      lit "  ]";
      lit "}";
      [];
      lit "Do not include any other text in your response, only the JSON object.";
      lit "Do not add " ++ quoted "s"
        ++ lit " suffix to timestamps - they should be plain numbers.";
      [];
      lit "Transcript:";
      [] ].

(** The callback of [transcript.map]: the line [[<offset>s]: <text>]. *)
Definition transcript_line (t : value) : completion JsString.t :=
  offset <- get_prop t (lit "offset") ;;
  o <- ToString offset ;;
  text <- get_prop t (lit "text") ;;
  x <- ToString text ;;
  Normal (lit "[" ++ o ++ lit "s]: " ++ x).

Fixpoint transcript_lines (l : list value) : completion (list JsString.t) :=
  match l with
  | [] => Normal []
  | t :: r =>
      line <- transcript_line t ;;
      lines <- transcript_lines r ;;
      Normal (line :: lines)
  end.

(** [transcript.map(...).join('\n')]; only an array has a [map] method. *)
Definition transcript_text (transcript : value) : completion JsString.t :=
  match transcript with
  | VArr l => lines <- transcript_lines l ;; Normal (Json.join newline lines)
  | _ => Throw TypeError
  end.

(** [v === 0] *)
Definition is_zero (v : value) : bool :=
  match v with
  | VNum (S754_zero _) => true
  | _ => false
  end.

(** [URLSearchParams.prototype.get]: the value of the first pair named
    [name], or [null]. *)
Fixpoint searchParams_get (params : list (JsString.t * JsString.t))
  (name : JsString.t) : value :=
  match params with
  | [] => VNull
  | (k, v) :: r =>
      if JsString.eqb k name then VStr v else searchParams_get r name
  end.

Section Handler.

(** The collaborators.  [URL_searchParams url] is the list of name-value
    pairs of [new URL(url).searchParams], or the error the constructor
    throws; [fetchTranscript] and [generateText] are the awaited results
    of [YoutubeTranscript.fetchTranscript(videoId)] and of
    [model.generateContent(prompt)] followed by [response.text()]. *)
Variable URL_searchParams
  : value -> completion (list (JsString.t * JsString.t)).
Variable fetchTranscript : value -> completion value.
Variable generateText : JsString.t -> completion value.

Definition getVideoId (url : value) : value :=
  try_catch
    (params <- URL_searchParams url ;;
     Normal (searchParams_get params (lit "v")))
    VNull.

(** The handler from the prompt on: the transcript is in hand. *)
Definition analyze_transcript (transcript : value) : completion response :=
  transcriptText <- transcript_text transcript ;;
  let prompt := prompt_head ++ transcriptText in
  analysisText <- generateText prompt ;;
  let analysis := extractJSON analysisText in
  adSegments <- get_prop analysis (lit "adSegments") ;;
  Normal {| status := 200;
            body := VObj [(lit "transcript", transcript);
                          (lit "adSegments", adSegments)] |}.

(** The handler from the transcript fetch on: the video id is in hand. *)
Definition fetch_and_analyze (videoId : value) : completion response :=
  match fetchTranscript videoId with
  | Throw _ =>
      Normal {| status := 404; body := error_body msg_fetch_failed |}
  | Normal transcript =>
      missing <- (if negb (truthy transcript) then Normal true
                  else len <- get_prop transcript (lit "length") ;;
                       Normal (is_zero len)) ;;
      if missing
      then Normal {| status := 404; body := error_body msg_no_transcript |}
      else analyze_transcript transcript
  end.

(** The handler from the video-id extraction on: [videoUrl] is in hand. *)
Definition extract_and_fetch (videoUrl : value) : completion response :=
  let videoId := getVideoId videoUrl in
  if negb (truthy videoId)
  then Normal {| status := 400; body := error_body msg_invalid_url |}
  else fetch_and_analyze videoId.

(** The body of the handler's [try] block. *)
Definition analyze_video_try (req_body : value) : completion response :=
  videoUrl <- get_prop req_body (lit "videoUrl") ;;
  if negb (truthy videoUrl)
  then Normal {| status := 400; body := error_body msg_url_required |}
  else extract_and_fetch videoUrl.

(** [app.post('/analyze-video', ...)]: the response sent for a request
    whose parsed body is [req_body]. *)
Definition analyze_video (req_body : value) : response :=
  try_catch (analyze_video_try req_body)
    {| status := 500; body := error_body msg_unexpected |}.

End Handler.

End Server.

(** ** The patterns as list scans

    What the patterns of [extractJSON] compute, written as direct scans of
    the text.  The section on the patterns below proves each scan equal to
    the pattern it stands for. *)

Module Scan.
Import JsString JsValue JsValue.Notations JsOps Server.

Definition fence : JsString.t := lit "```".

(** The scan for [cleanText.replace(/^```json\s*/, '')]. *)
Definition strip_json_fence (s : JsString.t) : JsString.t :=
  match strip_prefix (lit "```json") s with
  | Some r => drop_while is_whitespace r
  | None => s
  end.

(** The scan for [cleanText.replace(/^```\s*/, '')]. *)
Definition strip_open_fence (s : JsString.t) : JsString.t :=
  match strip_prefix fence s with
  | Some r => drop_while is_whitespace r
  | None => s
  end.

(** The scan for [cleanText.replace(/\s*```$/, '')]: the leftmost match
    takes all the white space in front of the closing fence. *)
Definition strip_close_fence (s : JsString.t) : JsString.t :=
  match strip_suffix fence s with
  | Some r => trimEnd r
  | None => s
  end.

Definition strip_fences (s : JsString.t) : JsString.t :=
  strip_close_fence (strip_open_fence (strip_json_fence s)).

Definition open_brace : code_unit := 123%N.
Definition close_brace : code_unit := 125%N.

(** The suffix of [s] that starts at its first [{]. *)
Fixpoint from_first_open (s : JsString.t) : option JsString.t :=
  match s with
  | [] => None
  | c :: r => if (c =? open_brace)%N then Some s else from_first_open r
  end.

(** The prefix of [s] that ends at its last [}]. *)
Definition through_last_close (s : JsString.t) : option JsString.t :=
  match drop_while (fun c => negb (c =? close_brace)%N) (rev s) with
  | [] => None
  | r => Some (rev r)
  end.

(** The scan for [cleanText.match(/\{[\s\S]*\}/)]: from the first [{]
    to the last [}] behind it. *)
Definition match_json_span (s : JsString.t) : option JsString.t :=
  match from_first_open s with
  | Some (c :: r) =>
      match through_last_close r with
      | Some body => Some (c :: body)
      | None => None
      end
  | _ => None
  end.

(** A match of [\s*] [(\d+\.?\d* )] [ms] at the head of [s]: optional white
    space, then the captured group (digits, an optional dot, optional
    digits), then the unit.  The result is the captured group and what
    follows the unit. *)
Definition match_number_ms (s : JsString.t)
  : option (JsString.t * JsString.t) :=
  let r0 := drop_while is_whitespace s in
  let d1 := take_while is_digit r0 in
  let r1 := drop_while is_digit r0 in
  let dotted := match r1 with
                | c :: r2 => if (c =? 46)%N then Some r2 else None
                | [] => None
                end in
  if is_nil d1 then None
  else
    match dotted with
    | Some r2 =>
        match strip_prefix (lit "ms") (drop_while is_digit r2) with
        | Some rest => Some (d1 ++ lit "." ++ take_while is_digit r2, rest)
        | None => None
        end
    | None =>
        match strip_prefix (lit "ms") r1 with
        | Some rest => Some (d1, rest)
        | None => None
        end
    end.

(** A match of [key] followed by the pattern above, at the head of [s]. *)
Definition match_field_ms (key s : JsString.t)
  : option (JsString.t * JsString.t) :=
  match strip_prefix key s with
  | Some r => match_number_ms r
  | None => None
  end.

(** [jsonStr.replace(re, 'key $1')] for the global pattern [re] made of
    [key] and the pattern above: the matches are taken left to right, each
    search resuming where the previous match ended. *)
Fixpoint strip_ms_from (key : JsString.t) (skip : nat) (s : JsString.t)
  : JsString.t :=
  match s with
  | [] => []
  | c :: r =>
      match skip with
      | S k => strip_ms_from key k r
      | O =>
          match match_field_ms key s with
          | Some (num, rest) =>
              key ++ lit " " ++ num
              ++ strip_ms_from key (List.length r - List.length rest) r
          | None => c :: strip_ms_from key 0 r
          end
      end
  end.

Definition strip_ms (key s : JsString.t) : JsString.t :=
  strip_ms_from key 0 s.

(** The two unit repairs, then the three entity repairs. *)
Definition repair (jsonStr : JsString.t) : JsString.t :=
  let jsonStr := strip_ms start_key jsonStr in
  let jsonStr := strip_ms end_key jsonStr in
  let jsonStr := replace_all (lit "&amp;#39;") (lit "'") jsonStr in
  let jsonStr := replace_all (lit "&amp;quot;") dq jsonStr in
  let jsonStr := replace_all (lit "&amp;") (lit "&") jsonStr in
  jsonStr.

(** The body of the [try] block of [extractJSON] over the scans. *)
Definition extractJSON_scan (text : value) : completion value :=
  match text with
  | VStr s =>
      match match_json_span (strip_fences (trim s)) with
      | None => Normal empty_result
      | Some j =>
          match Json.parse (repair j) with
          | None => Throw SyntaxError
          | Some parsed =>
              adSegments <- get_prop parsed (lit "adSegments") ;;
              match adSegments with
              | VArr l =>
                  kept <- filter_segments l ;;
                  set_prop parsed (lit "adSegments") (VArr kept)
              | _ => Normal empty_result
              end
          end
      end
  | _ => Throw TypeError
  end.

(** What a continuation [kf] is given behind a run of digits [s]: the text
    behind the optional dot and its digits. *)
Definition after_digits {A : Type} (kf : JsString.t -> option A)
  (s : JsString.t) : option A :=
  match s with
  | c :: r => if (c =? 46)%N then kf (drop_while is_digit r) else kf s
  | [] => kf s
  end.

(** The continuation of the object pattern behind its star: the closing
    brace, then the end of the match. *)
Definition close_then_rest (s : JsString.t)
  : option (option JsString.t * JsString.t) :=
  match strip_prefix (lit "}") s with
  | Some rest => Some (None, rest)
  | None => None
  end.

End Scan.

(** ** Vocabulary of the statements *)

Module Views.
Import JsString JsValue JsValue.Notations JsOps Server Scan.

(** What [JSON.parse] returns inside [extractJSON] for the text [s]:
    [None] when [s] holds no span from a [{] to a [}], or when the repaired
    span is not JSON. *)
Definition extracted_json (s : JsString.t) : option value :=
  match jsonMatch (cleanText s) with
  | Some jsonMatch0 => Json.parse (jsonStr jsonMatch0)
  | None => None
  end.

(** The segment list of a result. *)
Definition segments_of (r : value) : list value :=
  match get_prop r (lit "adSegments") with
  | Normal (VArr l) => l
  | _ => []
  end.

(** The effect of one coercing assignment on the properties of a segment
    object. *)
Definition coerce_props (ps : props) (k : JsString.t) : props :=
  match get_own ps k with
  | Some (VStr s) => obj_set ps k (VNum (parseFloat s))
  | _ => ps
  end.

(** A segment after the two coercing assignments. *)
Definition coerce_segment (seg : value) : value :=
  match seg with
  | VObj ps => VObj (coerce_props (coerce_props ps (lit "start")) (lit "end"))
  | _ => seg
  end.


(** The five conditions of the validity test, each one evaluated as the
    code evaluates it. *)
Definition passes_validity (seg : value) : Prop :=
  exists start end_ text,
    get_prop seg (lit "start") = Normal start
    /\ get_prop seg (lit "end") = Normal end_
    /\ get_prop seg (lit "text") = Normal text
    /\ isNaN start = Normal false
    /\ isNaN end_ = Normal false
    /\ is_string text = true
    /\ ge start (VNum JsNumber.zero) = Normal true
    /\ gt end_ start = Normal true.


(** What the two opening replacements remove: nothing, or a leading
    [```json] marker with the white space behind it, then nothing or a
    leading [```] marker with the white space behind it. *)
Definition opening (pre : JsString.t) : Prop :=
  exists a b, pre = a ++ b
    /\ (a = [] \/ exists w, forallb is_whitespace w = true
                            /\ a = lit "```json" ++ w)
    /\ (b = [] \/ exists w, forallb is_whitespace w = true
                            /\ b = fence ++ w).

(** What the closing replacement removes: nothing, or the final [```]
    marker with the white space in front of it. *)
Definition closing (suf : JsString.t) : Prop :=
  suf = [] \/ exists w, forallb is_whitespace w = true /\ suf = w ++ fence.

(** [b] is empty or starts with a code unit that [p] rejects. *)
Definition stops (p : code_unit -> bool) (b : JsString.t) : Prop :=
  match b with
  | [] => True
  | c :: _ => p c = false
  end.

(** A parser outcome that is not a fuel shortage and, when it is a
    success, leaves less text than [s]. *)
Definition consumes {A : Type} (r : Json.presult A) (s : JsString.t) : Prop :=
  r <> Json.POutOfFuel
  /\ forall v rest, r = Json.POk v rest -> List.length rest < List.length s.

(** The terminal error responses of the handler. *)
Definition response_url_required : response :=
  {| status := 400; body := error_body msg_url_required |}.
Definition response_invalid_url : response :=
  {| status := 400; body := error_body msg_invalid_url |}.
Definition response_fetch_failed : response :=
  {| status := 404; body := error_body msg_fetch_failed |}.
Definition response_no_transcript : response :=
  {| status := 404; body := error_body msg_no_transcript |}.
Definition response_unexpected : response :=
  {| status := 500; body := error_body msg_unexpected |}.

End Views.

(** ** Sample replies *)

Module Samples.
Import JsString JsValue.

(** The text [{"start":a,"end":b,"text":c}], for three JSON texts. *)
Definition seg_json (a b c : JsString.t) : JsString.t :=
  lit "{" ++ quoted "start" ++ lit ":" ++ a ++ lit ","
  ++ quoted "end" ++ lit ":" ++ b ++ lit ","
  ++ quoted "text" ++ lit ":" ++ c ++ lit "}".

(** The text [{"adSegments":[segs]}]. *)
Definition doc_json (segs : JsString.t) : JsString.t :=
  lit "{" ++ quoted "adSegments" ++ lit ":[" ++ segs ++ lit "]}".

(** The number with the decimal notation [m * 10^e], [m] non-negative. *)
Definition num (m : N) (e : Z) : value := VNum (JsNumber.of_decimal false m e).

(** The object [{ start: a, end: b, text: c }]. *)
Definition seg (a b c : value) : value :=
  VObj [(lit "start", a); (lit "end", b); (lit "text", c)].

(** The object [{ adSegments: segs }]. *)
Definition doc (segs : list value) : value :=
  VObj [(lit "adSegments", VArr segs)].

(** [{"adSegments":[{"start":10,"end":5,"text":"x"}]}] *)
Definition reply_backwards : JsString.t :=
  doc_json (seg_json (lit "10") (lit "5") (quoted "x")).

(** [{ start: 1, end: 2, text: "ok" }] *)
Definition good_segment : value :=
  seg (num 1 0) (num 2 0) (VStr (lit "ok")).

(** [{ start: { toString: 0 }, end: 2, text: "x" }] *)
Definition unconvertible_segment : value :=
  seg (VObj [(lit "toString", num 0 0)]) (num 2 0) (VStr (lit "x")).

(** [{"adSegments":[{"start":1,"end":2,"text":"ok"},
    {"start":{"toString":0},"end":2,"text":"x"}]}] *)
Definition reply_unconvertible : JsString.t :=
  doc_json (seg_json (lit "1") (lit "2") (quoted "ok") ++ lit ","
            ++ seg_json (lit "{" ++ quoted "toString" ++ lit ":0}")
                 (lit "2") (quoted "x")).

(** [{"adSegments":[{"start":1,"end":2,"text":""}]}] *)
Definition reply_empty_text : JsString.t :=
  doc_json (seg_json (lit "1") (lit "2") (quoted "")).



(** [{"adSegments":[{"start": 12.5ms, "end": 20ms, "text":"x"}]}] *)
Definition reply_ms : JsString.t :=
  doc_json (lit "{" ++ quoted "start" ++ lit ": 12.5ms, "
            ++ quoted "end" ++ lit ": 20ms, "
            ++ quoted "text" ++ lit ":" ++ quoted "x" ++ lit "}").

(** A reply inside a code fence: the marker [```json], a line feed, the
    text of [reply_backwards], a line feed and the closing marker. *)
Definition reply_fenced : JsString.t :=
  lit "```json" ++ [10%N] ++ reply_backwards ++ [10%N] ++ lit "```".

(** A reply behind two opening markers: [```json], then [```]. *)
Definition reply_two_markers : JsString.t :=
  lit "```json```" ++ reply_backwards.

(** A fenced reply with a segment that is kept. *)
Definition reply_fenced_good : JsString.t :=
  lit "```json" ++ [10%N]
  ++ doc_json (seg_json (lit "1") (lit "2") (quoted "ok"))
  ++ [10%N] ++ lit "```".

(** A reply with fences in the middle of the text only. *)
Definition reply_inner_fences : JsString.t :=
  lit "Here: ``` " ++ reply_backwards ++ lit " ``` done".

(** [{"adSegments":[5,{"start":1,"end":2,"text":"ok"}]}] *)
Definition reply_with_number : JsString.t :=
  doc_json (lit "5," ++ seg_json (lit "1") (lit "2") (quoted "ok")).


(** [{"adSegments":[{"start":1,"end":2,"text":"a&amp;amp;b"}]}] *)
Definition reply_amp : JsString.t :=
  doc_json (seg_json (lit "1") (lit "2") (quoted "a&amp;amp;b")).

(** [{"adSegments":[{"start":1,"end":2,"text":"a&amp;b"}]}] *)
Definition reply_amp_once : JsString.t :=
  doc_json (seg_json (lit "1") (lit "2") (quoted "a&amp;b")).

(** [{"adSegments":[{"start":1,"end":"Infinity","text":"x"}]}] *)
Definition reply_infinity : JsString.t :=
  doc_json (seg_json (lit "1") (quoted "Infinity") (quoted "x")).

(** [{"adSegments":[{"start":1,"end":null,"text":"x"}]}] *)
Definition reply_infinity_once : JsString.t :=
  doc_json (seg_json (lit "1") (lit "null") (quoted "x")).

(** [{"adSegments":[{"start":-0,"end":2,"text":"x"}]}] *)
Definition reply_negative_zero : JsString.t :=
  doc_json (seg_json (lit "-0") (lit "2") (quoted "x")).

(** [{"adSegments":[{"start":0,"end":2,"text":"x"}]}] *)
Definition reply_zero : JsString.t :=
  doc_json (seg_json (lit "0") (lit "2") (quoted "x")).

(** [{"adSegments":[{"start":12.5,"end":20,"text":"x"}]}] *)
Definition reply_ms_clean : JsString.t :=
  doc_json (seg_json (lit "12.5") (lit "20") (quoted "x")).

(** Collaborators for the examples: a URL parser that knows one watch
    address and rejects every other value, a transcript provider without
    captions, one with an empty transcript, and an AI client that fails. *)
Definition watch_url : JsString.t :=
  lit "https://www.youtube.com/watch?v=abc123&t=5".

Definition toy_URL (url : value)
  : completion (list (JsString.t * JsString.t)) :=
  match url with
  | VStr s =>
      if JsString.eqb s watch_url
      then Normal [(lit "v", lit "abc123"); (lit "t", lit "5")]
      else Throw TypeError
  | _ => Throw TypeError
  end.

Definition no_captions (videoId : value) : completion value :=
  Throw ExternalError.

Definition empty_transcript (videoId : value) : completion value :=
  Normal (VArr []).

Definition no_answer (prompt : JsString.t) : completion value :=
  Throw ExternalError.

(** The request body [{ videoUrl: v }]. *)
Definition request (v : value) : value := VObj [(lit "videoUrl", v)].

End Samples.

(** ** The error-handling middleware *)

Module Middleware.
Import JsString JsValue Server.

Definition msg_internal : JsString.t := lit "Internal Server Error".

(** [app.use((err, req, res, next) => ...)]: the response sent for an
    error that reaches the middleware; the error is only logged. *)
Definition error_middleware (err : error) : response :=
  {| status := 500; body := error_body msg_internal |}.

End Middleware.

(** ** Vocabulary of the handler's outcomes *)

Module Outcomes.
Import JsString JsValue JsValue.Notations JsOps Server.

(** An error response: status 400, 404 or 500 and a body
    [{ error: msg, transcript: [], adSegments: [] }]. *)
Definition error_response (r : response) : Prop :=
  exists msg,
    body r = error_body msg
    /\ (status r = 400 \/ status r = 404 \/ status r = 500)%Z.

(** A success response: status 200 and a body with the two keys
    [transcript] and [adSegments], the latter an array of segments that
    passed the validity test. *)
Definition success_response (r : response) : Prop :=
  status r = 200%Z
  /\ exists transcript segs,
       body r = VObj [(lit "transcript", transcript);
                      (lit "adSegments", VArr segs)]
       /\ truthy transcript = true
       /\ Forall (fun seg => isValid seg = Normal true) segs.

(** A value that [ToString] converts without calling a method of an
    object. *)
Definition is_primitive (v : value) : bool :=
  match v with
  | VArr _ | VObj _ => false
  | _ => true
  end.

(** A transcript line as the provider documents it, as far as the handler
    is concerned: an object whose [offset] and [text], present or not, are
    primitive values. *)
Definition line_object (t : value) : Prop :=
  exists ps,
    t = VObj ps
    /\ (forall v, get_own ps (lit "offset") = Some v -> is_primitive v = true)
    /\ (forall v, get_own ps (lit "text") = Some v -> is_primitive v = true).

(** The number that a [start] or an [end] stands for once the callback
    has converted it, when it is a number or a string. *)
Definition timestamp (v : value) : option JsNumber.t :=
  match v with
  | VNum x => Some x
  | VStr s => Some (parseFloat s)
  | _ => None
  end.

Section Route.
Variable URL_searchParams
  : value -> completion (list (JsString.t * JsString.t)).
Variable fetchTranscript : value -> completion value.

(** The request passes the two validations of the URL and the two of the
    transcript: [transcript] is what the provider returned for the video
    id, it is truthy and its [length] is not [0]. *)
Definition transcript_in_hand (req_body transcript : value) : Prop :=
  exists videoUrl len,
    get_prop req_body (lit "videoUrl") = Normal videoUrl
    /\ truthy videoUrl = true
    /\ truthy (getVideoId URL_searchParams videoUrl) = true
    /\ fetchTranscript (getVideoId URL_searchParams videoUrl)
       = Normal transcript
    /\ truthy transcript = true
    /\ get_prop transcript (lit "length") = Normal len
    /\ is_zero len = false.

End Route.

End Outcomes.

(** ** Collaborators and requests for the examples *)

Module Scenes.
Import JsString JsValue Server Samples.

(** [{ offset: o, text: x }] *)
Definition line (o x : value) : value :=
  VObj [(lit "offset", o); (lit "text", x)].

(** A transcript of two lines, the second without its [text]. *)
Definition two_lines : value :=
  VArr [line (num 0 0) (VStr (lit "hello"));
        VObj [(lit "offset", num 15 (-1))]].

Definition captions (videoId : value) : completion value :=
  Normal two_lines.

(** A provider whose transcript holds a [null] element. *)
Definition broken_captions (videoId : value) : completion value :=
  Normal (VArr [VNull]).

(** An AI client that answers every prompt with [reply_with_number]. *)
Definition answer (prompt : JsString.t) : completion value :=
  Normal (VStr reply_with_number).

(** An AI client that echoes its prompt. *)
Definition echo (prompt : JsString.t) : completion value :=
  Normal (VStr prompt).

(** What stands between the braces of [reply_ms_clean]. *)
Definition clean_inside : JsString.t :=
  quoted "adSegments" ++ lit ":["
  ++ seg_json (lit "12.5") (lit "20") (quoted "x") ++ lit "]".

(** A reply with prose and a code fence around [reply_ms_clean]. *)
Definition prose_before : JsString.t :=
  lit "Sure, here it is: ```json" ++ [10%N].
Definition prose_after : JsString.t :=
  [10%N] ++ lit "``` Anything else?".

(** What follows the first object in a reply that holds it twice, the
    final brace left out. *)
Definition second_object : JsString.t :=
  lit " or " ++ lit "{" ++ clean_inside.

(** [{"note":"n","adSegments":[{"start":"1","end":2,"text":"ok","by":"ai"}]}]
    and what it parses to. *)
Definition reply_noted : JsString.t :=
  lit "{" ++ quoted "note" ++ lit ":" ++ quoted "n" ++ lit ","
  ++ quoted "adSegments" ++ lit ":[{"
  ++ quoted "start" ++ lit ":" ++ quoted "1" ++ lit ","
  ++ quoted "end" ++ lit ":2,"
  ++ quoted "text" ++ lit ":" ++ quoted "ok" ++ lit ","
  ++ quoted "by" ++ lit ":" ++ quoted "ai" ++ lit "}]}".

Definition noted_segment : list (JsString.t * value) :=
  [(lit "start", VStr (lit "1")); (lit "end", num 2 0);
   (lit "text", VStr (lit "ok")); (lit "by", VStr (lit "ai"))].

Definition noted_props : list (JsString.t * value) :=
  [(lit "note", VStr (lit "n"));
   (lit "adSegments", VArr [VObj noted_segment])].

(** [{ start: null, end: 5, text: "x" }] as a list of properties. *)
Definition null_start : list (JsString.t * value) :=
  [(lit "start", VNull); (lit "end", num 5 0); (lit "text", VStr (lit "x"))].

(** A second URL parser: every string has the video id [abc123]. *)
Definition any_URL (url : value)
  : completion (list (JsString.t * JsString.t)) :=
  match url with
  | VStr _ => Normal [(lit "v", lit "abc123")]
  | _ => Throw TypeError
  end.

End Scenes.

(** ** Vocabulary of the parser's statements *)

Module Delimiters.
Import JsString JsValue.

(** A text that starts with what may follow a value inside an array or an
    object: JSON white space, a comma, a closing bracket or a closing
    brace. *)
Definition delimited (rest : JsString.t) : bool :=
  match rest with
  | c :: _ => (Json.is_json_ws c || (c =? 44) || (c =? 93) || (c =? 125))%N
  | [] => false
  end.

Definition is_number (v : value) : bool :=
  match v with VNum _ => true | _ => false end.

(** The stages of [Json.parse_number], one by one: the sign, the integer
    part from its first digit [d], the fraction. *)
Definition number_sign (s : JsString.t) : bool * JsString.t :=
  match s with
  | c :: r => if (c =? 45)%N then (true, r) else (false, s)
  | [] => (false, s)
  end.

Definition number_integer (d : code_unit) (more : JsString.t)
  : JsString.t * JsString.t :=
  if (d =? 48)%N then ([d], more)
  else (take_while is_digit (d :: more), drop_while is_digit (d :: more)).

Definition number_fraction (r1 : JsString.t) : JsString.t * JsString.t :=
  match r1 with
  | c :: r' =>
      let fp := take_while is_digit r' in
      if (c =? 46)%N && negb (JsOps.is_nil fp)
      then (fp, drop_while is_digit r')
      else ([], r1)
  | [] => ([], r1)
  end.

End Delimiters.

(** ** The data model of the specification *)

Module DataModel.
Import JsString JsValue JsOps.




End DataModel.

(** ** Cutting at the two ends of a text *)

Module Anchors.
Import JsString Scan Views.

Definition starts_with (p t : JsString.t) : Prop := exists r, t = p ++ r.
Definition ends_with (p t : JsString.t) : Prop := exists r, t = r ++ p.

(** [t] is [s] without the white space at its two ends. *)
Definition trimmed (s t : JsString.t) : Prop :=
  exists w1 w2,
    s = w1 ++ t ++ w2
    /\ forallb is_whitespace w1 = true
    /\ forallb is_whitespace w2 = true
    /\ stops is_whitespace t
    /\ stops is_whitespace (rev t).

(** [rest] is [t] without a leading [marker] and all the white space
    behind it, or [t] itself when [t] does not start with the marker. *)
Definition cut_leading (marker t rest : JsString.t) : Prop :=
  (~ starts_with marker t /\ rest = t)
  \/ (exists w,
        t = marker ++ w ++ rest
        /\ forallb is_whitespace w = true
        /\ stops is_whitespace rest).

(** [rest] is [t] without a final [marker] and all the white space in
    front of it, or [t] itself when [t] does not end with the marker. *)
Definition cut_trailing (marker t rest : JsString.t) : Prop :=
  (~ ends_with marker t /\ rest = t)
  \/ (exists w,
        t = rest ++ w ++ marker
        /\ forallb is_whitespace w = true
        /\ stops is_whitespace (rev rest)).

(** What one optional leading marker amounts to: nothing, a [```json]
    marker or a bare [```] marker, with the white space behind it. *)
Definition single_marker (pre : JsString.t) : Prop :=
  pre = []
  \/ (exists w, forallb is_whitespace w = true /\ pre = lit "```json" ++ w)
  \/ (exists w, forallb is_whitespace w = true /\ pre = fence ++ w).

End Anchors.

(** ** Values that serialize and parse back *)

Module Shape.
Import JsString JsValue.

(** Assigning the properties of [ps] one after the other to an empty
    object, as [JSON.parse] does with the members of an object text. *)
Definition assign (acc : props) (kv : JsString.t * value) : props :=
  obj_set acc (fst kv) (snd kv).

Definition rebuild (ps : props) : props := fold_left assign ps [].

Definition is_none {A : Type} (o : option A) : bool :=
  match o with None => true | Some _ => false end.

(** Keys in enumeration order: the array indices first, in ascending
    order from [bound] on, then the other keys. *)
Fixpoint ordered_from (bound : option N) (ks : list JsString.t) : bool :=
  match ks with
  | [] => true
  | k :: r =>
      match array_index k with
      | Some i =>
          match bound with Some b => (b <? i)%N | None => true end
          && ordered_from (Some i) r
      | None => forallb (fun k' => is_none (array_index k')) r
      end
  end.

(** The own properties of an object that has been built by assignments:
    no key twice, and the keys in enumeration order. *)
Definition ordered (ps : props) : Prop :=
  NoDup (map fst ps) /\ ordered_from None (map fst ps) = true.

(** A value as [JSON.parse] builds them: no [undefined] in it, and the
    properties of every object in it in enumeration order. *)
Fixpoint json_value (v : value) : Prop :=
  match v with
  | VUndefined => False
  | VNull | VBool _ | VNum _ | VStr _ => True
  | VArr l =>
      (fix all (l : list value) : Prop :=
         match l with
         | [] => True
         | x :: r => json_value x /\ all r
         end) l
  | VObj ps =>
      ordered ps
      /\ (fix all (ps : props) : Prop :=
            match ps with
            | [] => True
            | (_, x) :: r => json_value x /\ all r
            end) ps
  end.

(** A number that survives [JSON.stringify] followed by [JSON.parse]: the
    text printed for it is read back as the same number. *)
Definition reads_back (x : JsNumber.t) : Prop :=
  Json.parse (JsNumber.toString x) = Some (VNum x).

(** Every number in the value reads back. *)
Fixpoint exact_numbers (v : value) : Prop :=
  match v with
  | VNum x => reads_back x
  | VArr l =>
      (fix all (l : list value) : Prop :=
         match l with
         | [] => True
         | x :: r => exact_numbers x /\ all r
         end) l
  | VObj ps =>
      (fix all (ps : props) : Prop :=
         match ps with
         | [] => True
         | (_, x) :: r => exact_numbers x /\ all r
         end) ps
  | _ => True
  end.

(** What the string reader makes of one more code unit [c] in front of
    the text [X]. *)
Definition one_more (c : code_unit) (X : JsString.t)
  : option (JsString.t * JsString.t) :=
  match Json.parse_string_body X with
  | Some (str, rest) => Some (c :: str, rest)
  | None => None
  end.

(** What may follow a value in a serialized text: nothing, a comma, a
    closing bracket or a closing brace. *)
Definition closes (t : JsString.t) : Prop :=
  match t with
  | [] => True
  | c :: _ => c = 44%N \/ c = 93%N \/ c = 125%N
  end.

End Shape.

(** ** The lexical structure of a serialized value *)

Module Lexer.
Import JsString JsValue.

(** Where a reader stands in a text that [JSON.stringify] wrote: where a
    value has to start, just behind an opening bracket or brace, inside or
    behind a value, inside a string, behind a reverse solidus in a
    string. *)
Inductive lex_state := Fresh | Opened | Behind | Inside | Escaped.

(** The code units of numbers and of [true], [false] and [null]. *)
Definition is_plain (c : code_unit) : bool :=
  (is_digit c || (c =? 45) || (c =? 43) || (c =? 46) || (c =? 101)
   || (c =? 97) || (c =? 102) || (c =? 108) || (c =? 110) || (c =? 114)
   || (c =? 115) || (c =? 116) || (c =? 117))%N.

Definition lex_step (q : lex_state) (c : code_unit) : option lex_state :=
  match q with
  | Fresh =>
      if (c =? 34)%N then Some Inside
      else if ((c =? 91) || (c =? 123))%N then Some Opened
      else if is_plain c then Some Behind
      else None
  | Opened =>
      if (c =? 34)%N then Some Inside
      else if ((c =? 91) || (c =? 123))%N then Some Opened
      else if ((c =? 93) || (c =? 125))%N || is_plain c then Some Behind
      else None
  | Behind =>
      if ((c =? 44) || (c =? 58))%N then Some Fresh
      else if ((c =? 93) || (c =? 125))%N || is_plain c then Some Behind
      else None
  | Inside =>
      if (c =? 34)%N then Some Behind
      else if (c =? 92)%N then Some Escaped
      else Some Inside
  | Escaped => Some Inside
  end.

Fixpoint lex_run (q : lex_state) (s : JsString.t) : option lex_state :=
  match s with
  | [] => Some q
  | c :: r =>
      match lex_step q c with
      | Some q' => lex_run q' r
      | None => None
      end
  end.

(** The texts of the elements of an array and of the members of an
    object, as [JSON.stringify] joins them. *)
Definition element_text (x : value) : JsString.t :=
  match Json.stringify x with Some s => s | None => lit "null" end.

Definition member_texts (kv : JsString.t * value) : list JsString.t :=
  match Json.stringify (snd kv) with
  | Some s => [Json.quote (fst kv) ++ lit ":" ++ s]
  | None => []
  end.

End Lexer.

(** * Properties *)

(** ** Strings *)

Module JsStringFacts.
Import JsString.

Lemma eqb_eq a b : eqb a b = true <-> a = b.
Proof.
  unfold eqb. destruct (list_eq_dec N.eq_dec a b); split; congruence.
Qed.

Lemma eqb_refl a : eqb a a = true.
Proof. now apply eqb_eq. Qed.

Lemma eqb_neq a b : eqb a b = false <-> a <> b.
Proof.
  unfold eqb. destruct (list_eq_dec N.eq_dec a b); split; congruence.
Qed.

Lemma take_drop_while p s : take_while p s ++ drop_while p s = s.
Proof.
  induction s as [|c r IH]; simpl; [reflexivity|].
  destruct (p c); simpl; [now rewrite IH | reflexivity].
Qed.

Lemma take_while_all p s : forallb p (take_while p s) = true.
Proof.
  induction s as [|c r IH]; simpl; [reflexivity|].
  destruct (p c) eqn:E; simpl; [now rewrite E | reflexivity].
Qed.

Lemma drop_while_head p s c r : drop_while p s = c :: r -> p c = false.
Proof.
  induction s as [|d t IH]; simpl; [discriminate|].
  destruct (p d) eqn:E; [exact IH|].
  intros H; injection H as -> _. exact E.
Qed.

Lemma drop_while_length p s : List.length (drop_while p s) <= List.length s.
Proof.
  induction s as [|c r IH]; simpl; [lia|].
  destruct (p c); simpl; lia.
Qed.

Lemma drop_while_false p s c r : s = c :: r -> p c = false -> drop_while p s = s.
Proof. intros -> H. simpl. now rewrite H. Qed.

Lemma drop_while_app_all p w s :
  forallb p w = true -> drop_while p (w ++ s) = drop_while p s.
Proof.
  induction w as [|c r IH]; simpl; [reflexivity|].
  intros H. apply andb_true_iff in H as [Hc Hr]. now rewrite Hc, IH.
Qed.

Lemma strip_prefix_Some p s r : strip_prefix p s = Some r <-> s = p ++ r.
Proof.
  revert s. induction p as [|a p IH]; intros s; simpl.
  - destruct s; split; congruence.
  - destruct s as [|b s]; [split; discriminate|].
    destruct (N.eqb_spec a b) as [->|Hne].
    + rewrite IH. split; congruence.
    + split; [discriminate | congruence].
Qed.

Lemma strip_prefix_app p r : strip_prefix p (p ++ r) = Some r.
Proof. now apply strip_prefix_Some. Qed.

Lemma strip_suffix_Some p s r : strip_suffix p s = Some r <-> s = r ++ p.
Proof.
  unfold strip_suffix.
  destruct (strip_prefix (rev p) (rev s)) as [x|] eqn:E.
  - apply strip_prefix_Some in E.
    assert (Hs : s = rev x ++ p).
    { rewrite <- (rev_involutive s), E, rev_app_distr, rev_involutive.
      reflexivity. }
    split.
    + intros H; injection H as <-. exact Hs.
    + intros ->. apply app_inv_tail in Hs. now rewrite Hs.
  - split; [discriminate|].
    intros ->. rewrite rev_app_distr, strip_prefix_app in E. discriminate.
Qed.

(** [trimEnd] removes a run of white space at the end. *)
Lemma trimEnd_spec s :
  exists w, s = trimEnd s ++ w /\ forallb is_whitespace w = true.
Proof.
  unfold trimEnd.
  exists (rev (take_while is_whitespace (rev s))). split.
  - rewrite <- rev_app_distr, take_drop_while, rev_involutive. reflexivity.
  - apply forallb_forall. intros x Hx. apply in_rev in Hx.
    revert x Hx. apply forallb_forall, take_while_all.
Qed.

Lemma trimStart_spec s :
  exists w, s = w ++ trimStart s /\ forallb is_whitespace w = true.
Proof.
  exists (take_while is_whitespace s). split.
  - symmetry. apply take_drop_while.
  - apply take_while_all.
Qed.

End JsStringFacts.

(** ** The sanitizer's text steps *)

Module SpanFacts.
Import JsString JsStringFacts JsValue Server Scan Views.

Lemma strip_json_fence_spec s :
  exists a, s = a ++ strip_json_fence s
    /\ (a = [] \/ exists w, forallb is_whitespace w = true
                            /\ a = lit "```json" ++ w).
Proof.
  unfold strip_json_fence.
  destruct (strip_prefix (lit "```json") s) as [r|] eqn:E.
  - apply strip_prefix_Some in E. subst s.
    exists (lit "```json" ++ take_while is_whitespace r). split.
    + rewrite <- app_assoc, take_drop_while. reflexivity.
    + right. eexists. split; [apply take_while_all | reflexivity].
  - exists []. split; [reflexivity | now left].
Qed.

Lemma strip_open_fence_spec s :
  exists b, s = b ++ strip_open_fence s
    /\ (b = [] \/ exists w, forallb is_whitespace w = true
                            /\ b = fence ++ w).
Proof.
  unfold strip_open_fence.
  destruct (strip_prefix fence s) as [r|] eqn:E.
  - apply strip_prefix_Some in E. subst s.
    exists (fence ++ take_while is_whitespace r). split.
    + rewrite <- app_assoc, take_drop_while. reflexivity.
    + right. eexists. split; [apply take_while_all | reflexivity].
  - exists []. split; [reflexivity | now left].
Qed.

Lemma strip_close_fence_spec s :
  exists suf, s = strip_close_fence s ++ suf /\ closing suf.
Proof.
  unfold strip_close_fence.
  destruct (strip_suffix fence s) as [r|] eqn:E.
  - apply strip_suffix_Some in E. subst s.
    destruct (trimEnd_spec r) as (w & Hr & Hw).
    exists (w ++ fence). split.
    + rewrite app_assoc, <- Hr. reflexivity.
    + right. now exists w.
  - exists []. split; [now rewrite app_nil_r | now left].
Qed.

(** The fence strips only cut at the two ends of the text. *)
Lemma strip_fences_anchored s :
  exists pre suf, s = pre ++ strip_fences s ++ suf
                  /\ opening pre /\ closing suf.
Proof.
  unfold strip_fences.
  destruct (strip_json_fence_spec s) as (a & Ha & Hsa).
  destruct (strip_open_fence_spec (strip_json_fence s)) as (b & Hb & Hsb).
  destruct (strip_close_fence_spec (strip_open_fence (strip_json_fence s)))
    as (suf & Hc & Hsuf).
  exists (a ++ b), suf. split; [|split].
  - rewrite <- app_assoc, <- Hc, <- Hb. exact Ha.
  - now exists a, b.
  - exact Hsuf.
Qed.

Lemma from_first_open_Some s t :
  from_first_open s = Some t ->
  exists a r, s = a ++ t /\ t = open_brace :: r /\ ~ In open_brace a.
Proof.
  induction s as [|c s IH]; simpl; [discriminate|].
  destruct (N.eqb_spec c open_brace) as [->|Hne].
  - intros H; injection H as <-. exists [], s. repeat split. intros [].
  - intros H. destruct (IH H) as (a & r & -> & -> & Hna).
    exists (c :: a), r. repeat split. intros [Hc|Hin]; [congruence | auto].
Qed.

Lemma from_first_open_None s :
  from_first_open s = None -> ~ In open_brace s.
Proof.
  induction s as [|c s IH]; simpl; [intros _ []|].
  destruct (N.eqb_spec c open_brace) as [->|Hne]; [discriminate|].
  intros H [Hc|Hin]; [congruence | now apply IH].
Qed.

Lemma not_close_all s :
  forallb (fun c => negb (c =? close_brace)%N) s = true ->
  ~ In close_brace s.
Proof.
  intros H Hin. rewrite forallb_forall in H. specialize (H _ Hin).
  now rewrite N.eqb_refl in H.
Qed.

Lemma through_last_close_Some r body :
  through_last_close r = Some body ->
  exists m b, body = m ++ [close_brace] /\ r = body ++ b
              /\ ~ In close_brace b.
Proof.
  unfold through_last_close.
  set (p := fun c : code_unit => negb (c =? close_brace)%N).
  destruct (drop_while p (rev r)) as [|c x] eqn:E; [discriminate|].
  intros H; injection H as <-.
  pose proof (drop_while_head _ _ E) as Hc. unfold p in Hc.
  apply negb_false_iff, N.eqb_eq in Hc. subst c.
  exists (rev x), (rev (take_while p (rev r))). split; [reflexivity|]. split.
  - change (rev x ++ [close_brace]) with (rev (close_brace :: x)).
    rewrite <- rev_app_distr, <- E, take_drop_while, rev_involutive.
    reflexivity.
  - intros Hin. apply in_rev in Hin.
    exact (not_close_all _ (take_while_all p (rev r)) Hin).
Qed.

Lemma through_last_close_None r :
  through_last_close r = None -> ~ In close_brace r.
Proof.
  unfold through_last_close.
  set (p := fun c : code_unit => negb (c =? close_brace)%N).
  destruct (drop_while p (rev r)) as [|c x] eqn:E; [|discriminate].
  intros _ Hin. apply in_rev in Hin.
  pose proof (take_drop_while p (rev r)) as H. rewrite E, app_nil_r in H.
  rewrite <- H in Hin.
  exact (not_close_all _ (take_while_all p (rev r)) Hin).
Qed.

(** A match runs from the first [{] to the last [}]. *)
Lemma match_json_span_Some s j :
  match_json_span s = Some j ->
  exists a m b, s = a ++ j ++ b /\ j = open_brace :: m ++ [close_brace]
                /\ ~ In open_brace a /\ ~ In close_brace b.
Proof.
  unfold match_json_span.
  destruct (from_first_open s) as [[|c r]|] eqn:E; try discriminate.
  destruct (through_last_close r) as [body|] eqn:E2; [|discriminate].
  intros H; injection H as <-.
  destruct (from_first_open_Some _ E) as (a & r' & -> & Ht & Hna).
  injection Ht as -> <-.
  destruct (through_last_close_Some _ E2) as (m & b & -> & Hr & Hnb).
  exists a, m, b. repeat split; auto.
  rewrite Hr. simpl. now rewrite <- !app_assoc.
Qed.

(** No match: no [{] has a [}] behind it. *)
Lemma match_json_span_None s :
  match_json_span s = None ->
  forall a m b, s <> a ++ open_brace :: m ++ close_brace :: b.
Proof.
  unfold match_json_span. intros H a m b ->.
  destruct (from_first_open _) as [[|c r]|] eqn:E.
  - destruct (from_first_open_Some _ E) as (? & ? & _ & ? & _). discriminate.
  - destruct (through_last_close r) as [body|] eqn:E2; [discriminate|].
    apply through_last_close_None in E2.
    destruct (from_first_open_Some _ E) as (a' & r' & Heq & Ht & Hna).
    injection Ht as -> <-.
    apply E2. clear E E2 H.
    revert a Heq. induction a' as [|x a' IH]; intros a Heq.
    + destruct a as [|y a]; simpl in Heq.
      * injection Heq as <-. apply in_or_app. right. now left.
      * injection Heq as _ <-. apply in_or_app. right. right.
        apply in_or_app. right. now left.
    + destruct a as [|y a]; simpl in Heq.
      * injection Heq as <- _. exfalso. apply Hna. now left.
      * injection Heq as _ Heq. apply (IH (fun H => Hna (or_intror H)) a Heq).
  - apply (from_first_open_None _ E). apply in_or_app. right. now left.
Qed.

End SpanFacts.

(** ** The patterns and their scans *)

Module RegexFacts.
Import JsString JsStringFacts JsValue JsOps Regex Server Scan Views SpanFacts.

(** *** Runs of a class *)


Lemma drop_while_app_stop p a b :
  forallb p a = true -> stops p b -> drop_while p (a ++ b) = b.
Proof.
  induction a as [|c a IH]; simpl; intros Ha Hb.
  - destruct b as [|c b]; simpl in *; [reflexivity | now rewrite Hb].
  - apply andb_true_iff in Ha as [Hc Ha]. rewrite Hc, IH; auto.
Qed.

Lemma digit_not_whitespace c : is_digit c = true -> is_whitespace c = false.
Proof.
  unfold is_digit, is_whitespace. intros H.
  apply andb_true_iff in H as [H1 H2].
  apply N.leb_le in H1, H2.
  repeat (apply orb_false_iff; split);
    try (apply N.eqb_neq; lia);
    apply andb_false_iff;
    first [ right; apply N.leb_gt; lia | left; apply N.leb_gt; lia ].
Qed.

Lemma drop_while_all p l : forallb p l = true -> drop_while p l = [].
Proof.
  induction l as [|c r IH]; simpl; [reflexivity|].
  intros H. apply andb_true_iff in H as [Hc Hr]. now rewrite Hc, IH.
Qed.

Lemma drop_while_app_some p a b :
  forallb p a = false -> drop_while p (a ++ b) = drop_while p a ++ b.
Proof.
  induction a as [|c a IH]; simpl; [discriminate|].
  destruct (p c); simpl; [exact IH | reflexivity].
Qed.

Lemma drop_while_stops p s : stops p (drop_while p s).
Proof.
  induction s as [|c r IH]; simpl; [exact I|].
  destruct (p c) eqn:E; [exact IH | exact E].
Qed.

Lemma drop_while_stopped p s : stops p s -> drop_while p s = s.
Proof.
  destruct s as [|c r]; simpl; [reflexivity|]. now intros ->.
Qed.

Lemma forallb_rev (p : code_unit -> bool) l :
  forallb p (rev l) = forallb p l.
Proof.
  induction l as [|c r IH]; simpl; [reflexivity|].
  rewrite forallb_app, IH. simpl. rewrite andb_true_r. apply andb_comm.
Qed.

Lemma trimEnd_all w : forallb is_whitespace w = true -> trimEnd w = [].
Proof.
  intros H. unfold trimEnd. rewrite drop_while_all; [reflexivity|].
  now rewrite forallb_rev.
Qed.

Lemma trimEnd_cons c r :
  forallb is_whitespace (c :: r) = false -> trimEnd (c :: r) = c :: trimEnd r.
Proof.
  intros H. unfold trimEnd. simpl rev.
  destruct (forallb is_whitespace (rev r)) eqn:E.
  - rewrite drop_while_app_all by exact E.
    rewrite (drop_while_all _ _ E).
    simpl in H. rewrite forallb_rev in E. rewrite E, andb_true_r in H.
    simpl. now rewrite H.
  - rewrite drop_while_app_some by exact E.
    rewrite rev_app_distr. reflexivity.
Qed.

Lemma firstn_prefix (a b : JsString.t) :
  firstn (List.length (a ++ b) - List.length b) (a ++ b) = a.
Proof.
  rewrite length_app.
  replace (List.length a + List.length b - List.length b)
    with (List.length a) by lia.
  rewrite firstn_app, firstn_all, Nat.sub_diag. simpl. apply app_nil_r.
Qed.

(** *** The greedy star *)

(** The star stops at the longest run when the continuation accepts the
    text behind it. *)
Lemma star_class_first A p s (k : JsString.t -> option A) x :
  k (drop_while p s) = Some x -> star_class p s k = Some x.
Proof.
  induction s as [|c r IH]; simpl; [auto|].
  destruct (p c); [|auto].
  intros H. now rewrite (IH H).
Qed.

(** It fails when the continuation rejects the text behind every run,
    the longest and the shorter ones. *)
Lemma star_class_backoff A p s (k : JsString.t -> option A) :
  k (drop_while p s) = None ->
  (forall x, x <> [] -> forallb p x = true ->
             k (x ++ drop_while p s) = None) ->
  star_class p s k = None.
Proof.
  induction s as [|c r IH]; simpl; [auto|].
  destruct (p c) eqn:E; [|auto].
  intros H Hall. rewrite (IH H Hall). simpl.
  specialize (Hall (c :: take_while p r)).
  simpl in Hall. rewrite take_drop_while, E, take_while_all in Hall.
  apply Hall; [discriminate | reflexivity].
Qed.

(** A continuation that rejects every text starting in the class makes the
    star deterministic. *)
Lemma star_class_det A p s (k : JsString.t -> option A) :
  (forall c r, p c = true -> k (c :: r) = None) ->
  star_class p s k = k (drop_while p s).
Proof.
  intros Hk. destruct (k (drop_while p s)) as [x|] eqn:E.
  - now apply star_class_first.
  - apply star_class_backoff; [exact E|].
    intros [|c x] Hx Hp; [congruence|].
    simpl in Hp. apply andb_true_iff in Hp as [Hc _]. now apply Hk.
Qed.

Lemma star_class_total A p s (k : JsString.t -> option A) :
  (forall x, k x <> None) -> star_class p s k = k (drop_while p s).
Proof.
  intros Hk. destruct (k (drop_while p s)) as [x|] eqn:E.
  - now apply star_class_first.
  - now apply Hk in E.
Qed.

(** *** Searching and replacing *)

Lemma replace_in_cons n r rep c s :
  replace_in n r rep (c :: s)
  = match match_here n r (c :: s) with
    | Some (cap, rest) => expand rep cap ++ rest
    | None => c :: replace_in n r rep s
    end.
Proof.
  unfold replace_in. cbn [exec].
  destruct (match_here n r (c :: s)) as [[cap rest]|]; [reflexivity|].
  destruct (exec n r s); reflexivity.
Qed.

Lemma match_first_in_cons n r c s :
  match_first_in n r (c :: s)
  = match match_here n r (c :: s) with
    | Some (cap, rest) =>
        Some (firstn (List.length (c :: s) - List.length rest) (c :: s))
    | None => match_first_in n r s
    end.
Proof.
  unfold match_first_in. cbn [exec].
  destruct (match_here n r (c :: s)) as [[cap rest]|]; [reflexivity|].
  destruct (exec n r s); reflexivity.
Qed.

(** A pattern that opens with the start anchor matches at index 0 or
    nowhere. *)
Lemma match_here_anchored n r s :
  match_here n (Seq Bol r) s
  = if (List.length s =? n)%nat then match_here n r s else None.
Proof. reflexivity. Qed.

Lemma exec_anchored n r s :
  List.length s < n -> exec n (Seq Bol r) s = None.
Proof.
  induction s as [|c s IH]; intros H; cbn [exec];
    rewrite match_here_anchored.
  - destruct (Nat.eqb_spec (List.length (@nil code_unit)) n);
      [simpl in *; lia | reflexivity].
  - destruct (Nat.eqb_spec (List.length (c :: s)) n); [lia|].
    rewrite IH by (simpl in H; lia). reflexivity.
Qed.

Lemma replace_anchored r rep s :
  replace (Seq Bol r) rep s
  = match match_here (List.length s) r s with
    | Some (cap, rest) => expand rep cap ++ rest
    | None => s
    end.
Proof.
  unfold replace, replace_in. destruct s as [|c s]; cbn [exec];
    rewrite match_here_anchored, Nat.eqb_refl.
  - destruct (match_here _ r []) as [[cap rest]|]; reflexivity.
  - destruct (match_here _ r (c :: s)) as [[cap rest]|]; [reflexivity|].
    rewrite exec_anchored by (simpl; lia). reflexivity.
Qed.

(** *** The fences *)

Lemma match_here_fence n l s :
  match_here n (Seq (Lit l) (Star is_whitespace)) s
  = match strip_prefix l s with
    | Some r => Some (None, drop_while is_whitespace r)
    | None => None
    end.
Proof.
  unfold match_here. simpl. destruct (strip_prefix l s) as [r|]; [|reflexivity].
  apply star_class_total. discriminate.
Qed.

Lemma re_json_fence_closed s :
  replace re_json_fence [] s = strip_json_fence s.
Proof.
  unfold re_json_fence, strip_json_fence.
  rewrite replace_anchored, match_here_fence.
  destruct (strip_prefix _ s); reflexivity.
Qed.

Lemma re_open_fence_closed s :
  replace re_open_fence [] s = strip_open_fence s.
Proof.
  unfold re_open_fence, strip_open_fence, fence.
  rewrite replace_anchored, match_here_fence.
  destruct (strip_prefix _ s); reflexivity.
Qed.

Lemma whitespace_not_backtick c :
  is_whitespace c = true -> (96 =? c)%N = false.
Proof.
  intros H. destruct (N.eqb_spec 96 c) as [<-|]; [discriminate | reflexivity].
Qed.

(** The closing pattern matches at the head of [s] when [s] is white space
    and then the fence, and nothing more. *)
Lemma match_here_close n s :
  match_here n re_close_fence s
  = if JsString.eqb (drop_while is_whitespace s) fence
    then Some (None, []) else None.
Proof.
  unfold match_here, re_close_fence. cbn [run].
  rewrite star_class_det.
  - destruct (strip_prefix (lit "```") (drop_while is_whitespace s))
      as [x|] eqn:E.
    + apply strip_prefix_Some in E. rewrite E.
      destruct x as [|c x].
      * rewrite app_nil_r. reflexivity.
      * destruct (JsString.eqb _ _) eqn:E2; [|reflexivity].
        apply eqb_eq in E2. unfold fence in E2.
        rewrite <- (app_nil_r (lit "```")) in E2 at 2.
        apply app_inv_head in E2. discriminate.
    + destruct (JsString.eqb _ _) eqn:E2; [|reflexivity].
      apply eqb_eq in E2. rewrite E2 in E. discriminate.
  - intros c r Hc.
    change (strip_prefix (lit "```") (c :: r))
      with (if (96 =? c)%N then strip_prefix (lit "``") r else None).
    now rewrite (whitespace_not_backtick _ Hc).
Qed.

Lemma re_close_fence_in n s :
  replace_in n re_close_fence [] s = strip_close_fence s.
Proof.
  induction s as [|c s IH].
  - reflexivity.
  - rewrite replace_in_cons, match_here_close.
    destruct (JsString.eqb (drop_while is_whitespace (c :: s)) fence) eqn:E.
    + apply eqb_eq in E.
      pose proof (take_drop_while is_whitespace (c :: s)) as Hs.
      rewrite E in Hs. unfold strip_close_fence.
      rewrite (proj2 (strip_suffix_Some fence (c :: s) _) (eq_sym Hs)).
      rewrite trimEnd_all; [reflexivity | apply take_while_all].
    + apply eqb_neq in E. rewrite IH. unfold strip_close_fence.
      destruct (strip_suffix fence s) as [r|] eqn:Es.
      * apply strip_suffix_Some in Es. subst s.
        rewrite (proj2 (strip_suffix_Some fence (c :: r ++ fence) (c :: r))
                   eq_refl).
        symmetry. apply trimEnd_cons.
        destruct (forallb is_whitespace (c :: r)) eqn:Hall; [|reflexivity].
        exfalso. apply E.
        change (c :: r ++ fence) with ((c :: r) ++ fence).
        rewrite drop_while_app_all by exact Hall. reflexivity.
      * destruct (strip_suffix fence (c :: s)) as [r|] eqn:Es2; [|reflexivity].
        exfalso. apply strip_suffix_Some in Es2.
        destruct r as [|x r]; simpl in Es2.
        -- apply E. rewrite Es2. reflexivity.
        -- injection Es2 as -> ->.
           rewrite (proj2 (strip_suffix_Some fence (r ++ fence) r) eq_refl)
             in Es.
           discriminate.
Qed.

Lemma re_close_fence_closed s :
  replace re_close_fence [] s = strip_close_fence s.
Proof. apply re_close_fence_in. Qed.

(** The variable [cleanText] holds the trimmed text without its anchored
    fences. *)
Lemma cleanText_scan s : cleanText s = strip_fences (trim s).
Proof.
  unfold cleanText, strip_fences. cbv zeta.
  now rewrite re_json_fence_closed, re_open_fence_closed,
    re_close_fence_closed.
Qed.

(** *** The object span *)

(** Behind the opening brace the star runs to the end of the text and
    comes back to the last closing brace. *)
Lemma star_any_close s1 :
  match star_class any_unit s1 close_then_rest with
  | Some (cap, rest) =>
      cap = None
      /\ exists m, s1 = m ++ close_brace :: rest /\ ~ In close_brace rest
  | None => ~ In close_brace s1
  end.
Proof.
  induction s1 as [|c r IH]; [intros []|].
  cbn [star_class]. change (any_unit c) with true. cbv iota.
  destruct (star_class any_unit r close_then_rest) as [[cap rest]|].
  - destruct IH as (-> & m & -> & Hn). simpl. split; [reflexivity|].
    exists (c :: m). split; [reflexivity | exact Hn].
  - unfold or_else, close_then_rest.
    change (strip_prefix (lit "}") (c :: r))
      with (if (125 =? c)%N then Some r else None).
    destruct (N.eqb_spec 125 c) as [<-|Hne].
    + split; [reflexivity|]. exists []. split; [reflexivity | exact IH].
    + intros [H|H]; [now apply Hne | now apply IH].
Qed.

Lemma match_here_object n s :
  match_here n re_object s
  = match s with
    | c :: s1 =>
        if (123 =? c)%N then star_class any_unit s1 close_then_rest else None
    | [] => None
    end.
Proof.
  unfold match_here, re_object. cbn [run].
  destruct s as [|c s1]; [reflexivity|].
  change (strip_prefix (lit "{") (c :: s1))
    with (if (123 =? c)%N then Some s1 else None).
  destruct (123 =? c)%N; reflexivity.
Qed.

Lemma through_last_close_at m rest :
  ~ In close_brace rest ->
  through_last_close (m ++ close_brace :: rest) = Some (m ++ [close_brace]).
Proof.
  intros Hn. unfold through_last_close.
  rewrite rev_app_distr. simpl rev. rewrite <- app_assoc. simpl app.
  rewrite drop_while_app_stop.
  - simpl. now rewrite rev_involutive.
  - apply forallb_forall. intros x Hx. apply in_rev in Hx.
    destruct (N.eqb_spec x close_brace) as [->|]; [contradiction | reflexivity].
  - reflexivity.
Qed.

Lemma match_json_span_no_close s :
  ~ In close_brace s -> match_json_span s = None.
Proof.
  intros Hn. destruct (match_json_span s) as [j|] eqn:E; [|reflexivity].
  apply match_json_span_Some in E as (a & m & b & -> & -> & _).
  exfalso. apply Hn. apply in_or_app. right. apply in_or_app. left.
  right. apply in_or_app. right. now left.
Qed.

Lemma re_object_in n s : match_first_in n re_object s = match_json_span s.
Proof.
  induction s as [|c s IH]; [reflexivity|].
  rewrite match_first_in_cons, match_here_object.
  destruct (N.eqb_spec 123 c) as [<-|Hne].
  - pose proof (star_any_close s) as H.
    destruct (star_class any_unit s close_then_rest) as [[cap rest]|].
    + destruct H as (-> & m & -> & Hn).
      unfold match_json_span. cbn [from_first_open].
      change (123 =? open_brace)%N with true. cbv iota.
      rewrite (through_last_close_at m rest Hn). f_equal.
      match goal with
      | |- firstn ?k _ = _ =>
          replace k with (S (List.length (m ++ [close_brace])))
      end.
      2:{ cbn [List.length]. rewrite !length_app. cbn [List.length]. lia. }
      cbn [firstn]. f_equal.
      change (m ++ close_brace :: rest) with (m ++ [close_brace] ++ rest).
      rewrite app_assoc, firstn_app, firstn_all, Nat.sub_diag. simpl.
      now rewrite app_nil_r.
    + rewrite IH, (match_json_span_no_close _ H).
      unfold match_json_span. cbn [from_first_open].
      change (123 =? open_brace)%N with true. cbv iota.
      destruct (through_last_close s) as [body|] eqn:E; [|reflexivity].
      apply through_last_close_Some in E as (m & b & -> & -> & _).
      exfalso. apply H. apply in_or_app. left. apply in_or_app. right. now left.
  - rewrite IH. unfold match_json_span. cbn [from_first_open].
    destruct (N.eqb_spec c open_brace) as [->|]; [now elim Hne | reflexivity].
Qed.

(** The match taken from [cleanText] runs from its first opening brace to
    its last closing brace. *)
Lemma jsonMatch_scan s : jsonMatch s = match_json_span s.
Proof. apply re_object_in. Qed.

(** *** The unit patterns *)

Lemma digit_not_dot c : is_digit c = true -> (c =? 46)%N = false.
Proof.
  intros H. destruct (N.eqb_spec c 46) as [->|]; [discriminate | reflexivity].
Qed.

Section Number.
Variable A : Type.
Variable n : nat.
Variable kf : JsString.t -> option A.
Hypothesis kf_digit : forall c r, is_digit c = true -> kf (c :: r) = None.
Hypothesis kf_dot : forall r, kf (46%N :: r) = None.

Lemma star_digit_kf s : star_class is_digit s kf = kf (drop_while is_digit s).
Proof. apply star_class_det. exact kf_digit. Qed.

(** The optional dot and the digits behind it, where the first digits
    end. *)
Lemma run_fraction s cap :
  stops is_digit s ->
  run n (Seq (Opt 46%N) (Star is_digit)) s cap (fun s' _ => kf s')
  = after_digits kf s.
Proof.
  intros Hs. cbn [run]. unfold after_digits.
  destruct s as [|c r].
  - reflexivity.
  - destruct (N.eqb_spec c 46) as [->|Hne].
    + rewrite !star_digit_kf. simpl. rewrite kf_dot.
      destruct (kf (drop_while is_digit r)); reflexivity.
    + rewrite star_digit_kf. now rewrite drop_while_stopped.
Qed.

(** The same two items tried inside the first digits, after the star has
    given some back: the second star takes them again. *)
Lemma run_fraction_inside c r cap :
  is_digit c = true ->
  run n (Seq (Opt 46%N) (Star is_digit)) (c :: r) cap (fun s' _ => kf s')
  = kf (drop_while is_digit (c :: r)).
Proof.
  intros Hc. cbn [run]. rewrite (digit_not_dot _ Hc). apply star_digit_kf.
Qed.

Lemma run_number s cap :
  run n re_number s cap (fun s' _ => kf s')
  = if is_nil (take_while is_digit s) then None
    else after_digits kf (drop_while is_digit s).
Proof.
  unfold re_number.
  change (run n (Seq (Plus is_digit) (Seq (Opt 46%N) (Star is_digit))) s cap
            (fun s' _ => kf s'))
    with (match s with
          | c :: s1 =>
              if is_digit c
              then star_class is_digit s1
                     (fun s' => run n (Seq (Opt 46%N) (Star is_digit)) s' cap
                                    (fun s'' _ => kf s''))
              else None
          | [] => None
          end).
  destruct s as [|c s1]; [reflexivity|].
  simpl take_while. simpl drop_while.
  destruct (is_digit c) eqn:Hc; [|reflexivity].
  simpl is_nil.
  pose proof (drop_while_stops is_digit s1) as Hstop.
  pose proof (run_fraction _ cap Hstop) as Hg.
  destruct (after_digits kf (drop_while is_digit s1)) as [x|] eqn:E.
  - apply star_class_first. exact Hg.
  - apply star_class_backoff; [exact Hg|].
    intros [|d x] Hx Hall; [congruence|].
    simpl in Hall. apply andb_true_iff in Hall as [Hd Hall].
    change ((d :: x) ++ drop_while is_digit s1)
      with (d :: x ++ drop_while is_digit s1).
    rewrite (@run_fraction_inside d _ cap Hd).
    change (d :: x ++ drop_while is_digit s1)
      with ((d :: x) ++ drop_while is_digit s1).
    rewrite drop_while_app_all by (simpl; now rewrite Hd, Hall).
    rewrite (drop_while_stopped _ _ Hstop).
    unfold after_digits in E.
    destruct (drop_while is_digit s1) as [|e r]; [exact E|].
    destruct (N.eqb_spec e 46) as [->|]; [apply kf_dot | exact E].
Qed.

End Number.

Lemma not_m_no_unit c r :
  (109 =? c)%N = false -> strip_prefix (lit "ms") (c :: r) = None.
Proof.
  intros H.
  change (strip_prefix (lit "ms") (c :: r))
    with (if (109 =? c)%N then strip_prefix (lit "s") r else None).
  now rewrite H.
Qed.

Lemma digit_not_m c : is_digit c = true -> (109 =? c)%N = false.
Proof.
  intros H. destruct (N.eqb_spec 109 c) as [<-|]; [discriminate | reflexivity].
Qed.

(** A unit pattern matches at the head of a text exactly where the scan
    does, with the same capture and the same rest. *)
Lemma match_here_ms n key s :
  match_here n (re_ms key) s
  = match match_field_ms key s with
    | Some (num, rest) => Some (Some num, rest)
    | None => None
    end.
Proof.
  unfold match_here, re_ms, match_field_ms.
  change (run n (Seq (Lit key) ?R) s None ?k)
    with (match strip_prefix key s with
          | Some s' => run n R s' None k
          | None => None
          end).
  destruct (strip_prefix key s) as [s1|]; [|reflexivity].
  change (run n (Seq (Star is_whitespace) ?R) s1 None ?k)
    with (star_class is_whitespace s1 (fun s' => run n R s' None k)).
  rewrite star_class_det.
  2:{ intros c r Hc. unfold re_number.
      change (run n (Seq (Group (Seq (Plus is_digit) ?R)) ?L) (c :: r) None ?k)
        with (if is_digit c
              then star_class is_digit r
                     (fun s' => run n R s' None
                        (fun s'' _ =>
                           run n L s''
                             (Some (firstn (List.length (c :: r)
                                            - List.length s'') (c :: r))) k))
              else None).
      destruct (is_digit c) eqn:Hd; [|reflexivity].
      apply digit_not_whitespace in Hd. congruence. }
  set (r0 := drop_while is_whitespace s1).
  set (kf := fun s' : JsString.t =>
               match strip_prefix (lit "ms") s' with
               | Some s'' =>
                   Some (Some (firstn (List.length r0 - List.length s') r0),
                         s'')
               | None => None
               end).
  change (run n re_number r0 None (fun s' _ => kf s')
          = match match_number_ms s1 with
            | Some (num, rest) => Some (Some num, rest)
            | None => None
            end).
  rewrite run_number.
  2:{ intros c r Hc. unfold kf.
      now rewrite not_m_no_unit by now apply digit_not_m. }
  2:{ intros r. unfold kf. now rewrite not_m_no_unit by reflexivity. }
  unfold match_number_ms. fold r0.
  destruct (is_nil (take_while is_digit r0)); [reflexivity|].
  pose proof (take_drop_while is_digit r0) as Hr0.
  unfold after_digits.
  destruct (drop_while is_digit r0) as [|c r2] eqn:E1.
  - unfold kf. reflexivity.
  - destruct (c =? 46)%N eqn:Hdot.
    + apply N.eqb_eq in Hdot. subst c. unfold kf.
      destruct (strip_prefix (lit "ms") (drop_while is_digit r2)) as [rest|];
        [|reflexivity].
      do 3 f_equal.
      pose proof (take_drop_while is_digit r2) as Hr2.
      rewrite <- Hr0 at 1 2. rewrite <- Hr2 at 1 3.
      change (take_while is_digit r0
              ++ 46%N :: take_while is_digit r2 ++ drop_while is_digit r2)
        with (take_while is_digit r0
              ++ (lit "." ++ take_while is_digit r2)
              ++ drop_while is_digit r2).
      rewrite app_assoc. apply firstn_prefix.
    + unfold kf.
      destruct (strip_prefix (lit "ms") (c :: r2)) as [rest|]; [|reflexivity].
      do 3 f_equal. rewrite <- Hr0 at 1 2. apply firstn_prefix.
Qed.

(** A match of a unit pattern is never empty. *)
Lemma match_field_ms_shorter key s num rest :
  match_field_ms key s = Some (num, rest) ->
  List.length rest < List.length s.
Proof.
  unfold match_field_ms.
  destruct (strip_prefix key s) as [s1|] eqn:E; [|discriminate].
  apply strip_prefix_Some in E. subst s. intros H.
  assert (Hs1 : List.length rest < List.length s1).
  { unfold match_number_ms in H.
    set (r0 := drop_while is_whitespace s1) in *.
    assert (H0 : List.length r0 <= List.length s1) by apply drop_while_length.
    pose proof (drop_while_length is_digit r0) as H1.
    destruct (is_nil (take_while is_digit r0)); [discriminate|].
    destruct (drop_while is_digit r0) as [|c r2] eqn:E1.
    - discriminate.
    - destruct (c =? 46)%N.
      + pose proof (drop_while_length is_digit r2) as H2.
        destruct (strip_prefix (lit "ms") (drop_while is_digit r2))
          as [x|] eqn:E2; [|discriminate].
        injection H as _ <-. apply strip_prefix_Some in E2.
        rewrite E2 in H2. rewrite length_app in H2. simpl in H1, H2. lia.
      + destruct (strip_prefix (lit "ms") (c :: r2)) as [x|] eqn:E2;
          [|discriminate].
        injection H as _ <-. apply strip_prefix_Some in E2.
        rewrite E2 in H1. rewrite length_app in H1. simpl in H1. lia. }
  rewrite length_app. lia.
Qed.

Lemma re_ms_from n key skip s :
  replace_global_from n (re_ms key) (ms_template key) skip s
  = strip_ms_from key skip s.
Proof.
  revert skip. induction s as [|c r IH]; intros skip.
  - cbn [replace_global_from strip_ms_from]. rewrite match_here_ms.
    destruct (match_field_ms key []) as [[num rest]|] eqn:E; [|reflexivity].
    apply match_field_ms_shorter in E. simpl in E. lia.
  - cbn [replace_global_from strip_ms_from].
    destruct skip as [|k]; [|apply IH].
    rewrite match_here_ms.
    destruct (match_field_ms key (c :: r)) as [[num rest]|] eqn:E.
    + apply match_field_ms_shorter in E.
      destruct (Nat.eqb_spec (List.length rest) (List.length (c :: r)));
        [lia|].
      rewrite IH. unfold ms_template, expand. simpl.
      rewrite app_nil_r, <- !app_assoc. reflexivity.
    + now rewrite IH.
Qed.

Lemma re_ms_closed key s :
  replace_global (re_ms key) (ms_template key) s = strip_ms key s.
Proof. apply re_ms_from. Qed.

(** *** The entity patterns *)

Lemma re_lit_from n pat rep skip s :
  pat <> [] ->
  replace_global_from n (Lit pat) [Text rep] skip s
  = replace_all_from pat rep skip s.
Proof.
  intros Hpat. revert skip. induction s as [|c r IH]; intros skip.
  - cbn [replace_global_from replace_all_from]. unfold match_here. cbn [run].
    destruct pat; [congruence | reflexivity].
  - cbn [replace_global_from replace_all_from].
    destruct skip as [|k]; [|apply IH].
    unfold match_here. cbn [run].
    destruct (strip_prefix pat (c :: r)) as [aft|] eqn:E.
    + apply strip_prefix_Some in E.
      assert (Hlen : List.length (c :: r) = List.length pat + List.length aft).
      { rewrite E. apply length_app. }
      assert (0 < List.length pat) by (destruct pat; [congruence | simpl; lia]).
      destruct (Nat.eqb_spec (List.length aft) (List.length (c :: r))); [lia|].
      rewrite IH. unfold expand. simpl. rewrite app_nil_r.
      simpl in Hlen. do 2 f_equal. lia.
    + now rewrite IH.
Qed.

Lemma re_lit_closed pat rep s :
  pat <> [] ->
  replace_global (Lit pat) [Text rep] s = replace_all pat rep s.
Proof. intros H. now apply re_lit_from. Qed.

(** *** The steps together *)

(** The variable [jsonStr] after its five replacements. *)
Lemma jsonStr_scan m : jsonStr m = repair m.
Proof.
  unfold jsonStr, repair. cbv zeta.
  rewrite !re_ms_closed, !re_lit_closed by discriminate. reflexivity.
Qed.

Lemma extracted_json_scan s :
  extracted_json s
  = match match_json_span (strip_fences (trim s)) with
    | Some j => Json.parse (repair j)
    | None => None
    end.
Proof.
  unfold extracted_json. rewrite jsonMatch_scan, cleanText_scan.
  destruct (match_json_span _) as [j|]; [|reflexivity].
  now rewrite jsonStr_scan.
Qed.

(** The [try] block computes what its scans compute. *)
Lemma extractJSON_try_scan text : extractJSON_try text = extractJSON_scan text.
Proof.
  destruct text; try reflexivity.
  unfold extractJSON_try, extractJSON_scan.
  rewrite jsonMatch_scan, cleanText_scan.
  destruct (match_json_span _) as [j|]; [|reflexivity].
  now rewrite jsonStr_scan.
Qed.

End RegexFacts.

(** ** Own properties *)

Module PropFacts.
Import JsString JsStringFacts JsValue.

Lemma has_own_true ps k : has_own ps k = true <-> exists v, get_own ps k = Some v.
Proof.
  unfold has_own. destruct (get_own ps k); split; try eauto; try discriminate.
  intros [v H]. discriminate.
Qed.

Lemma get_own_replace_same ps k v :
  has_own ps k = true -> get_own (replace_own ps k v) k = Some v.
Proof.
  unfold has_own. induction ps as [|[k' v'] r IH]; simpl; [discriminate|].
  destruct (JsString.eqb k' k) eqn:E; simpl; rewrite E; auto.
Qed.

Lemma get_own_replace_other ps k k' v :
  k <> k' -> get_own (replace_own ps k v) k' = get_own ps k'.
Proof.
  intros Hne. induction ps as [|[k0 v0] r IH]; simpl; [reflexivity|].
  destruct (JsString.eqb k0 k) eqn:E; simpl.
  - apply eqb_eq in E. subst k0.
    apply eqb_neq in Hne. now rewrite Hne.
  - now rewrite IH.
Qed.

(** Assigning a property its current value changes nothing. *)
Lemma replace_own_same ps k v :
  get_own ps k = Some v -> replace_own ps k v = ps.
Proof.
  induction ps as [|[k' v'] r IH]; simpl; [reflexivity|].
  destruct (JsString.eqb k' k) eqn:E.
  - intros H; injection H as ->. reflexivity.
  - intros H. now rewrite IH.
Qed.

Lemma obj_set_existing ps k v :
  has_own ps k = true -> obj_set ps k v = replace_own ps k v.
Proof. unfold obj_set. now intros ->. Qed.

Lemma obj_set_same ps k v : get_own ps k = Some v -> obj_set ps k v = ps.
Proof.
  intros H. rewrite obj_set_existing.
  - now apply replace_own_same.
  - apply has_own_true. eauto.
Qed.

Lemma get_own_obj_set_existing ps k v :
  has_own ps k = true -> get_own (obj_set ps k v) k = Some v.
Proof.
  intros H. rewrite obj_set_existing by exact H.
  now apply get_own_replace_same.
Qed.

Lemma get_own_obj_set_existing_other ps k k' v :
  has_own ps k = true -> k <> k' ->
  get_own (obj_set ps k v) k' = get_own ps k'.
Proof.
  intros H Hne. rewrite obj_set_existing by exact H.
  now apply get_own_replace_other.
Qed.

End PropFacts.

(** ** Numbers *)

Module NumberFacts.

Lemma SFcompare_antisym x y c :
  SFcompare x y = Some c -> SFcompare y x = Some (CompOpp c).
Proof.
  destruct x as [sx|sx| |sx mx ex], y as [sy|sy| |sy my ey]; simpl;
    try discriminate;
    try (intros H; injection H as <-);
    try (destruct sx; reflexivity);
    try (destruct sy; reflexivity);
    try (destruct sx, sy; reflexivity).
  pose proof (Pos.compare_cont_antisym mx my Eq) as H. simpl in H.
  destruct sx, sy; try reflexivity;
    rewrite (Z.compare_antisym ex ey);
    destruct (ex ?= ey)%Z; simpl; try reflexivity.
  - exact (f_equal Some (f_equal CompOpp (eq_sym H))).
  - exact (f_equal Some (eq_sym H)).
Qed.

(** [b <= a] excludes [a < b]. *)
Lemma leb_not_lessThan a b :
  SFleb b a = true -> JsNumber.lessThan a b = Some false.
Proof.
  unfold SFleb, JsNumber.lessThan.
  destruct (SFcompare b a) as [c|] eqn:E; [|discriminate].
  rewrite (SFcompare_antisym _ _ E).
  destruct c; simpl; try reflexivity; discriminate.
Qed.

(** [a >= 0] as the handler's comparison computes it. *)
Lemma not_lessThan_leb a b :
  JsNumber.lessThan a b = Some false -> SFleb b a = true.
Proof.
  unfold SFleb, JsNumber.lessThan.
  destruct (SFcompare a b) as [c|] eqn:E; [|discriminate].
  rewrite (SFcompare_antisym _ _ E).
  destruct c; simpl; try reflexivity; discriminate.
Qed.

Lemma lessThan_ltb a b :
  JsNumber.lessThan a b = Some true <-> SFltb a b = true.
Proof.
  unfold SFltb, JsNumber.lessThan.
  destruct (SFcompare a b) as [[]|]; split; congruence.
Qed.

End NumberFacts.

(** ** The segment filter *)

Module FilterFacts.
Import JsString JsStringFacts JsValue JsValue.Notations JsOps Server Scan Views.
Import PropFacts.

Lemma isValid_true_iff seg :
  isValid seg = Normal true <-> passes_validity seg.
Proof.
  unfold isValid, passes_validity. split.
  - destruct (get_prop seg (lit "start")) as [start|] eqn:E1; simpl;
      [|discriminate].
    destruct (isNaN start) as [[|]|] eqn:E2; simpl; try discriminate.
    destruct (get_prop seg (lit "end")) as [end_|] eqn:E3; simpl;
      [|discriminate].
    destruct (isNaN end_) as [[|]|] eqn:E4; simpl; try discriminate.
    destruct (get_prop seg (lit "text")) as [text|] eqn:E5; simpl;
      [|discriminate].
    destruct (is_string text) eqn:E6; simpl; try discriminate.
    destruct (ge start (VNum JsNumber.zero)) as [[|]|] eqn:E7; simpl;
      try discriminate.
    intros E8. exists start, end_, text. repeat split; assumption.
  - intros (start & end_ & text & -> & -> & -> & H1 & H2 & H3 & H4 & H5).
    simpl. rewrite H1. simpl. rewrite H2. simpl. rewrite H3. simpl.
    rewrite H4. simpl. exact H5.
Qed.


Lemma coerce_field_object ps k :
  coerce_field (VObj ps) k = Normal (VObj (coerce_props ps k)).
Proof.
  unfold coerce_field, coerce_props. simpl.
  destruct (get_own ps k) as [[]|]; reflexivity.
Qed.

(** On an object, the callback is the test applied to the coerced
    segment. *)
Lemma check_segment_object ps :
  check_segment (VObj ps)
  = (ok <- isValid (coerce_segment (VObj ps)) ;;
     Normal (coerce_segment (VObj ps), ok)).
Proof.
  unfold check_segment. rewrite coerce_field_object. simpl.
  rewrite coerce_field_object. reflexivity.
Qed.

Lemma check_segment_kept seg seg' :
  check_segment seg = Normal (seg', true) -> isValid seg' = Normal true.
Proof.
  unfold check_segment.
  destruct (coerce_field seg (lit "start")) as [s1|]; simpl; [|discriminate].
  destruct (coerce_field s1 (lit "end")) as [s2|]; simpl; [|discriminate].
  destruct (isValid s2) as [ok|] eqn:E; simpl; [|discriminate].
  intros H; injection H as <- ->. exact E.
Qed.

(** Every kept segment comes from an element of the array, as the callback
    left it when it accepted it. *)
Lemma filter_segments_provenance l kept :
  filter_segments l = Normal kept ->
  forall seg, In seg kept ->
    exists seg0, In seg0 l /\ check_segment seg0 = Normal (seg, true).
Proof.
  revert kept. induction l as [|x l IH]; simpl; intros kept.
  - intros H; injection H as <-. intros ? [].
  - destruct (check_segment x) as [[x' ok]|] eqn:E; simpl; [|discriminate].
    destruct (filter_segments l) as [k|]; simpl; [|discriminate].
    intros H; injection H as <-. intros seg Hin.
    destruct ok; simpl in Hin.
    + destruct Hin as [<-|Hin].
      * exists x. split; [now left | exact E].
      * destruct (IH _ eq_refl _ Hin) as (seg0 & H0 & H1).
        exists seg0. split; [now right | exact H1].
    + destruct (IH _ eq_refl _ Hin) as (seg0 & H0 & H1).
      exists seg0. split; [now right | exact H1].
Qed.

Lemma filter_segments_valid l kept :
  filter_segments l = Normal kept ->
  Forall (fun seg => isValid seg = Normal true) kept.
Proof.
  intros H. apply Forall_forall. intros seg Hin.
  destruct (filter_segments_provenance _ H _ Hin) as (seg0 & _ & Hc).
  exact (check_segment_kept _ Hc).
Qed.



(** An element that is neither an object nor [null] is dropped on its
    own. *)
Lemma check_segment_primitive x :
  is_object x = false -> x <> VNull -> x <> VUndefined ->
  check_segment x = Normal (x, false).
Proof.
  destruct x; simpl; intros; try congruence; reflexivity.
Qed.

End FilterFacts.

(** ** extractJSON *)

Module ExtractFacts.
Import JsString JsStringFacts JsValue JsValue.Notations JsOps Server Scan Views RegexFacts.
Import PropFacts NumberFacts FilterFacts Samples SpanFacts DataModel.

Lemma extractJSON_string s :
  extractJSON (VStr s)
  = match extracted_json s with
    | None => empty_result
    | Some parsed =>
        try_catch
          (adSegments <- get_prop parsed (lit "adSegments") ;;
           match adSegments with
           | VArr l =>
               kept <- filter_segments l ;;
               set_prop parsed (lit "adSegments") (VArr kept)
           | _ => Normal empty_result
           end)
          empty_result
    end.
Proof.
  unfold extractJSON. rewrite extractJSON_try_scan, extracted_json_scan.
  unfold extractJSON_scan.
  destruct (match_json_span _); [|reflexivity].
  destruct (Json.parse _); reflexivity.
Qed.

Lemma extractJSON_not_string text :
  is_string text = false -> extractJSON text = empty_result.
Proof. destruct text; simpl; intros; try discriminate; reflexivity. Qed.

(** Only an object has an array under [adSegments]. *)
Lemma get_prop_adSegments_array parsed l :
  get_prop parsed (lit "adSegments") = Normal (VArr l) ->
  exists ps, parsed = VObj ps /\ get_own ps (lit "adSegments") = Some (VArr l).
Proof.
  destruct parsed as [| | | | |?|ps]; simpl; try discriminate.
  intros H. exists ps. split; [reflexivity|].
  destruct (get_own ps _); [congruence | discriminate].
Qed.

(** The two ways out of [extractJSON]: the fresh empty result, or the
    parsed object with its [adSegments] replaced by the kept segments. *)
Lemma extractJSON_cases text :
  extractJSON text = empty_result
  \/ exists s ps l kept,
       text = VStr s
       /\ extracted_json s = Some (VObj ps)
       /\ get_own ps (lit "adSegments") = Some (VArr l)
       /\ filter_segments l = Normal kept
       /\ extractJSON text = VObj (obj_set ps (lit "adSegments") (VArr kept)).
Proof.
  destruct (is_string text) eqn:Hs;
    [|left; now apply extractJSON_not_string].
  destruct text as [| | | |s| |]; try discriminate.
  rewrite extractJSON_string.
  destruct (extracted_json s) as [parsed|] eqn:E; [|now left].
  destruct (get_prop parsed (lit "adSegments")) as [[| | | | |l|]|] eqn:G;
    simpl; try (now left).
  destruct (get_prop_adSegments_array _ G) as (ps & -> & Hps).
  destruct (filter_segments l) as [kept|] eqn:F; simpl; [|now left].
  right. exists s, ps, l, kept. repeat split; auto.
Qed.

Lemma extractJSON_success s parsed l kept :
  extracted_json s = Some parsed ->
  get_prop parsed (lit "adSegments") = Normal (VArr l) ->
  filter_segments l = Normal kept ->
  exists ps, parsed = VObj ps
    /\ extractJSON (VStr s) = VObj (obj_set ps (lit "adSegments") (VArr kept))
    /\ segments_of (extractJSON (VStr s)) = kept.
Proof.
  intros E G F. rewrite extractJSON_string, E, G. simpl. rewrite F. simpl.
  destruct (get_prop_adSegments_array _ G) as (ps & -> & Hps).
  exists ps. split; [reflexivity|]. split; [reflexivity|].
  unfold segments_of. simpl.
  rewrite get_own_obj_set_existing; [reflexivity|].
  apply has_own_true. eauto.
Qed.


(** *** What the filter keeps *)

Lemma coerce_props_get_same ps k v :
  get_own (coerce_props ps k) k = Some v -> is_string v = false.
Proof.
  unfold coerce_props.
  destruct (get_own ps k) as [[| | | |str| |]|] eqn:E; rewrite ?E;
    try (intros H; injection H as <-; reflexivity); try discriminate.
  rewrite get_own_obj_set_existing by (apply has_own_true; eauto).
  intros H; injection H as <-; reflexivity.
Qed.

Lemma coerce_props_get_other ps k k' :
  k <> k' -> get_own (coerce_props ps k) k' = get_own ps k'.
Proof.
  intros Hne. unfold coerce_props.
  destruct (get_own ps k) as [[| | | |str| |]|] eqn:E; try reflexivity.
  apply get_own_obj_set_existing_other; [|exact Hne].
  apply has_own_true. eauto.
Qed.

Lemma start_neq_end : lit "end" <> lit "start".
Proof. discriminate. Qed.

(** After the two assignments neither [start] nor [end] is a string. *)
Lemma check_segment_not_string seg0 seg ok :
  check_segment seg0 = Normal (seg, ok) ->
  (forall v, get_prop seg (lit "start") = Normal v -> is_string v = false)
  /\ (forall v, get_prop seg (lit "end") = Normal v -> is_string v = false).
Proof.
  destruct seg0 as [| | | | | |ps];
    try (intros H; discriminate H);
    try (intros H; injection H as <- _; split; intros v Hv;
         injection Hv as <-; reflexivity).
  rewrite check_segment_object.
  destruct (isValid _); simpl; [|discriminate].
  intros H; injection H as <- _. simpl. split; intros v Hv.
  - destruct (get_own _ (lit "start")) as [x|] eqn:G.
    + injection Hv as <-.
      rewrite coerce_props_get_other in G by exact start_neq_end.
      exact (coerce_props_get_same _ _ G).
    + injection Hv as <-. reflexivity.
  - destruct (get_own _ (lit "end")) as [x|] eqn:G.
    + injection Hv as <-. exact (coerce_props_get_same _ _ G).
    + injection Hv as <-. reflexivity.
Qed.

(** A kept segment comes out of the callback unchanged when given to it
    again. *)
Lemma check_segment_again seg0 seg :
  check_segment seg0 = Normal (seg, true) ->
  check_segment seg = Normal (seg, true).
Proof.
  intros H.
  destruct (check_segment_not_string _ H) as [Hs He].
  pose proof (check_segment_kept _ H) as Hv.
  assert (Hc : forall k, (forall v, get_prop seg k = Normal v ->
                                    is_string v = false) ->
                         (exists v, get_prop seg k = Normal v) ->
                         coerce_field seg k = Normal seg).
  { intros k Hk [v Hg]. unfold coerce_field. rewrite Hg. simpl.
    specialize (Hk _ Hg). destruct v; try reflexivity. discriminate. }
  apply isValid_true_iff in Hv as Hp.
  destruct Hp as (st & en & tx & G1 & G2 & _).
  unfold check_segment.
  rewrite (Hc _ Hs) by eauto. simpl.
  rewrite (Hc _ He) by eauto. simpl.
  rewrite Hv. reflexivity.
Qed.

Lemma filter_segments_again l kept :
  filter_segments l = Normal kept -> filter_segments kept = Normal kept.
Proof.
  intros H.
  assert (Hall : Forall (fun seg => check_segment seg = Normal (seg, true)) kept).
  { apply Forall_forall. intros seg Hin.
    destruct (filter_segments_provenance _ H _ Hin) as (seg0 & _ & Hc).
    exact (check_segment_again _ Hc). }
  clear H. induction Hall as [|x r Hx _ IH]; simpl; [reflexivity|].
  rewrite Hx. simpl. rewrite IH. reflexivity.
Qed.

Lemma segments_of_obj_set ps l kept :
  get_own ps (lit "adSegments") = Some (VArr l) ->
  segments_of (VObj (obj_set ps (lit "adSegments") (VArr kept))) = kept.
Proof.
  intros G. unfold segments_of. simpl.
  rewrite get_own_obj_set_existing; [reflexivity|].
  apply has_own_true. eauto.
Qed.

Lemma ge_zero_number a :
  ge (VNum a) (VNum JsNumber.zero) = Normal true ->
  SFleb JsNumber.zero a = true.
Proof.
  unfold ge. simpl. intros H. apply not_lessThan_leb.
  destruct (JsNumber.lessThan a JsNumber.zero) as [[|]|];
    try reflexivity; discriminate.
Qed.

Lemma gt_numbers a b :
  gt (VNum b) (VNum a) = Normal true <-> SFltb a b = true.
Proof.
  unfold gt. simpl. rewrite <- lessThan_ltb.
  destruct (JsNumber.lessThan a b) as [[|]|]; split; congruence.
Qed.




(** C3 (amended). Every segment of the result has passed the validity
    test: its [text] is a string (the empty string included), neither
    [start] nor [end] is a string any more, and when [start] and [end] are
    numbers, [0 <= start < end].  A segment that fails the test is dropped,
    not repaired: each segment returned is an element of the parsed array
    exactly as the filter callback left it when it accepted it. *)
Theorem kept_segments_invariant (text : value) seg :
  In seg (segments_of (extractJSON text)) ->
  passes_validity seg
  /\ (exists t, get_prop seg (lit "text") = Normal (VStr t))
  /\ (forall v, get_prop seg (lit "start") = Normal v -> is_string v = false)
  /\ (forall v, get_prop seg (lit "end") = Normal v -> is_string v = false)
  /\ (forall a b,
        get_prop seg (lit "start") = Normal (VNum a) ->
        get_prop seg (lit "end") = Normal (VNum b) ->
        SFleb JsNumber.zero a = true /\ SFltb a b = true)
  /\ (exists s parsed l seg0,
        text = VStr s
        /\ extracted_json s = Some parsed
        /\ get_prop parsed (lit "adSegments") = Normal (VArr l)
        /\ In seg0 l
        /\ check_segment seg0 = Normal (seg, true)).
Proof.
  destruct (extractJSON_cases text)
    as [->|(s & ps & l & kept & -> & E & G & F & ->)]; [intros []|].
  rewrite (segments_of_obj_set _ _ G). intros Hin.
  destruct (filter_segments_provenance _ F _ Hin) as (seg0 & Hin0 & Hc).
  pose proof (check_segment_kept _ Hc) as Hv.
  apply isValid_true_iff in Hv as Hp.
  destruct (check_segment_not_string _ Hc) as [Hs He].
  split; [exact Hp|].
  destruct Hp as (st & en & tx & G1 & G2 & G3 & _ & _ & Htx & Hge & Hgt).
  split; [|split; [exact Hs|split; [exact He|split]]].
  - destruct tx; try discriminate. eauto.
  - intros a b Ha Hb. rewrite Ha in G1. rewrite Hb in G2.
    injection G1 as <-. injection G2 as <-.
    split; [now apply ge_zero_number | now apply gt_numbers].
  - exists s, (VObj ps), l, seg0. repeat split; auto.
    simpl. now rewrite G.
Qed.

Lemma kept_segments_invariant_witness :
  In good_segment (segments_of (extractJSON (VStr reply_with_number)))
  /\ passes_validity good_segment.
Proof.
  assert (H : In good_segment
                (segments_of (extractJSON (VStr reply_with_number))))
    by (vm_compute; left; reflexivity).
  split; [exact H|].
  exact (proj1 (@kept_segments_invariant (VStr reply_with_number) _ H)).
Defined.

(** The claim C3 as stated fails: a segment whose [text] is the empty
    string is kept. *)
Lemma kept_segments_invariant_counterexample :
  In (seg (num 1 0) (num 2 0) (VStr []))
     (segments_of (extractJSON (VStr reply_empty_text)))
  /\ get_prop (seg (num 1 0) (num 2 0) (VStr [])) (lit "text")
     = Normal (VStr []).
Proof. split; [vm_compute; left; reflexivity | reflexivity]. Qed.




(** *** The shape of the result *)











End ExtractFacts.

(** ** The textual repairs *)

Module RepairFacts.
Import JsString JsStringFacts JsValue JsOps Regex Server Scan Views Samples.
Import RegexFacts.






Lemma contains_tail pat c r :
  contains pat (c :: r) = false -> contains pat r = false.
Proof.
  change (contains pat (c :: r))
    with (match strip_prefix pat (c :: r) with
          | Some _ => true
          | None => contains pat r
          end).
  destruct (strip_prefix pat (c :: r)); [discriminate | auto].
Qed.

Lemma contains_app_r pat a b : contains pat b = true -> contains pat (a ++ b) = true.
Proof.
  intros H. induction a as [|c a IH]; [exact H|].
  simpl. destruct (strip_prefix pat (c :: a ++ b)); [reflexivity | exact IH].
Qed.

Lemma contains_here pat b : contains pat (pat ++ b) = true.
Proof.
  destruct (pat ++ b) eqn:E; simpl; rewrite <- E, strip_prefix_app;
    reflexivity.
Qed.

Lemma match_number_ms_unit s num rest :
  match_number_ms s = Some (num, rest) -> contains (lit "ms") s = true.
Proof.
  unfold match_number_ms.
  set (r0 := drop_while is_whitespace s).
  assert (H0 : s = take_while is_whitespace s ++ r0)
    by (symmetry; apply take_drop_while).
  set (r1 := drop_while is_digit r0).
  assert (H1 : r0 = take_while is_digit r0 ++ r1)
    by (symmetry; apply take_drop_while).
  destruct (is_nil (take_while is_digit r0)); [discriminate|].
  intros H. rewrite H0. apply contains_app_r.
  rewrite H1. apply contains_app_r.
  assert (Hplain : forall x, strip_prefix (lit "ms") r1 = Some x ->
                             contains (lit "ms") r1 = true).
  { intros x E. apply strip_prefix_Some in E. rewrite E.
    apply contains_here. }
  destruct r1 as [|c r2].
  - discriminate.
  - destruct (c =? 46)%N.
    + destruct (strip_prefix (lit "ms") (drop_while is_digit r2)) as [x|] eqn:E;
        [|discriminate].
      apply strip_prefix_Some in E.
      change (c :: r2) with ([c] ++ r2). apply contains_app_r.
      rewrite <- (take_drop_while is_digit r2). apply contains_app_r.
      rewrite E. apply contains_here.
    + destruct (strip_prefix (lit "ms") (c :: r2)) as [x|] eqn:E;
        [|discriminate].
      exact (Hplain _ eq_refl).
Qed.

(** A text in which the unit does not occur is left alone. *)
Lemma strip_ms_no_unit key s :
  contains (lit "ms") s = false -> strip_ms key s = s.
Proof.
  unfold strip_ms. induction s as [|c r IH]; [reflexivity|].
  intros H. cbn [strip_ms_from]. unfold match_field_ms.
  destruct (strip_prefix key (c :: r)) as [x|] eqn:E.
  - destruct (match_number_ms x) as [[num rest]|] eqn:M.
    + apply match_number_ms_unit in M. apply strip_prefix_Some in E.
      rewrite E, (contains_app_r _ key _ M) in H. discriminate.
    + rewrite IH; [reflexivity | exact (contains_tail _ _ _ H)].
  - rewrite IH; [reflexivity | exact (contains_tail _ _ _ H)].
Qed.

Lemma replace_all_no_match pat rep s :
  contains pat s = false -> replace_all pat rep s = s.
Proof.
  unfold replace_all. induction s as [|c r IH]; [reflexivity|].
  intros H. cbn [replace_all_from].
  change (contains pat (c :: r))
    with (match strip_prefix pat (c :: r) with
          | Some _ => true
          | None => contains pat r
          end) in H.
  destruct (strip_prefix pat (c :: r)); [discriminate|].
  now rewrite IH.
Qed.

Lemma contains_longer p x s :
  contains p s = false -> contains (p ++ x) s = false.
Proof.
  induction s as [|c r IH].
  - simpl. destruct (strip_prefix p []) eqn:E; [discriminate|]. intros _.
    destruct (strip_prefix (p ++ x) []) eqn:E2; [|reflexivity].
    apply strip_prefix_Some in E2. rewrite <- app_assoc in E2.
    rewrite E2, strip_prefix_app in E. discriminate.
  - change (contains p (c :: r))
      with (match strip_prefix p (c :: r) with
            | Some _ => true
            | None => contains p r
            end).
    change (contains (p ++ x) (c :: r))
      with (match strip_prefix (p ++ x) (c :: r) with
            | Some _ => true
            | None => contains (p ++ x) r
            end).
    destruct (strip_prefix p (c :: r)) eqn:E; [discriminate|]. intros H.
    destruct (strip_prefix (p ++ x) (c :: r)) eqn:E2; [|now apply IH].
    apply strip_prefix_Some in E2. rewrite <- app_assoc in E2.
    rewrite E2, strip_prefix_app in E. discriminate.
Qed.

(** A text without the unit and without an escaped ampersand is left as it
    is by the five repairs. *)
Lemma repair_fixed s :
  contains (lit "ms") s = false ->
  contains (lit "&amp;") s = false ->
  repair s = s.
Proof.
  intros Hms Hamp. unfold repair.
  rewrite (strip_ms_no_unit start_key _ Hms), (strip_ms_no_unit end_key _ Hms).
  rewrite (replace_all_no_match (lit "&amp;#39;") _ _
             (contains_longer (lit "&amp;") (lit "#39;") _ Hamp)).
  rewrite (replace_all_no_match (lit "&amp;quot;") _ _
             (contains_longer (lit "&amp;") (lit "quot;") _ Hamp)).
  exact (replace_all_no_match _ _ _ Hamp).
Qed.



End RepairFacts.

(** ** The request handler *)

Module HandlerFacts.
Import JsString JsStringFacts JsValue JsValue.Notations JsOps Server Scan Views.
Import Samples.

Lemma searchParams_get_absent params name :
  ~ In name (map fst params) -> searchParams_get params name = VNull.
Proof.
  induction params as [|[k v] r IH]; simpl; [reflexivity|].
  intros H. destruct (JsString.eqb k name) eqn:E.
  - apply eqb_eq in E. exfalso. apply H. now left.
  - apply IH. intros Hin. apply H. now right.
Qed.

(** The value found is that of the first pair with the name. *)
Lemma searchParams_get_first params name :
  (~ In name (map fst params) /\ searchParams_get params name = VNull)
  \/ (exists pre v post,
         params = pre ++ (name, v) :: post
         /\ ~ In name (map fst pre)
         /\ searchParams_get params name = VStr v).
Proof.
  induction params as [|[k v] r IH]; simpl.
  - left. split; [intros [] | reflexivity].
  - destruct (JsString.eqb k name) eqn:E.
    + apply eqb_eq in E. subst k. right.
      exists [], v, r. repeat split. intros [].
    + apply eqb_neq in E.
      destruct IH as [[Hn Hg]|(pre & x & post & -> & Hn & Hg)].
      * left. split; [|exact Hg]. intros [H|H]; [congruence | auto].
      * right. exists ((k, v) :: pre), x, post. repeat split; [|exact Hg].
        intros [H|H]; [simpl in H; congruence | auto].
Qed.

(** [{ error: msg, transcript: [], adSegments: [] }], written out. *)
Local Abbreviation failure_body msg :=
  (VObj [(lit "error", VStr msg);
         (lit "transcript", VArr []);
         (lit "adSegments", VArr [])]).

Section WithCollaborators.

Variable URL_searchParams
  : value -> completion (list (JsString.t * JsString.t)).
Variable fetchTranscript : value -> completion value.
Variable generateText : JsString.t -> completion value.

Local Abbreviation getVideoId := (getVideoId URL_searchParams).
Local Abbreviation analyze_transcript := (analyze_transcript generateText).
Local Abbreviation fetch_and_analyze :=
  (fetch_and_analyze fetchTranscript generateText).
Local Abbreviation extract_and_fetch :=
  (extract_and_fetch URL_searchParams fetchTranscript generateText).
Local Abbreviation analyze_video_try :=
  (analyze_video_try URL_searchParams fetchTranscript generateText).
Local Abbreviation analyze_video :=
  (analyze_video URL_searchParams fetchTranscript generateText).

Lemma analyze_transcript_status t r :
  analyze_transcript t = Normal r -> status r = 200%Z.
Proof.
  unfold Server.analyze_transcript.
  destruct (transcript_text t); simpl; [|discriminate].
  destruct (generateText _); simpl; [|discriminate].
  destruct (get_prop _ _); simpl; [|discriminate].
  intros H; injection H as <-. reflexivity.
Qed.

Lemma fetch_and_analyze_status v r :
  fetch_and_analyze v = Normal r -> status r = 404%Z \/ status r = 200%Z.
Proof.
  unfold Server.fetch_and_analyze.
  destruct (fetchTranscript v) as [t|e].
  - destruct (truthy t); simpl.
    + destruct (get_prop t (lit "length")) as [len|]; simpl; [|discriminate].
      destruct (is_zero len).
      * intros H; injection H as <-. now left.
      * intros H. right. exact (analyze_transcript_status _ H).
    + intros H; injection H as <-. now left.
  - intros H; injection H as <-. now left.
Qed.

(** Once the extraction step is entered, the answer is never the
    missing-URL response. *)
Lemma extract_and_fetch_not_required v :
  extract_and_fetch v <> Normal response_url_required.
Proof.
  unfold Server.extract_and_fetch.
  destruct (truthy (getVideoId v)); simpl.
  - intros H. destruct (fetch_and_analyze_status _ H) as [H1|H1];
      discriminate H1.
  - discriminate.
Qed.

(** C7. For every URL string given to the extractor: when the URL
    constructor throws, when the parsed URL has no [v] parameter, or
    when the value of [v] is the empty string, the extraction yields a
    falsy value and the handler answers 400 with the body
    [{ error: 'Invalid YouTube URL', transcript: [], adSegments: [] }];
    otherwise [getVideoId] returns the value of the first [v] parameter
    and the handler goes on to the transcript fetch with it. *)
Theorem video_id_extraction (url : JsString.t) :
  (forall e,
      URL_searchParams (VStr url) = Throw e ->
      getVideoId (VStr url) = VNull
      /\ extract_and_fetch (VStr url)
         = Normal {| status := 400;
                     body := failure_body (lit "Invalid YouTube URL") |})
  /\ (forall params,
        URL_searchParams (VStr url) = Normal params ->
        getVideoId (VStr url) = searchParams_get params (lit "v")
        /\ (~ In (lit "v") (map fst params) ->
            getVideoId (VStr url) = VNull
            /\ extract_and_fetch (VStr url)
               = Normal {| status := 400;
                           body := failure_body (lit "Invalid YouTube URL") |})
        /\ (forall pre v post,
              params = pre ++ (lit "v", v) :: post ->
              ~ In (lit "v") (map fst pre) ->
              getVideoId (VStr url) = VStr v
              /\ (v = [] ->
                  extract_and_fetch (VStr url)
                  = Normal {| status := 400;
                              body := failure_body
                                        (lit "Invalid YouTube URL") |})
              /\ (v <> [] ->
                  extract_and_fetch (VStr url) = fetch_and_analyze (VStr v))))
  /\ (forall req_body,
        get_prop req_body (lit "videoUrl") = Normal (VStr url) ->
        url <> [] ->
        analyze_video_try req_body = extract_and_fetch (VStr url)
        /\ (truthy (getVideoId (VStr url)) = false ->
            analyze_video req_body
            = {| status := 400;
                 body := failure_body (lit "Invalid YouTube URL") |})
        /\ (analyze_video req_body
            = {| status := 400;
                 body := failure_body (lit "Invalid YouTube URL") |}
            -> truthy (getVideoId (VStr url)) = false)).
Proof.
  split; [|split].
  - intros e H. unfold Server.extract_and_fetch, Server.getVideoId.
    rewrite H. split; reflexivity.
  - intros params H.
    assert (Hid : getVideoId (VStr url) = searchParams_get params (lit "v")).
    { unfold Server.getVideoId. now rewrite H. }
    split; [exact Hid|]. split.
    + intros Hn. unfold Server.extract_and_fetch. rewrite Hid.
      rewrite (searchParams_get_absent _ _ Hn). split; reflexivity.
    + intros pre v post -> Hn.
      assert (Hv : searchParams_get (pre ++ (lit "v", v) :: post) (lit "v")
                   = VStr v).
      { clear H Hid. induction pre as [|[k x] pre IH]; simpl.
        - reflexivity.
        - destruct (JsString.eqb k (lit "v")) eqn:E.
          + apply eqb_eq in E. exfalso. apply Hn. now left.
          + apply IH. intros Hin. apply Hn. now right. }
      unfold Server.extract_and_fetch. rewrite Hid, Hv.
      split; [reflexivity|]. split.
      * intros ->. reflexivity.
      * intros Hne. destruct v; [congruence | reflexivity].
  - intros req_body H Hne.
    assert (Htry : analyze_video_try req_body = extract_and_fetch (VStr url)).
    { unfold Server.analyze_video_try. rewrite H.
      simpl. destruct url; [congruence | reflexivity]. }
    split; [exact Htry|].
    unfold Server.analyze_video.
    change (Server.analyze_video_try URL_searchParams fetchTranscript
              generateText req_body)
      with (analyze_video_try req_body).
    rewrite Htry. unfold Server.extract_and_fetch. split.
    + intros Hf. rewrite Hf. reflexivity.
    + destruct (truthy (getVideoId (VStr url))) eqn:Hv; [|reflexivity].
      cbn [negb].
      change (Server.fetch_and_analyze fetchTranscript generateText
                (getVideoId (VStr url)))
        with (fetch_and_analyze (getVideoId (VStr url))).
      destruct (fetch_and_analyze (getVideoId (VStr url))) as [r|e] eqn:Hr.
      * cbn [try_catch]. intros ->.
        destruct (fetch_and_analyze_status _ Hr) as [H1|H1]; discriminate H1.
      * cbn [try_catch]. discriminate.
Qed.

(** C8 (amended). For every request body that is an object or an array
    (what the JSON body parser delivers), the handler enters the
    video-id extraction if and only if the body's [videoUrl] is truthy,
    that is any value other than a missing one, [null], [false], a zero,
    NaN and the empty string; a non-empty string is one such value, and
    so are a non-zero number, [true], an array and an object.  Otherwise
    the handler answers 400 with the missing-URL body. *)
Theorem body_validation (req_body : value) :
  req_body <> VUndefined -> req_body <> VNull ->
  exists videoUrl,
    get_prop req_body (lit "videoUrl") = Normal videoUrl
    /\ (truthy videoUrl = true ->
        analyze_video_try req_body = extract_and_fetch videoUrl)
    /\ (truthy videoUrl = false ->
        analyze_video_try req_body = Normal response_url_required
        /\ analyze_video req_body = response_url_required)
    /\ (analyze_video_try req_body = Normal response_url_required
        <-> truthy videoUrl = false)
    /\ (forall s, videoUrl = VStr s -> s <> [] -> truthy videoUrl = true).
Proof.
  intros Hu Hn.
  assert (Hg : exists videoUrl,
             get_prop req_body (lit "videoUrl") = Normal videoUrl).
  { destruct req_body; try congruence; simpl; eauto. }
  destruct Hg as [videoUrl Hg]. exists videoUrl.
  assert (Ht : truthy videoUrl = true ->
               analyze_video_try req_body = extract_and_fetch videoUrl).
  { intros H. unfold Server.analyze_video_try. rewrite Hg. simpl.
    now rewrite H. }
  assert (Hf : truthy videoUrl = false ->
               analyze_video_try req_body = Normal response_url_required).
  { intros H. unfold Server.analyze_video_try. rewrite Hg. simpl.
    now rewrite H. }
  split; [exact Hg|]. split; [exact Ht|]. split; [|split].
  - intros H. split; [now apply Hf|].
    unfold Server.analyze_video.
    change (Server.analyze_video_try URL_searchParams fetchTranscript
              generateText req_body)
      with (analyze_video_try req_body).
    now rewrite (Hf H).
  - split; [|exact Hf].
    intros H. destruct (truthy videoUrl) eqn:E; [|reflexivity].
    rewrite (Ht eq_refl) in H.
    exfalso. exact (extract_and_fetch_not_required _ H).
  - intros s -> Hs. destruct s; [congruence | reflexivity].
Qed.

(** C9. Once the video id is in hand, every error thrown by the
    transcript fetch ends the request with 404 and the
    captions-unavailable message, and every missing result ([undefined],
    [null]) or empty result (length zero) ends it with 404 and the
    no-transcript message.  Both bodies are of the form
    [{ error, transcript: [], adSegments: [] }] with a fixed [error]
    string, and the answer to a failed fetch is never the answer to an
    empty transcript. *)
Theorem transcript_failures (videoId : value) :
  (forall e,
      fetchTranscript videoId = Throw e ->
      fetch_and_analyze videoId
      = Normal {| status := 404;
                  body := failure_body
                    (lit "Could not fetch video transcript. The video might not have captions available.") |})
  /\ (forall t,
        fetchTranscript videoId = Normal t ->
        truthy t = false ->
        fetch_and_analyze videoId
        = Normal {| status := 404;
                    body := failure_body
                      (lit "No transcript available for this video") |})
  /\ (forall t len,
        fetchTranscript videoId = Normal t ->
        get_prop t (lit "length") = Normal len ->
        is_zero len = true ->
        fetch_and_analyze videoId
        = Normal {| status := 404;
                    body := failure_body
                      (lit "No transcript available for this video") |})
  /\ (fetchTranscript videoId = Normal (VArr []) ->
      fetch_and_analyze videoId
      = Normal {| status := 404;
                  body := failure_body
                    (lit "No transcript available for this video") |})
  /\ (forall req_body videoUrl r,
        get_prop req_body (lit "videoUrl") = Normal videoUrl ->
        truthy videoUrl = true ->
        getVideoId videoUrl = videoId ->
        truthy videoId = true ->
        fetch_and_analyze videoId = Normal r ->
        analyze_video req_body = r)
  /\ (forall F G videoId' e,
        fetchTranscript videoId = Throw e ->
        (exists t, F videoId' = Normal t
                   /\ (truthy t = false
                       \/ exists len, get_prop t (lit "length") = Normal len
                                      /\ is_zero len = true)) ->
        exists r r',
          fetch_and_analyze videoId = Normal r
          /\ Server.fetch_and_analyze F G videoId' = Normal r'
          /\ status r = 404%Z /\ status r' = 404%Z
          /\ get_prop (body r) (lit "error")
             <> get_prop (body r') (lit "error")
          /\ get_prop (body r) (lit "transcript") = Normal (VArr [])
          /\ get_prop (body r') (lit "transcript") = Normal (VArr [])
          /\ get_prop (body r) (lit "adSegments") = Normal (VArr [])
          /\ get_prop (body r') (lit "adSegments") = Normal (VArr [])).
Proof.
  assert (H3 : forall F G id t len,
             F id = Normal t ->
             get_prop t (lit "length") = Normal len ->
             is_zero len = true ->
             Server.fetch_and_analyze F G id
             = Normal {| status := 404;
                         body := failure_body
                           (lit "No transcript available for this video") |}).
  { intros F G id t len H Hl Hz. unfold Server.fetch_and_analyze. rewrite H.
    destruct (truthy t); simpl; [|reflexivity].
    rewrite Hl. simpl. now rewrite Hz. }
  assert (H2 : forall F G id t,
             F id = Normal t ->
             truthy t = false ->
             Server.fetch_and_analyze F G id
             = Normal {| status := 404;
                         body := failure_body
                           (lit "No transcript available for this video") |}).
  { intros F G id t H Ht. unfold Server.fetch_and_analyze. rewrite H, Ht.
    reflexivity. }
  assert (H1 : forall e,
             fetchTranscript videoId = Throw e ->
             fetch_and_analyze videoId
             = Normal {| status := 404;
                         body := failure_body
                           (lit "Could not fetch video transcript. The video might not have captions available.") |}).
  { intros e H. unfold Server.fetch_and_analyze. now rewrite H. }
  split; [exact H1|].
  split; [intros t; apply H2|].
  split; [intros t len; apply H3|].
  split; [|split].
  - intros H. apply (H3 _ _ _ _ _ H eq_refl). reflexivity.
  - intros req_body videoUrl r Hg Ht Hid Hv Hr.
    unfold Server.analyze_video, Server.analyze_video_try.
    rewrite Hg. simpl. rewrite Ht. simpl.
    unfold Server.extract_and_fetch. rewrite Hid, Hv. simpl.
    change (Server.fetch_and_analyze fetchTranscript generateText videoId)
      with (fetch_and_analyze videoId).
    now rewrite Hr.
  - intros F G videoId' e He (t & Ht & Hmiss).
    eexists. eexists. split; [exact (H1 _ He)|]. split.
    + destruct Hmiss as [Hf|(len & Hl & Hz)];
        [exact (H2 F G _ _ Ht Hf) | exact (H3 F G _ _ _ Ht Hl Hz)].
    + repeat split; try reflexivity. vm_compute. discriminate.
Qed.

End WithCollaborators.

Lemma video_id_extraction_witness :
  toy_URL (VStr watch_url)
    = Normal ([] ++ (lit "v", lit "abc123") :: [(lit "t", lit "5")])
  /\ ~ In (lit "v") (map fst (@nil (JsString.t * JsString.t)))
  /\ lit "abc123" <> []
  /\ getVideoId toy_URL (VStr watch_url) = VStr (lit "abc123")
  /\ extract_and_fetch toy_URL no_captions no_answer (VStr watch_url)
     = fetch_and_analyze no_captions no_answer (VStr (lit "abc123"))
  /\ toy_URL (VStr (lit "not a url")) = Throw TypeError
  /\ extract_and_fetch toy_URL no_captions no_answer (VStr (lit "not a url"))
     = Normal {| status := 400;
                 body := failure_body (lit "Invalid YouTube URL") |}
  /\ analyze_video toy_URL no_captions no_answer
       (request (VStr (lit "not a url")))
     = {| status := 400; body := failure_body (lit "Invalid YouTube URL") |}.
Proof.
  assert (E : toy_URL (VStr watch_url)
              = Normal ([] ++ (lit "v", lit "abc123") :: [(lit "t", lit "5")]))
    by (vm_compute; reflexivity).
  assert (Hn : ~ In (lit "v") (map fst (@nil (JsString.t * JsString.t))))
    by (intros []).
  assert (Hne : lit "abc123" <> []) by discriminate.
  pose proof (proj2 (proj2 (proj1 (proj2
                (video_id_extraction toy_URL no_captions no_answer watch_url))
                _ E)) [] (lit "abc123") [(lit "t", lit "5")] eq_refl Hn)
    as (Hid & _ & Hgo).
  split; [exact E|]. split; [exact Hn|]. split; [exact Hne|].
  split; [exact Hid|]. split; [exact (Hgo Hne)|].
  split; [vm_compute; reflexivity|]. split.
  - apply (proj1 (video_id_extraction toy_URL no_captions no_answer
                    (lit "not a url")) TypeError).
    vm_compute. reflexivity.
  - apply (proj2 (proj2 (video_id_extraction toy_URL no_captions no_answer
                           (lit "not a url")))
             (request (VStr (lit "not a url")))).
    + reflexivity.
    + discriminate.
    + reflexivity.
Defined.

Lemma body_validation_witness :
  request (VStr watch_url) <> VUndefined
  /\ request (VStr watch_url) <> VNull
  /\ exists videoUrl,
       get_prop (request (VStr watch_url)) (lit "videoUrl") = Normal videoUrl
       /\ (truthy videoUrl = true ->
           analyze_video_try toy_URL no_captions no_answer
             (request (VStr watch_url))
           = extract_and_fetch toy_URL no_captions no_answer videoUrl).
Proof.
  assert (H1 : request (VStr watch_url) <> VUndefined) by discriminate.
  assert (H2 : request (VStr watch_url) <> VNull) by discriminate.
  split; [exact H1|]. split; [exact H2|].
  destruct (body_validation toy_URL no_captions no_answer H1 H2)
    as (videoUrl & Hg & Ht & _).
  exists videoUrl. split; [exact Hg | exact Ht].
Defined.

(** The claim C8 as stated fails: the body carries [videoUrl: 5], which is
    not a string, and the handler still enters the video-id extraction; the
    answer is the invalid-URL response, not the missing-URL one. *)
Lemma body_validation_counterexample :
  get_prop (request (num 5 0)) (lit "videoUrl") = Normal (num 5 0)
  /\ is_string (num 5 0) = false
  /\ analyze_video_try toy_URL no_captions no_answer (request (num 5 0))
     = extract_and_fetch toy_URL no_captions no_answer (num 5 0)
  /\ analyze_video toy_URL no_captions no_answer (request (num 5 0))
     = response_invalid_url
  /\ analyze_video toy_URL no_captions no_answer (request (num 5 0))
     <> response_url_required.
Proof.
  split; [reflexivity|]. split; [reflexivity|].
  split; [vm_compute; reflexivity|].
  split; [vm_compute; reflexivity|].
  vm_compute. discriminate.
Qed.

Lemma transcript_failures_witness :
  no_captions (VStr (lit "abc123")) = Throw ExternalError
  /\ fetch_and_analyze no_captions no_answer (VStr (lit "abc123"))
     = Normal {| status := 404;
                 body := failure_body
                   (lit "Could not fetch video transcript. The video might not have captions available.") |}
  /\ empty_transcript (VStr (lit "abc123")) = Normal (VArr [])
  /\ fetch_and_analyze empty_transcript no_answer (VStr (lit "abc123"))
     = Normal {| status := 404;
                 body := failure_body
                   (lit "No transcript available for this video") |}
  /\ analyze_video toy_URL no_captions no_answer (request (VStr watch_url))
     = {| status := 404;
          body := failure_body
            (lit "Could not fetch video transcript. The video might not have captions available.") |}.
Proof.
  pose proof (transcript_failures toy_URL no_captions no_answer
                (VStr (lit "abc123"))) as (Hthrow & _ & _ & _ & Hreq & _).
  pose proof (transcript_failures toy_URL empty_transcript no_answer
                (VStr (lit "abc123"))) as (_ & _ & _ & Hempty & _).
  split; [reflexivity|]. split; [exact (Hthrow _ eq_refl)|].
  split; [reflexivity|]. split; [exact (Hempty eq_refl)|].
  apply (Hreq (request (VStr watch_url)) (VStr watch_url)).
  - reflexivity.
  - reflexivity.
  - vm_compute. reflexivity.
  - reflexivity.
  - exact (Hthrow _ eq_refl).
Defined.

End HandlerFacts.

(** ** The serialization of a result *)

Module ResanitizeFacts.
Import JsString JsStringFacts JsValue JsValue.Notations JsOps Server Scan Views RegexFacts.
Import PropFacts FilterFacts ExtractFacts Samples.

(** The serialization of an object runs from a [{] to a [}]. *)
Lemma stringify_object_braced ps :
  exists x, Json.stringify (VObj ps) = Some (open_brace :: x ++ [close_brace]).
Proof. eexists. reflexivity. Qed.

Lemma trim_braced x :
  trim (open_brace :: x ++ [close_brace]) = open_brace :: x ++ [close_brace].
Proof.
  unfold trim. change (trimStart (open_brace :: x ++ [close_brace]))
    with (open_brace :: x ++ [close_brace]).
  unfold trimEnd.
  change (open_brace :: x ++ [close_brace])
    with ((open_brace :: x) ++ [close_brace]).
  rewrite rev_app_distr. simpl rev at 1.
  change (drop_while is_whitespace ([close_brace] ++ rev (open_brace :: x)))
    with ([close_brace] ++ rev (open_brace :: x)).
  rewrite rev_app_distr, rev_involutive. reflexivity.
Qed.

Lemma strip_fences_braced x :
  strip_fences (open_brace :: x ++ [close_brace])
  = open_brace :: x ++ [close_brace].
Proof.
  unfold strip_fences.
  change (strip_json_fence (open_brace :: x ++ [close_brace]))
    with (open_brace :: x ++ [close_brace]).
  change (strip_open_fence (open_brace :: x ++ [close_brace]))
    with (open_brace :: x ++ [close_brace]).
  unfold strip_close_fence, strip_suffix.
  change (open_brace :: x ++ [close_brace])
    with ((open_brace :: x) ++ [close_brace]).
  rewrite rev_app_distr. reflexivity.
Qed.

Lemma match_json_span_braced x :
  match_json_span (open_brace :: x ++ [close_brace])
  = Some (open_brace :: x ++ [close_brace]).
Proof.
  unfold match_json_span.
  change (from_first_open (open_brace :: x ++ [close_brace]))
    with (Some (open_brace :: x ++ [close_brace])).
  unfold through_last_close. rewrite rev_app_distr.
  change (drop_while (fun c => negb (c =? close_brace)%N)
            (rev [close_brace] ++ rev x))
    with (close_brace :: rev x).
  cbv iota beta.
  change (rev (close_brace :: rev x)) with (rev (rev x) ++ [close_brace]).
  now rewrite rev_involutive.
Qed.

Lemma extracted_json_braced x :
  extracted_json (open_brace :: x ++ [close_brace])
  = Json.parse (repair (open_brace :: x ++ [close_brace])).
Proof.
  rewrite extracted_json_scan.
  now rewrite trim_braced, strip_fences_braced, match_json_span_braced.
Qed.

(** The segments of a result pass the filter again, unchanged. *)
Lemma result_filter_stable text :
  exists ps segs,
    extractJSON text = VObj ps
    /\ get_own ps (lit "adSegments") = Some (VArr segs)
    /\ filter_segments segs = Normal segs.
Proof.
  destruct (extractJSON_cases text)
    as [->|(s & ps & l & kept & -> & E & G & F & ->)].
  - exists [(lit "adSegments", VArr [])], []. repeat split.
  - exists (obj_set ps (lit "adSegments") (VArr kept)), kept.
    split; [reflexivity|]. split.
    + apply get_own_obj_set_existing, has_own_true. eauto.
    + exact (filter_segments_again _ F).
Qed.

End ResanitizeFacts.

(** ** The fuel of the JSON parser *)

Module JsonFacts.
Import JsString JsStringFacts JsValue JsOps Json.

Lemma skip_ws_length s : List.length (skip_ws s) <= List.length s.
Proof. apply drop_while_length. Qed.

Lemma strip_prefix_length p s r :
  strip_prefix p s = Some r -> List.length r + List.length p = List.length s.
Proof.
  intros H. apply strip_prefix_Some in H. subst s.
  rewrite length_app. lia.
Qed.

Lemma parse_string_body_length s str rest :
  parse_string_body s = Some (str, rest) ->
  List.length rest < List.length s.
Proof.
  assert (Hgen : forall n s str rest,
             List.length s <= n ->
             parse_string_body s = Some (str, rest) ->
             List.length rest < List.length s);
    [|now apply (Hgen (List.length s))].
  clear s str rest.
  induction n as [|n IH]; intros s str rest Hle.
  - destruct s; [discriminate | simpl in Hle; lia].
  - destruct s as [|c r]; [discriminate|]. simpl in Hle.
    cbn [parse_string_body].
    destruct (c =? 34)%N.
    { intros H; injection H as _ <-. simpl. lia. }
    destruct (c =? 92)%N.
    { destruct r as [|e r1]; [discriminate|]. simpl in Hle.
      destruct (e =? 117)%N.
      - destruct r1 as [|a [|b [|c' [|d r2]]]]; try discriminate.
        destruct (forallb is_hex [a; b; c'; d]); [|discriminate].
        destruct (parse_string_body r2) as [[str' rest']|] eqn:E;
          [|discriminate].
        intros H; injection H as _ <-.
        assert (List.length rest' < List.length r2)
          by (apply (IH r2 str' rest'); [simpl in Hle; lia | exact E]).
        simpl. lia.
      - destruct (escape e); [|discriminate].
        destruct (parse_string_body r1) as [[str' rest']|] eqn:E;
          [|discriminate].
        intros H; injection H as _ <-.
        assert (List.length rest' < List.length r1)
          by (apply (IH r1 str' rest'); [lia | exact E]).
        simpl. lia. }
    destruct (c <? 32)%N; [discriminate|].
    destruct (parse_string_body r) as [[str' rest']|] eqn:E; [|discriminate].
    intros H; injection H as _ <-.
    assert (List.length rest' < List.length r)
      by (apply (IH r str' rest'); [lia | exact E]).
    simpl. lia.
Qed.

Lemma scan_sign_length s : List.length (snd (scan_sign s)) <= List.length s.
Proof.
  unfold scan_sign. destruct s as [|c r]; simpl; [lia|].
  destruct (c =? 45)%N; simpl; [lia|].
  destruct (c =? 43)%N; simpl; lia.
Qed.

Lemma scan_exponent_length s :
  List.length (snd (scan_exponent s)) <= List.length s.
Proof.
  unfold scan_exponent. destruct s as [|c r]; simpl; [lia|].
  destruct ((c =? 101) || (c =? 69))%N; simpl; [|lia].
  pose proof (scan_sign_length r) as Hs.
  destruct (scan_sign r) as [neg r1]. simpl in Hs.
  destruct (is_nil (take_while is_digit r1)); simpl; [lia|].
  pose proof (drop_while_length is_digit r1). lia.
Qed.

Lemma parse_number_length s x rest :
  parse_number s = Some (x, rest) -> List.length rest < List.length s.
Proof.
  unfold parse_number.
  set (sr := match s with
             | c :: r => if (c =? 45)%N then (true, r) else (false, s)
             | [] => (false, s)
             end).
  assert (Hr : List.length (snd sr) <= List.length s).
  { unfold sr. destruct s as [|c r]; simpl; [lia|].
    destruct (c =? 45)%N; simpl; lia. }
  destruct sr as [neg r]. simpl in Hr.
  destruct r as [|d more]; [discriminate|]. simpl in Hr.
  destruct (is_digit d) eqn:Hd; [|discriminate].
  set (p1 := if (d =? 48)%N then ([d], more)
             else (take_while is_digit (d :: more),
                   drop_while is_digit (d :: more))).
  assert (H1 : List.length (snd p1) <= List.length more).
  { unfold p1. destruct (d =? 48)%N; simpl; [lia|].
    rewrite Hd. apply drop_while_length. }
  destruct p1 as [ip r1]. simpl in H1.
  set (p2 := match r1 with
             | c :: r' =>
                 let fp := take_while is_digit r' in
                 if (c =? 46)%N && negb (is_nil fp)
                 then (fp, drop_while is_digit r')
                 else ([], r1)
             | [] => ([], r1)
             end).
  assert (H2 : List.length (snd p2) <= List.length r1).
  { unfold p2. destruct r1 as [|c r']; simpl; [lia|].
    destruct ((c =? 46)%N && negb (is_nil (take_while is_digit r')));
      simpl; [|lia].
    pose proof (drop_while_length is_digit r'). lia. }
  destruct p2 as [fp r2]. simpl in H2.
  pose proof (scan_exponent_length r2) as H3.
  destruct (scan_exponent r2) as [ex r3]. simpl in H3.
  intros H; injection H as _ <-. lia.
Qed.

Lemma parse_literal_length s v rest :
  parse_literal s = POk v rest -> List.length rest < List.length s.
Proof.
  unfold parse_literal.
  destruct (strip_prefix (lit "true") s) eqn:E1.
  { intros H; injection H as _ <-.
    apply strip_prefix_length in E1. simpl in E1. lia. }
  destruct (strip_prefix (lit "false") s) eqn:E2.
  { intros H; injection H as _ <-.
    apply strip_prefix_length in E2. simpl in E2. lia. }
  destruct (strip_prefix (lit "null") s) eqn:E3; [|discriminate].
  intros H; injection H as _ <-.
  apply strip_prefix_length in E3. simpl in E3. lia.
Qed.

Import Views.

Lemma consumes_error {A} s : consumes (@PSyntaxError A) s.
Proof. split; [discriminate | intros; discriminate]. Qed.

Lemma consumes_ok {A} (v : A) rest s :
  List.length rest < List.length s -> consumes (POk v rest) s.
Proof.
  intros H. split; [discriminate|].
  intros v' rest' E. injection E as _ <-. exact H.
Qed.

Lemma consumes_weaken {A} (r : presult A) s s' :
  consumes r s -> List.length s <= List.length s' -> consumes r s'.
Proof.
  intros [H1 H2] Hle. split; [exact H1|].
  intros v rest E. specialize (H2 _ _ E). lia.
Qed.

(** With fuel above twice the length of the text, the parser never stops
    for lack of fuel. *)
Lemma parse_fuel_ind fuel :
  (forall s, 2 * List.length s + 1 <= fuel ->
             consumes (parse_value fuel s) s)
  /\ (forall acc s, 2 * List.length s + 2 <= fuel ->
                    consumes (parse_elements fuel acc s) s)
  /\ (forall acc s, 2 * List.length s + 2 <= fuel ->
                    consumes (parse_members fuel acc s) s).
Proof.
  induction fuel as [|f (IHv & IHe & IHm)].
  { repeat split; intros; lia. }
  split; [|split].
  - intros s Hf. cbn [parse_value].
    pose proof (skip_ws_length s) as Hs.
    destruct (skip_ws s) as [|c r]; [apply consumes_error|].
    simpl in Hs.
    destruct (c =? 123)%N.
    { pose proof (skip_ws_length r) as Hr.
      destruct (skip_ws r) as [|c' r']; [apply consumes_error|].
      simpl in Hr.
      destruct (c' =? 125)%N; [apply consumes_ok; lia|].
      apply (consumes_weaken (s := r)); [apply IHm; lia | lia]. }
    destruct (c =? 91)%N.
    { pose proof (skip_ws_length r) as Hr.
      destruct (skip_ws r) as [|c' r']; [apply consumes_error|].
      simpl in Hr.
      destruct (c' =? 93)%N; [apply consumes_ok; lia|].
      apply (consumes_weaken (s := r)); [apply IHe; lia | lia]. }
    destruct (c =? 34)%N.
    { destruct (parse_string_body r) as [[str r']|] eqn:E;
        [|apply consumes_error].
      apply parse_string_body_length in E. apply consumes_ok. lia. }
    destruct ((c =? 45)%N || is_digit c).
    { destruct (parse_number (c :: r)) as [[x r']|] eqn:E;
        [|apply consumes_error].
      apply parse_number_length in E. simpl in E. apply consumes_ok. lia. }
    destruct (parse_literal (c :: r)) as [v r'| |] eqn:E.
    + apply parse_literal_length in E. simpl in E. apply consumes_ok. lia.
    + apply consumes_error.
    + unfold parse_literal in E.
      destruct (strip_prefix _ _); [discriminate|].
      destruct (strip_prefix _ _); [discriminate|].
      destruct (strip_prefix _ _); discriminate.
  - intros acc s Hf. cbn [parse_elements].
    destruct (IHv s ltac:(lia)) as [Hnf Hlen].
    destruct (parse_value f s) as [v r| |] eqn:E;
      [|apply consumes_error|congruence].
    specialize (Hlen _ _ eq_refl).
    pose proof (skip_ws_length r) as Hr.
    destruct (skip_ws r) as [|c r']; [apply consumes_error|].
    simpl in Hr.
    destruct (c =? 44)%N.
    { apply (consumes_weaken (s := r')); [apply IHe; lia | lia]. }
    destruct (c =? 93)%N; [apply consumes_ok; lia | apply consumes_error].
  - intros acc s Hf. cbn [parse_members].
    pose proof (skip_ws_length s) as Hs.
    destruct (skip_ws s) as [|q r]; [apply consumes_error|].
    simpl in Hs.
    destruct (q =? 34)%N; [|apply consumes_error].
    destruct (parse_string_body r) as [[key r1]|] eqn:E;
      [|apply consumes_error].
    apply parse_string_body_length in E.
    pose proof (skip_ws_length r1) as H1.
    destruct (skip_ws r1) as [|c r2]; [apply consumes_error|].
    simpl in H1.
    destruct (c =? 58)%N; [|apply consumes_error].
    destruct (IHv r2 ltac:(lia)) as [Hnf Hlen].
    destruct (parse_value f r2) as [v r3| |] eqn:E2;
      [|apply consumes_error|congruence].
    specialize (Hlen _ _ eq_refl).
    pose proof (skip_ws_length r3) as H3.
    destruct (skip_ws r3) as [|c' r4]; [apply consumes_error|].
    simpl in H3.
    destruct (c' =? 44)%N.
    { apply (consumes_weaken (s := r4)); [apply IHm; lia | lia]. }
    destruct (c' =? 125)%N; [apply consumes_ok; lia | apply consumes_error].
Qed.

(** [Json.parse] never fails for lack of fuel: [None] is a syntax
    error. *)
Lemma parse_fuel_enough s : parse_value (parse_fuel s) s <> POutOfFuel.
Proof.
  apply (proj1 (parse_fuel_ind (parse_fuel s))). unfold parse_fuel. lia.
Qed.

End JsonFacts.

(** ** Numbers that are not zero *)

Module LengthFacts.
Import JsString JsValue JsOps Server.

Lemma shr_1_half mrs :
  (0 <= shr_m mrs)%Z -> shr_m (shr_1 mrs) = (shr_m mrs / 2)%Z.
Proof.
  destruct mrs as [m r s]. simpl. intros Hm.
  destruct m as [|[p|p|]|p]; simpl; try reflexivity; try lia.
  - apply Z.div_unique with (r := 1%Z); lia.
  - apply Z.div_unique with (r := 0%Z); lia.
Qed.

(** Shifting a mantissa [n] places to the right divides it by [2^n]. *)
Lemma iter_shr_1 n : forall mrs,
  (0 <= shr_m mrs)%Z ->
  shr_m (iter_pos shr_1 n mrs) = (shr_m mrs / 2 ^ Zpos n)%Z.
Proof.
  induction n as [n IH|n IH|]; intros mrs Hm; cbn [iter_pos].
  - assert (H1 : (0 <= shr_m (shr_1 mrs))%Z).
    { rewrite shr_1_half by exact Hm. apply Z.div_pos; lia. }
    assert (H2 : (0 <= shr_m (iter_pos shr_1 n (shr_1 mrs)))%Z).
    { rewrite IH by exact H1. apply Z.div_pos; [exact H1 | lia]. }
    rewrite IH by exact H2. rewrite IH by exact H1.
    rewrite shr_1_half by exact Hm.
    rewrite !Z.div_div by lia. f_equal.
    rewrite Pos2Z.inj_xI, <- !Z.pow_add_r, <- Z.pow_succ_r by lia.
    f_equal. lia.
  - assert (H2 : (0 <= shr_m (iter_pos shr_1 n mrs))%Z).
    { rewrite IH by exact Hm. apply Z.div_pos; [exact Hm | lia]. }
    rewrite IH by exact H2. rewrite IH by exact Hm.
    rewrite !Z.div_div by lia. f_equal.
    rewrite Pos2Z.inj_xO, <- !Z.pow_add_r by lia. f_equal. lia.
  - rewrite shr_1_half by exact Hm. reflexivity.
Qed.

Lemma digits2_pos_pow p : (2 ^ (Zpos (digits2_pos p) - 1) <= Zpos p)%Z.
Proof.
  induction p as [p IH|p IH|]; cbn [digits2_pos].
  - rewrite Pos2Z.inj_succ.
    replace (Z.succ (Zpos (digits2_pos p)) - 1)%Z
      with (Z.succ (Zpos (digits2_pos p) - 1)) by lia.
    rewrite Z.pow_succ_r by lia. lia.
  - rewrite Pos2Z.inj_succ.
    replace (Z.succ (Zpos (digits2_pos p)) - 1)%Z
      with (Z.succ (Zpos (digits2_pos p) - 1)) by lia.
    rewrite Z.pow_succ_r by lia. lia.
  - simpl. lia.
Qed.

(** Above the least exponent, the shift to the format keeps a positive
    mantissa positive. *)
Lemma shr_fexp_positive m e l :
  (0 < m)%Z -> (-1074 <= e)%Z ->
  (0 < shr_m (fst (shr_fexp JsNumber.prec JsNumber.emax m e l)))%Z
  /\ (-1074 <= snd (shr_fexp JsNumber.prec JsNumber.emax m e l))%Z.
Proof.
  intros Hm He. unfold shr_fexp, shr.
  assert (Hrec : shr_m (shr_record_of_loc m l) = m).
  { destruct l as [|[]]; reflexivity. }
  destruct m as [|p|p]; try lia.
  destruct (fexp JsNumber.prec JsNumber.emax (Zdigits2 (Zpos p) + e) - e)%Z
    as [|k|k] eqn:En; cbn [fst snd]; rewrite ?Hrec; try (split; lia).
  unfold fexp, emin, JsNumber.prec, JsNumber.emax in En. cbn [Zdigits2] in En.
  pose proof (digits2_pos_pow p) as Hp.
  assert (Hk : (Zpos k = Zpos (digits2_pos p) - 53)%Z) by lia.
  split; [|lia].
  rewrite iter_shr_1 by (rewrite Hrec; lia). rewrite Hrec.
  apply Z.div_str_pos. split; [lia|].
  apply Z.le_trans with (2 ^ (Zpos (digits2_pos p) - 1))%Z; [|exact Hp].
  apply Z.pow_le_mono_r; lia.
Qed.

Lemma round_nearest_even_ge m l : (m <= round_nearest_even m l)%Z.
Proof.
  destruct l as [|[]]; simpl; try lia. destruct (Z.even m); lia.
Qed.

Lemma binary_round_aux_nonzero sx m e l s :
  (0 < m)%Z -> (-1074 <= e)%Z ->
  binary_round_aux JsNumber.prec JsNumber.emax sx m e l <> S754_zero s.
Proof.
  intros Hm He. unfold binary_round_aux.
  destruct (shr_fexp_positive l Hm He) as [H1 H2].
  destruct (shr_fexp JsNumber.prec JsNumber.emax m e l) as [mrs1 e1].
  cbn [fst snd] in H1, H2.
  pose proof (round_nearest_even_ge (shr_m mrs1) (loc_of_shr_record mrs1))
    as Hr.
  assert (Hm2 : (0 < round_nearest_even (shr_m mrs1)
                       (loc_of_shr_record mrs1))%Z) by lia.
  destruct (shr_fexp_positive loc_Exact Hm2 H2) as [H3 _].
  destruct (shr_fexp JsNumber.prec JsNumber.emax _ e1 loc_Exact)
    as [mrs2 e2].
  cbn [fst] in H3.
  destruct (shr_m mrs2) as [|q|q]; try lia.
  destruct (e2 <=? JsNumber.emax - JsNumber.prec)%Z; discriminate.
Qed.

(** A positive integer is not converted to zero. *)
Lemma of_N_nonzero p s : JsNumber.of_N (Npos p) <> S754_zero s.
Proof.
  unfold JsNumber.of_N, JsNumber.of_decimal, JsNumber.round_ratio.
  cbv zeta.
  set (k := Z.max 0 (55 + Z.log2 1 - Z.log2 (Zpos p))).
  assert (Hk : (0 <= k <= 55)%Z).
  { unfold k. pose proof (Z.log2_nonneg (Zpos p)).
    change (Z.log2 1) with 0%Z. lia. }
  apply binary_round_aux_nonzero; [|lia].
  rewrite Z.div_1_r. apply Z.mul_pos_pos; [lia|]. apply Z.pow_pos_nonneg; lia.
Qed.

(** [transcript.length === 0] is false for an array that has an
    element. *)
Lemma length_not_zero (x : value) l :
  exists len, get_prop (VArr (x :: l)) (lit "length") = Normal len
              /\ is_zero len = false.
Proof.
  eexists. split; [reflexivity|].
  cbn [List.length]. rewrite Nat2N.inj_succ.
  destruct (N.succ (N.of_nat (List.length l))) as [|p] eqn:E; [lia|].
  unfold is_zero.
  destruct (JsNumber.of_N (N.pos p)) eqn:E2; try reflexivity.
  exfalso. exact (@of_N_nonzero p s E2).
Qed.

End LengthFacts.

(** ** The route as a whole *)

Module RouteFacts.
Import JsString JsStringFacts JsValue JsValue.Notations JsOps Server Views.
Import Middleware Outcomes Samples Scenes PropFacts FilterFacts ExtractFacts.
Import LengthFacts.

(** [{ error: msg, transcript: [], adSegments: [] }], written out. *)
Local Abbreviation failure_body msg :=
  (VObj [(lit "error", VStr msg);
         (lit "transcript", VArr []);
         (lit "adSegments", VArr [])]).

Lemma ToString_primitive v :
  is_primitive v = true -> exists s, ToString v = Normal s.
Proof. destruct v; simpl; intros; try discriminate; eauto. Qed.

(** A line object always renders. *)
Lemma transcript_line_object t :
  line_object t -> exists s, transcript_line t = Normal s.
Proof.
  intros (ps & -> & Ho & Hx). unfold transcript_line. simpl.
  destruct (ToString_primitive
              (match get_own ps (lit "offset") with
               | Some x => x | None => VUndefined end)) as [o Eo].
  { destruct (get_own ps (lit "offset")); [now apply Ho | reflexivity]. }
  destruct (ToString_primitive
              (match get_own ps (lit "text") with
               | Some x => x | None => VUndefined end)) as [x Ex].
  { destruct (get_own ps (lit "text")); [now apply Hx | reflexivity]. }
  rewrite Eo. simpl. rewrite Ex. simpl. eauto.
Qed.

Lemma transcript_lines_objects l :
  Forall line_object l ->
  exists lines, transcript_lines l = Normal lines
                /\ List.length lines = List.length l.
Proof.
  induction 1 as [|t l Ht _ (lines & E & Hlen)]; simpl.
  - exists []. split; reflexivity.
  - destruct (transcript_line_object Ht) as [s ->]. simpl.
    rewrite E. simpl. exists (s :: lines). split; [reflexivity|].
    simpl. now rewrite Hlen.
Qed.

(** A [null] or [undefined] element makes the rendering throw. *)
Lemma transcript_lines_hole l :
  In VNull l \/ In VUndefined l -> exists e, transcript_lines l = Throw e.
Proof.
  induction l as [|t l IH]; simpl; [intros [[]|[]]|].
  intros [[->|H]|[->|H]]; try (exists TypeError; reflexivity).
  - destruct (transcript_line t); simpl; [|eauto].
    destruct (IH (or_introl H)) as [e ->]. simpl. eauto.
  - destruct (transcript_line t); simpl; [|eauto].
    destruct (IH (or_intror H)) as [e ->]. simpl. eauto.
Qed.

(** The result of [extractJSON] has an array of accepted segments under
    [adSegments]. *)
Lemma extractJSON_segments text :
  get_prop (extractJSON text) (lit "adSegments")
  = Normal (VArr (segments_of (extractJSON text)))
  /\ Forall (fun seg => isValid seg = Normal true)
       (segments_of (extractJSON text)).
Proof.
  unfold segments_of.
  destruct (extractJSON_cases text)
    as [->|(s & ps & l & kept & -> & E & G & F & ->)].
  - split; [reflexivity | constructor].
  - simpl.
    rewrite (get_own_obj_set_existing ps (lit "adSegments") (VArr kept))
      by (apply has_own_true; eauto).
    split; [reflexivity | exact (filter_segments_valid _ F)].
Qed.

(** The handler from the prompt on, step by step. *)
Lemma analyze_transcript_steps generateText transcript :
  analyze_transcript generateText transcript
  = match transcript_text transcript with
    | Throw e => Throw e
    | Normal text =>
        match generateText (prompt_head ++ text) with
        | Throw e => Throw e
        | Normal reply =>
            Normal {| status := 200;
                      body := VObj [(lit "transcript", transcript);
                                    (lit "adSegments",
                                     VArr (segments_of (extractJSON reply)))]
                   |}
        end
    end.
Proof.
  unfold analyze_transcript.
  destruct (transcript_text transcript) as [text|e]; [|reflexivity].
  cbn [bind].
  destruct (generateText (prompt_head ++ text)) as [reply|e]; [|reflexivity].
  cbn [bind]. now rewrite (proj1 (extractJSON_segments reply)).
Qed.

(** The six ways through the handler, with the collaborators each one
    consults. *)
Lemma route_cases URL_searchParams fetchTranscript req_body :
  ((exists e, get_prop req_body (lit "videoUrl") = Throw e)
   /\ forall U F G, analyze_video U F G req_body = response_unexpected)
  \/ ((exists videoUrl, get_prop req_body (lit "videoUrl") = Normal videoUrl
                        /\ truthy videoUrl = false)
      /\ forall U F G, analyze_video U F G req_body = response_url_required)
  \/ ((exists videoUrl, get_prop req_body (lit "videoUrl") = Normal videoUrl
                        /\ truthy videoUrl = true
                        /\ truthy (getVideoId URL_searchParams videoUrl)
                           = false)
      /\ forall F G,
           analyze_video URL_searchParams F G req_body = response_invalid_url)
  \/ (forall G,
        analyze_video URL_searchParams fetchTranscript G req_body
        = response_fetch_failed)
  \/ (forall G,
        analyze_video URL_searchParams fetchTranscript G req_body
        = response_no_transcript)
  \/ (exists transcript,
        transcript_in_hand URL_searchParams fetchTranscript req_body
          transcript
        /\ forall G,
             analyze_video URL_searchParams fetchTranscript G req_body
             = try_catch (analyze_transcript G transcript)
                 response_unexpected).
Proof.
  unfold analyze_video, analyze_video_try.
  destruct (get_prop req_body (lit "videoUrl")) as [videoUrl|e] eqn:E1.
  2:{ left. split; [eauto | reflexivity]. }
  right. simpl. destruct (truthy videoUrl) eqn:E2; simpl.
  2:{ left. split; [eauto | reflexivity]. }
  right. unfold extract_and_fetch.
  destruct (truthy (getVideoId URL_searchParams videoUrl)) eqn:E3; simpl.
  2:{ left. split; [eauto | reflexivity]. }
  right. unfold fetch_and_analyze.
  destruct (fetchTranscript (getVideoId URL_searchParams videoUrl))
    as [transcript|e] eqn:E4.
  2:{ left. reflexivity. }
  right. destruct (truthy transcript) eqn:E5; simpl.
  2:{ left. reflexivity. }
  destruct (get_prop transcript (lit "length")) as [len|e] eqn:E6; simpl.
  2:{ destruct transcript; simpl in E5, E6; discriminate. }
  destruct (is_zero len) eqn:E7.
  - left. reflexivity.
  - right. exists transcript. split; [|reflexivity].
    exists videoUrl, len. repeat split; assumption.
Qed.

(** With the transcript in hand, the answer is that of the steps from the
    prompt on, or the catch-all response. *)
Lemma in_hand_response URL_searchParams fetchTranscript req_body transcript :
  transcript_in_hand URL_searchParams fetchTranscript req_body transcript ->
  forall G,
    analyze_video URL_searchParams fetchTranscript G req_body
    = try_catch (analyze_transcript G transcript) response_unexpected.
Proof.
  intros (videoUrl & len & E1 & E2 & E3 & E4 & E5 & E6 & E7) G.
  unfold analyze_video, analyze_video_try. rewrite E1. cbn [bind].
  rewrite E2. cbn [negb]. unfold extract_and_fetch. rewrite E3. cbn [negb].
  unfold fetch_and_analyze. rewrite E4, E5. cbn [negb]. rewrite E6.
  cbn [bind]. now rewrite E7.
Qed.

Lemma analyze_transcript_outcome G transcript :
  truthy transcript = true ->
  success_response (try_catch (analyze_transcript G transcript)
                      response_unexpected)
  \/ try_catch (analyze_transcript G transcript) response_unexpected
     = response_unexpected.
Proof.
  intros Ht. rewrite analyze_transcript_steps.
  destruct (transcript_text transcript) as [text|e]; [|now right].
  destruct (G (prompt_head ++ text)) as [reply|e]; [|now right].
  left. split; [reflexivity|].
  exists transcript, (segments_of (extractJSON reply)).
  split; [reflexivity|]. split; [exact Ht|].
  exact (proj2 (extractJSON_segments reply)).
Qed.

Section WithCollaborators.

Variable URL_searchParams
  : value -> completion (list (JsString.t * JsString.t)).
Variable fetchTranscript : value -> completion value.
Variable generateText : JsString.t -> completion value.

Local Abbreviation getVideoId := (getVideoId URL_searchParams).
Local Abbreviation analyze_video :=
  (analyze_video URL_searchParams fetchTranscript generateText).
Local Abbreviation transcript_in_hand :=
  (transcript_in_hand URL_searchParams fetchTranscript).

(** X10. Every answer of the route has one of four shapes, whatever the
    request and whatever the collaborators do: a 200 whose body has
    exactly the two keys [transcript] (a truthy value) and [adSegments]
    (an array holding only segments that passed the validity test); a 400
    or a 404 with a body [{ error, transcript: [], adSegments: [] }] whose
    [error] is one of two fixed strings each; or the 500 with the
    catch-all message and the same two empty arrays.  The error-handling
    middleware answers 500 with a body of the same three keys, and its
    message tells its answer from every answer of the route. *)
Theorem every_answer_shaped (req_body : value) :
  ((status (analyze_video req_body) = 200%Z
    /\ exists transcript segs,
         body (analyze_video req_body)
         = VObj [(lit "transcript", transcript);
                 (lit "adSegments", VArr segs)]
         /\ truthy transcript = true
         /\ Forall (fun seg => isValid seg = Normal true) segs)
   \/ analyze_video req_body
      = {| status := 400;
           body := failure_body (lit "Video URL is required") |}
   \/ analyze_video req_body
      = {| status := 400;
           body := failure_body (lit "Invalid YouTube URL") |}
   \/ analyze_video req_body
      = {| status := 404;
           body := failure_body
             (lit "Could not fetch video transcript. The video might not have captions available.") |}
   \/ analyze_video req_body
      = {| status := 404;
           body := failure_body
             (lit "No transcript available for this video") |}
   \/ analyze_video req_body
      = {| status := 500;
           body := failure_body
             (lit "An unexpected error occurred while analyzing the video") |})
  /\ (forall err,
        error_middleware err
        = {| status := 500;
             body := failure_body (lit "Internal Server Error") |}
        /\ error_middleware err <> analyze_video req_body).
Proof.
  assert (Hshape :
    (status (analyze_video req_body) = 200%Z
     /\ exists transcript segs,
          body (analyze_video req_body)
          = VObj [(lit "transcript", transcript);
                  (lit "adSegments", VArr segs)]
          /\ truthy transcript = true
          /\ Forall (fun seg => isValid seg = Normal true) segs)
    \/ In (analyze_video req_body)
         [response_url_required; response_invalid_url;
          response_fetch_failed; response_no_transcript;
          response_unexpected]).
  { destruct (route_cases URL_searchParams fetchTranscript req_body)
      as [[_ H]|[[_ H]|[[_ H]|[H|[H|(t & Hin & H)]]]]]; rewrite H;
      try (right; simpl; auto 6; fail).
    destruct Hin as (u & len & _ & _ & _ & _ & Ht & _).
    destruct (analyze_transcript_outcome generateText _ Ht) as [Hs| ->].
    - left. exact Hs.
    - right. simpl. auto 6. }
  split.
  - destruct Hshape as [H|[H|[H|[H|[H|[H|[]]]]]]]; [now left|..];
      rewrite <- H; auto 7.
  - intros err. split; [reflexivity|].
    destruct Hshape as [[H _]|[H|[H|[H|[H|[H|[]]]]]]].
    + intros E. rewrite <- E in H. discriminate H.
    + rewrite <- H. vm_compute. discriminate.
    + rewrite <- H. vm_compute. discriminate.
    + rewrite <- H. vm_compute. discriminate.
    + rewrite <- H. vm_compute. discriminate.
    + rewrite <- H. vm_compute. discriminate.
Qed.

(** X9. The answer is 500 exactly when the body has no readable [videoUrl]
    (it is [undefined] or [null]), or when, the transcript in hand, its
    rendering throws or the AI client throws.  The 500 is then the
    catch-all response.  The rendering throws for a transcript that is not
    an array and for an array that holds [null] or [undefined]; the AI
    client is not consulted in that case. *)
Theorem unexpected_error_exactly (req_body : value) :
  (status (analyze_video req_body) = 500%Z
   <-> (exists e, get_prop req_body (lit "videoUrl") = Throw e)
       \/ exists transcript,
            transcript_in_hand req_body transcript
            /\ ((exists e, transcript_text transcript = Throw e)
                \/ exists text e,
                     transcript_text transcript = Normal text
                     /\ generateText (prompt_head ++ text) = Throw e))
  /\ (status (analyze_video req_body) = 500%Z ->
      analyze_video req_body = response_unexpected)
  /\ (forall transcript,
        transcript_in_hand req_body transcript ->
        is_array transcript = false
        \/ (exists l, transcript = VArr l /\ (In VNull l \/ In VUndefined l)) ->
        forall G,
          Server.analyze_video URL_searchParams fetchTranscript G req_body
          = response_unexpected).
Proof.
  split; [split|split].
  - intros H500.
    destruct (route_cases URL_searchParams fetchTranscript req_body)
      as [[He _]|[[_ H]|[[_ H]|[H|[H|(t & Hin & H)]]]]];
      try (rewrite H in H500; discriminate H500).
    + now left.
    + right. exists t. split; [exact Hin|].
      rewrite H, analyze_transcript_steps in H500.
      destruct (transcript_text t) as [text|e]; [|eauto].
      destruct (generateText (prompt_head ++ text)) as [reply|e] eqn:E;
        [discriminate H500 | eauto].
  - intros [[e He]|(t & Hin & Hthrow)].
    + unfold Server.analyze_video, analyze_video_try. now rewrite He.
    + rewrite (in_hand_response Hin), analyze_transcript_steps.
      destruct Hthrow as [[e ->]|(text & e & -> & ->)]; reflexivity.
  - intros H500.
    destruct (route_cases URL_searchParams fetchTranscript req_body)
      as [[_ H]|[[_ H]|[[_ H]|[H|[H|(t & Hin & H)]]]]];
      try (rewrite H in H500; discriminate H500); [apply H|].
    rewrite H in *. destruct Hin as (u & len & _ & _ & _ & _ & Ht & _).
    destruct (analyze_transcript_outcome generateText _ Ht) as [[Hs _]|E];
      [congruence | exact E].
  - intros t Hin Hbad G.
    rewrite (in_hand_response Hin), analyze_transcript_steps.
    assert (Ht : exists e, transcript_text t = Throw e).
    { destruct Hbad as [Hna|(l & -> & Hl)].
      - destruct t; try discriminate; simpl; eauto.
      - simpl. destruct (transcript_lines_hole _ Hl) as [e ->]. simpl. eauto. }
    destruct Ht as [e ->]. reflexivity.
Qed.

(** X7. For a transcript that is an array of line objects, not empty, the
    prompt is the fixed head followed by one line per element, and the
    handler answers 200 whatever value the AI client returns for it: the
    body carries the transcript as the provider gave it and the segments of
    [extractJSON] applied to the reply, and nothing else of the reply. *)
Theorem analysis_succeeds (req_body videoUrl x : value) (l : list value) :
  get_prop req_body (lit "videoUrl") = Normal videoUrl ->
  truthy videoUrl = true ->
  truthy (getVideoId videoUrl) = true ->
  fetchTranscript (getVideoId videoUrl) = Normal (VArr (x :: l)) ->
  Forall line_object (x :: l) ->
  exists lines,
    transcript_lines (x :: l) = Normal lines
    /\ List.length lines = List.length (x :: l)
    /\ forall reply,
         generateText (prompt_head ++ Json.join newline lines) = Normal reply ->
         analyze_video req_body
         = {| status := 200;
              body := VObj [(lit "transcript", VArr (x :: l));
                            (lit "adSegments",
                             VArr (segments_of (extractJSON reply)))] |}
         /\ Forall (fun seg => isValid seg = Normal true)
              (segments_of (extractJSON reply)).
Proof.
  intros E1 E2 E3 E4 Hl.
  destruct (transcript_lines_objects Hl) as (lines & El & Hlen).
  exists lines. split; [exact El|]. split; [exact Hlen|].
  intros reply Hreply.
  assert (Hin : transcript_in_hand req_body (VArr (x :: l))).
  { destruct (length_not_zero x l) as (len & E6 & E7).
    exists videoUrl, len. repeat split; assumption. }
  rewrite (in_hand_response Hin), analyze_transcript_steps.
  cbn [transcript_text]. rewrite El. cbn [bind]. rewrite Hreply.
  split; [reflexivity | exact (proj2 (extractJSON_segments reply))].
Qed.

(** X11. Which collaborator an answer depends on: a 400 or a 404 is sent
    without consulting the AI client, a 400 without consulting the
    transcript provider either, and the missing-URL answer without parsing
    any URL.  The request body counts through its [videoUrl] only, and
    [videoUrl] through the video id only. *)
Theorem answer_depends_on (req_body : value) :
  (status (analyze_video req_body) = 400%Z
   \/ status (analyze_video req_body) = 404%Z ->
   forall G,
     Server.analyze_video URL_searchParams fetchTranscript G req_body
     = analyze_video req_body)
  /\ (status (analyze_video req_body) = 400%Z ->
      forall F G,
        Server.analyze_video URL_searchParams F G req_body
        = analyze_video req_body)
  /\ (analyze_video req_body = response_url_required ->
      forall U F G,
        Server.analyze_video U F G req_body = response_url_required)
  /\ (forall req_body',
        get_prop req_body' (lit "videoUrl")
        = get_prop req_body (lit "videoUrl") ->
        analyze_video req_body' = analyze_video req_body)
  /\ (forall u u',
        get_prop req_body (lit "videoUrl") = Normal u ->
        truthy u = true -> truthy u' = true ->
        getVideoId u' = getVideoId u ->
        analyze_video (request u') = analyze_video req_body).
Proof.
  assert (Hcases := route_cases URL_searchParams fetchTranscript req_body).
  assert (H6 : forall t,
             transcript_in_hand req_body t ->
             status (analyze_video req_body) <> 400%Z
             /\ status (analyze_video req_body) <> 404%Z).
  { intros t Hin. rewrite (in_hand_response Hin).
    destruct Hin as (u & len & _ & _ & _ & _ & Ht & _).
    destruct (analyze_transcript_outcome generateText _ Ht) as [[Hs _]| ->].
    - rewrite Hs. split; discriminate.
    - split; discriminate. }
  split; [|split; [|split; [|split]]].
  - intros Hst G.
    destruct Hcases as [[_ H]|[[_ H]|[[_ H]|[H|[H|(t & Hin & H)]]]]];
      try (now rewrite !H).
    destruct (H6 _ Hin). tauto.
  - intros Hst F G.
    destruct Hcases as [[_ H]|[[_ H]|[[_ H]|[H|[H|(t & Hin & H)]]]]];
      try (now rewrite !H);
      try (rewrite H in Hst; discriminate Hst).
    destruct (H6 _ Hin). tauto.
  - intros Hreq U F G.
    destruct Hcases as [[_ H]|[[_ H]|[[_ H]|[H|[H|(t & Hin & H)]]]]];
      try (now rewrite !H);
      try (rewrite H in Hreq; discriminate Hreq).
    destruct (H6 _ Hin) as [H400 _]. rewrite Hreq in H400.
    now elim H400.
  - intros req_body' E.
    unfold Server.analyze_video, analyze_video_try. now rewrite E.
  - intros u u' E Hu Hu' Hid.
    unfold Server.analyze_video, analyze_video_try. rewrite E.
    cbn [request get_prop get_own bind].
    change (JsString.eqb (lit "videoUrl") (lit "videoUrl")) with true.
    cbv iota. rewrite Hu, Hu'. cbn [negb].
    unfold extract_and_fetch. now rewrite Hid.
Qed.

End WithCollaborators.

(** *** The prompt *)

Lemma join_holds sep lines line :
  In line lines -> exists a b, Json.join sep lines = a ++ line ++ b.
Proof.
  induction lines as [|x r IH]; [intros []|].
  intros [->|Hin].
  - destruct r as [|y r].
    + exists [], []. simpl. now rewrite app_nil_r.
    + exists [], (sep ++ Json.join sep (y :: r)). reflexivity.
  - destruct (IH Hin) as (a & b & E).
    destruct r as [|y r]; [destruct Hin|].
    exists (x ++ sep ++ a), b.
    change (Json.join sep (x :: y :: r))
      with (x ++ sep ++ Json.join sep (y :: r)).
    rewrite E, <- !app_assoc. reflexivity.
Qed.

(** X8. The prompt sent to the AI client holds the whole transcript.
    With the transcript in hand and its lines rendered, the handler
    consults the AI client at one text only, the fixed head followed by
    the lines joined with line feeds: the answer is the 200 built from
    the reply to this text, or the catch-all 500 when the client throws
    for it, so that two clients that agree on this text get the same
    answer.  The lines are the renderings of the elements, one for one and
    in their order; a line object with a numeric [offset] and a string
    [text] renders as [[<offset>s]: <text>], the number printed as the
    language prints it; and every line is found in that text: nothing is
    cut off, however long the transcript is. *)
Theorem prompt_holds_every_line
  (URL_searchParams : value -> completion (list (JsString.t * JsString.t)))
  (fetchTranscript : value -> completion value)
  (req_body : value) (l : list value) (lines : list JsString.t) :
  transcript_in_hand URL_searchParams fetchTranscript req_body (VArr l) ->
  transcript_lines l = Normal lines ->
  (forall G,
      analyze_video URL_searchParams fetchTranscript G req_body
      = match G (prompt_head ++ Json.join newline lines) with
        | Normal reply =>
            {| status := 200;
               body := VObj [(lit "transcript", VArr l);
                             (lit "adSegments",
                              VArr (segments_of (extractJSON reply)))] |}
        | Throw _ =>
            {| status := 500;
               body := failure_body
                 (lit "An unexpected error occurred while analyzing the video")
            |}
        end)
  /\ (forall G G',
        G (prompt_head ++ Json.join newline lines)
        = G' (prompt_head ++ Json.join newline lines) ->
        analyze_video URL_searchParams fetchTranscript G req_body
        = analyze_video URL_searchParams fetchTranscript G' req_body)
  /\ Forall2 (fun t line => transcript_line t = Normal line) l lines
  /\ (forall ps n x,
        In (VObj ps) l ->
        get_own ps (lit "offset") = Some (VNum n) ->
        get_own ps (lit "text") = Some (VStr x) ->
        In (lit "[" ++ JsNumber.toString n ++ lit "s]: " ++ x) lines)
  /\ (forall line,
        In line lines ->
        contains line (prompt_head ++ Json.join newline lines) = true).
Proof.
  intros Hin H.
  assert (Hsent : forall G,
      analyze_video URL_searchParams fetchTranscript G req_body
      = match G (prompt_head ++ Json.join newline lines) with
        | Normal reply =>
            {| status := 200;
               body := VObj [(lit "transcript", VArr l);
                             (lit "adSegments",
                              VArr (segments_of (extractJSON reply)))] |}
        | Throw _ =>
            {| status := 500;
               body := failure_body
                 (lit "An unexpected error occurred while analyzing the video")
            |}
        end).
  { intros G. rewrite (in_hand_response Hin), analyze_transcript_steps.
    cbn [transcript_text]. rewrite H. cbn [bind].
    destruct (G (prompt_head ++ Json.join newline lines)); reflexivity. }
  assert (HF : Forall2 (fun t line => transcript_line t = Normal line)
                 l lines).
  { clear Hin Hsent. revert lines H.
    induction l as [|t l IH]; simpl; intros lines H.
    - injection H as <-. constructor.
    - destruct (transcript_line t) as [line|] eqn:E; [|discriminate H].
      simpl in H.
      destruct (transcript_lines l) as [ls|]; [|discriminate H].
      injection H as <-. constructor; [exact E | now apply IH]. }
  split; [exact Hsent|]. split; [|split; [exact HF|split]].
  - intros G G' E. now rewrite (Hsent G), (Hsent G'), E.
  - intros ps n x Hl Ho Hx. clear H Hin Hsent.
    induction HF as [|t line l' lines' Ht _ IH]; [destruct Hl|].
    destruct Hl as [->|Hl]; [|right; now apply IH].
    left. unfold transcript_line in Ht. simpl in Ht.
    rewrite Ho, Hx in Ht. simpl in Ht. now injection Ht as <-.
  - intros line Hl. destruct (join_holds newline _ _ Hl) as (a & b & ->).
    apply RepairFacts.contains_app_r, RepairFacts.contains_app_r.
    apply RepairFacts.contains_here.
Qed.

Lemma prompt_holds_every_line_witness :
  exists lines,
    transcript_lines [line (num 0 0) (VStr (lit "hello"));
                      VObj [(lit "offset", num 15 (-1))]]
    = Normal lines
    /\ In (lit "[0s]: hello") lines
    /\ contains (lit "[0s]: hello")
         (prompt_head ++ Json.join newline lines) = true
    /\ analyze_video toy_URL captions echo (request (VStr watch_url))
       = {| status := 200;
            body := VObj [(lit "transcript", two_lines);
                          (lit "adSegments",
                           VArr (segments_of
                                   (extractJSON
                                      (VStr (prompt_head
                                             ++ Json.join newline lines)))))]
         |}.
Proof.
  destruct (transcript_lines [line (num 0 0) (VStr (lit "hello"));
                              VObj [(lit "offset", num 15 (-1))]])
    as [lines|] eqn:E; [|vm_compute in E; discriminate E].
  exists lines. split; [reflexivity|].
  assert (Hin : transcript_in_hand toy_URL captions
                  (request (VStr watch_url))
                  (VArr [line (num 0 0) (VStr (lit "hello"));
                         VObj [(lit "offset", num 15 (-1))]])).
  { exists (VStr watch_url). eexists.
    split; [reflexivity|]. split; [reflexivity|]. split; [reflexivity|].
    split; [reflexivity|]. split; [reflexivity|].
    split; [reflexivity | vm_compute; reflexivity]. }
  destruct (prompt_holds_every_line Hin E) as (Hsent & _ & _ & H2 & H3).
  assert (Hl : In (lit "[0s]: hello") lines).
  { change (lit "[0s]: hello")
      with (lit "[" ++ lit "0" ++ lit "s]: " ++ lit "hello").
    replace (lit "0")
      with (JsNumber.toString (JsNumber.of_decimal false 0 0))
      by (vm_compute; reflexivity).
    apply (H2 [(lit "offset", num 0 0); (lit "text", VStr (lit "hello"))]);
      [now left | reflexivity | reflexivity]. }
  split; [exact Hl|]. split; [exact (H3 _ Hl)|].
  exact (Hsent echo).
Defined.

Lemma every_answer_shaped_witness :
  analyze_video toy_URL no_captions no_answer (request (VStr watch_url))
  = {| status := 404;
       body := failure_body
         (lit "Could not fetch video transcript. The video might not have captions available.") |}
  /\ error_middleware SyntaxError
     <> analyze_video toy_URL captions no_answer (request (VStr watch_url)).
Proof.
  split.
  - destruct (proj1 (every_answer_shaped toy_URL no_captions no_answer
                       (request (VStr watch_url))))
      as [[H _]|[H|[H|[H|[H|H]]]]];
      try (vm_compute in H; discriminate H).
    exact H.
  - exact (proj2 (proj2 (every_answer_shaped toy_URL captions no_answer
                           (request (VStr watch_url))) SyntaxError)).
Defined.

Lemma unexpected_error_exactly_witness :
  status (analyze_video toy_URL captions no_answer (request (VStr watch_url)))
  = 500%Z
  /\ analyze_video toy_URL broken_captions answer (request (VStr watch_url))
     = response_unexpected
  /\ status (analyze_video toy_URL captions no_answer VUndefined) = 500%Z.
Proof.
  assert (Hin : forall F t,
             F (getVideoId toy_URL (VStr watch_url)) = Normal t ->
             truthy t = true ->
             (exists len, get_prop t (lit "length") = Normal len
                          /\ is_zero len = false) ->
             transcript_in_hand toy_URL F (request (VStr watch_url)) t).
  { intros F t E Ht (len & El & Hz).
    exists (VStr watch_url), len. repeat split; assumption. }
  split; [|split].
  - apply (proj2 (proj1 (unexpected_error_exactly toy_URL captions no_answer
                           (request (VStr watch_url))))).
    right. exists two_lines. split.
    + apply Hin; [reflexivity | reflexivity |].
      eexists. split; [reflexivity | vm_compute; reflexivity].
    + right.
      destruct (transcript_text two_lines) as [text|e] eqn:E;
        [|vm_compute in E; discriminate E].
      exists text, ExternalError. split; reflexivity.
  - apply (proj2 (proj2 (unexpected_error_exactly toy_URL broken_captions
                           no_answer (request (VStr watch_url))))
             (VArr [VNull])).
    + apply Hin; [reflexivity | reflexivity |].
      eexists. split; [reflexivity | vm_compute; reflexivity].
    + right. exists [VNull]. split; [reflexivity|]. left. now left.
  - apply (proj2 (proj1 (unexpected_error_exactly toy_URL captions no_answer
                           VUndefined))).
    left. exists TypeError. reflexivity.
Defined.

Lemma analysis_succeeds_witness :
  exists lines,
    transcript_lines [line (num 0 0) (VStr (lit "hello"));
                      VObj [(lit "offset", num 15 (-1))]]
    = Normal lines
    /\ analyze_video toy_URL captions answer (request (VStr watch_url))
       = {| status := 200;
            body := VObj [(lit "transcript", two_lines);
                          (lit "adSegments",
                           VArr (segments_of
                                   (extractJSON (VStr reply_with_number))))]
         |}.
Proof.
  destruct (@analysis_succeeds toy_URL captions answer
              (request (VStr watch_url)) (VStr watch_url)
              (line (num 0 0) (VStr (lit "hello")))
              [VObj [(lit "offset", num 15 (-1))]])
    as (lines & El & _ & H); try reflexivity.
  - repeat constructor.
    + eexists. split; [reflexivity|].
      split; intros v Hv; vm_compute in Hv; injection Hv as <-; reflexivity.
    + eexists. split; [reflexivity|].
      split; intros v Hv; vm_compute in Hv;
        [injection Hv as <-; reflexivity | discriminate Hv].
  - exists lines. split; [exact El|].
    exact (proj1 (H (VStr reply_with_number) eq_refl)).
Defined.

Lemma answer_depends_on_witness :
  status (analyze_video toy_URL no_captions no_answer
            (request (VStr watch_url))) = 404%Z
  /\ analyze_video toy_URL no_captions answer (request (VStr watch_url))
     = analyze_video toy_URL no_captions no_answer (request (VStr watch_url))
  /\ analyze_video any_URL captions answer (request (VStr (lit "b")))
     = analyze_video any_URL captions answer (request (VStr (lit "a"))).
Proof.
  split; [reflexivity|]. split.
  - apply (proj1 (answer_depends_on toy_URL no_captions no_answer
                    (request (VStr watch_url)))).
    right. reflexivity.
  - apply (proj2 (proj2 (proj2 (proj2
             (answer_depends_on any_URL captions answer
                (request (VStr (lit "a")))))))
             (VStr (lit "a")) (VStr (lit "b"))); reflexivity.
Defined.

End RouteFacts.

(** ** Replies *)

Module ReplyFacts.
Import JsString JsStringFacts JsValue JsValue.Notations JsOps Server Scan Views.
Import SpanFacts RegexFacts PropFacts NumberFacts FilterFacts ExtractFacts.
Import ResanitizeFacts Samples.

(** *** White space and prose around the object *)

Lemma trimStart_app_all w s :
  forallb is_whitespace w = true -> trimStart (w ++ s) = trimStart s.
Proof. intros H. unfold trimStart. now apply drop_while_app_all. Qed.

Lemma trimEnd_app_all s w :
  forallb is_whitespace w = true -> trimEnd (s ++ w) = trimEnd s.
Proof.
  intros H. unfold trimEnd. rewrite rev_app_distr.
  rewrite drop_while_app_all; [reflexivity|]. now rewrite forallb_rev.
Qed.

Lemma trimStart_all w : forallb is_whitespace w = true -> trimStart w = [].
Proof. apply drop_while_all. Qed.

(** [trim] does not see white space added at the two ends. *)
Lemma trim_padded w1 s w2 :
  forallb is_whitespace w1 = true -> forallb is_whitespace w2 = true ->
  trim (w1 ++ s ++ w2) = trim s.
Proof.
  intros H1 H2. unfold trim. rewrite trimStart_app_all by exact H1.
  destruct (forallb is_whitespace s) eqn:Hs.
  - rewrite (trimStart_all s Hs), trimStart_all; [reflexivity|].
    rewrite forallb_app, Hs, H2. reflexivity.
  - unfold trimStart at 1. rewrite drop_while_app_some by exact Hs.
    now apply trimEnd_app_all.
Qed.

Lemma extractJSON_cleanText s s' :
  cleanText s = cleanText s' -> extractJSON (VStr s) = extractJSON (VStr s').
Proof.
  intros H. unfold extractJSON, extractJSON_try. now rewrite H.
Qed.

(** X1. White space in front of a reply and behind it does not change the
    result. *)
Theorem surrounding_whitespace_ignored (w1 s w2 : JsString.t) :
  forallb is_whitespace w1 = true ->
  forallb is_whitespace w2 = true ->
  extractJSON (VStr (w1 ++ s ++ w2)) = extractJSON (VStr s).
Proof.
  intros H1 H2. apply extractJSON_cleanText.
  unfold cleanText. cbv zeta. now rewrite trim_padded.
Qed.

Lemma whitespace_not_brace w c :
  forallb is_whitespace w = true -> is_whitespace c = false -> ~ In c w.
Proof.
  intros Hw Hc Hin. rewrite forallb_forall in Hw.
  specialize (Hw _ Hin). congruence.
Qed.

Lemma opening_no_open pre : opening pre -> ~ In open_brace pre.
Proof.
  intros (a & b & -> & Ha & Hb) Hin.
  apply in_app_or in Hin as [Hin|Hin].
  - destruct Ha as [->|(w & Hw & ->)]; [exact Hin|].
    apply in_app_or in Hin as [Hin|Hin].
    + vm_compute in Hin. intuition discriminate.
    + revert Hin. now apply whitespace_not_brace.
  - destruct Hb as [->|(w & Hw & ->)]; [exact Hin|].
    apply in_app_or in Hin as [Hin|Hin].
    + vm_compute in Hin. intuition discriminate.
    + revert Hin. now apply whitespace_not_brace.
Qed.

Lemma closing_no_close suf : closing suf -> ~ In close_brace suf.
Proof.
  intros [->|(w & Hw & ->)] Hin; [exact Hin|].
  apply in_app_or in Hin as [Hin|Hin].
  - revert Hin. now apply whitespace_not_brace.
  - vm_compute in Hin. intuition discriminate.
Qed.

(** A prefix without [c] of a text ends before the first [c]. *)
Lemma cut_prefix (c : code_unit) P : forall a x y,
  a ++ c :: x = P ++ y -> ~ In c P ->
  exists a', a = P ++ a' /\ y = a' ++ c :: x.
Proof.
  induction P as [|p P IH]; intros a x y E Hn.
  - exists a. split; [reflexivity | now rewrite E].
  - destruct a as [|a0 a]; simpl in E; injection E as -> E.
    + exfalso. apply Hn. now left.
    + destruct (IH a x y E) as (a' & -> & ->).
      * intros H. apply Hn. now right.
      * exists a'. split; reflexivity.
Qed.

(** A suffix without [c] of a text starts behind the last [c]. *)
Lemma cut_suffix (c : code_unit) Q : forall b x y,
  x ++ c :: b = y ++ Q -> ~ In c Q ->
  exists b', b = b' ++ Q /\ y = x ++ c :: b'.
Proof.
  induction Q as [|q Q IH] using rev_ind; intros b x y E Hn.
  - exists b. rewrite !app_nil_r in *. split; [reflexivity | now rewrite E].
  - destruct b as [|b1 b] using rev_ind.
    + exfalso. apply Hn. apply in_or_app. right.
      rewrite (app_assoc y Q [q]) in E.
      apply app_inj_tail in E as [_ <-]. now left.
    + clear IHb. rewrite (app_assoc y Q [q]) in E.
      change (x ++ c :: b ++ [b1]) with (x ++ (c :: b) ++ [b1]) in E.
      rewrite (app_assoc x (c :: b) [b1]) in E.
      apply app_inj_tail in E as [E ->].
      destruct (IH b x y E) as (b' & -> & ->).
      * intros H. apply Hn. apply in_or_app. now left.
      * exists b'. split; [now rewrite app_assoc | reflexivity].
Qed.

Lemma from_first_open_at a r :
  ~ In open_brace a ->
  from_first_open (a ++ open_brace :: r) = Some (open_brace :: r).
Proof.
  induction a as [|c a IH]; intros Hn.
  - reflexivity.
  - simpl. destruct (N.eqb_spec c open_brace) as [->|_].
    + exfalso. apply Hn. now left.
    + apply IH. intros H. apply Hn. now right.
Qed.

(** The span of a text made of an object between a text without [{] and
    a text without [}] is the object. *)
Lemma match_json_span_at a m b :
  ~ In open_brace a -> ~ In close_brace b ->
  match_json_span (a ++ (open_brace :: m ++ [close_brace]) ++ b)
  = Some (open_brace :: m ++ [close_brace]).
Proof.
  intros Ha Hb. unfold match_json_span.
  change ((open_brace :: m ++ [close_brace]) ++ b)
    with (open_brace :: (m ++ [close_brace]) ++ b).
  rewrite from_first_open_at by exact Ha.
  rewrite <- app_assoc. simpl app.
  now rewrite (through_last_close_at m b Hb).
Qed.

(** What is left of such a text after the trim and the fence strips is
    still the object between two texts of the same kind. *)
Lemma cleanText_around a m b :
  ~ In open_brace a -> ~ In close_brace b ->
  exists a' b',
    cleanText (a ++ (open_brace :: m ++ [close_brace]) ++ b)
    = a' ++ (open_brace :: m ++ [close_brace]) ++ b'
    /\ ~ In open_brace a' /\ ~ In close_brace b'.
Proof.
  intros Ha Hb.
  set (s := a ++ (open_brace :: m ++ [close_brace]) ++ b).
  rewrite cleanText_scan.
  destruct (trimStart_spec s) as (w1 & H1 & Hw1).
  destruct (trimEnd_spec (trimStart s)) as (w2 & H2 & Hw2).
  fold (trim s) in H2.
  destruct (strip_fences_anchored (trim s)) as (pre & suf & H3 & Hpre & Hsuf).
  set (c := strip_fences (trim s)) in *.
  assert (Hs : s = (w1 ++ pre) ++ c ++ (suf ++ w2)).
  { rewrite H1 at 1. rewrite H2 at 1. rewrite H3 at 1.
    now rewrite <- !app_assoc. }
  assert (HP : ~ In open_brace (w1 ++ pre)).
  { intros H. apply in_app_or in H as [H|H].
    - revert H. now apply whitespace_not_brace.
    - revert H. now apply opening_no_open. }
  assert (HQ : ~ In close_brace (suf ++ w2)).
  { intros H. apply in_app_or in H as [H|H].
    - revert H. now apply closing_no_close.
    - revert H. now apply whitespace_not_brace. }
  unfold s in Hs.
  change (a ++ (open_brace :: m ++ [close_brace]) ++ b)
    with (a ++ open_brace :: (m ++ [close_brace]) ++ b) in Hs.
  destruct (@cut_prefix _ _ _ _ _ Hs HP) as (a' & Ea & Ec).
  assert (Ec2 : (a' ++ open_brace :: m) ++ close_brace :: b
                = c ++ (suf ++ w2)).
  { rewrite Ec, <- !app_assoc. reflexivity. }
  destruct (@cut_suffix _ _ _ _ _ Ec2 HQ) as (b' & Eb & Ec').
  exists a', b'. split; [|split].
  - rewrite Ec', <- !app_assoc. simpl. now rewrite <- !app_assoc.
  - intros H. apply Ha. rewrite Ea. apply in_or_app. now right.
  - intros H. apply Hb. rewrite Eb. apply in_or_app. now left.
Qed.

Lemma jsonMatch_around a m b :
  ~ In open_brace a -> ~ In close_brace b ->
  jsonMatch (cleanText (a ++ (open_brace :: m ++ [close_brace]) ++ b))
  = Some (open_brace :: m ++ [close_brace]).
Proof.
  intros Ha Hb.
  destruct (@cleanText_around a m b Ha Hb) as (a' & b' & -> & Ha' & Hb').
  rewrite jsonMatch_scan. now apply match_json_span_at.
Qed.

(** X2. A reply that holds one object, from a [{] to a [}], between a text
    without [{] and a text without [}] gives the result of the object
    alone: prose in front of the object and behind it, and a code fence
    around it, are ignored. *)
Theorem surrounding_prose_ignored (a m b : JsString.t) :
  ~ In open_brace a ->
  ~ In close_brace b ->
  extractJSON (VStr (a ++ (open_brace :: m ++ [close_brace]) ++ b))
  = extractJSON (VStr (open_brace :: m ++ [close_brace])).
Proof.
  intros Ha Hb. unfold extractJSON, extractJSON_try.
  rewrite (@jsonMatch_around a m b Ha Hb).
  pose proof (@jsonMatch_around [] m []) as H0.
  simpl app in H0. rewrite app_nil_r in H0.
  rewrite H0 by (intros []). reflexivity.
Qed.

(** *** What is kept of the reply *)

Lemma map_fst_replace_own ps k v :
  map fst (replace_own ps k v) = map fst ps.
Proof.
  induction ps as [|[k' v'] r IH]; simpl; [reflexivity|].
  destruct (JsString.eqb k' k); simpl; [reflexivity | now rewrite IH].
Qed.

Lemma coerce_props_keys ps k : map fst (coerce_props ps k) = map fst ps.
Proof.
  unfold coerce_props.
  destruct (get_own ps k) as [[| | | |str| |]|] eqn:E; try reflexivity.
  rewrite obj_set_existing by (apply has_own_true; eauto).
  apply map_fst_replace_own.
Qed.

(** Only an object is ever kept, and it is kept as the two assignments
    left it. *)
Lemma check_segment_kept_object seg0 seg :
  check_segment seg0 = Normal (seg, true) ->
  exists ps0, seg0 = VObj ps0 /\ seg = coerce_segment (VObj ps0).
Proof.
  destruct seg0 as [| | | | | |ps0]; try discriminate.
  rewrite check_segment_object.
  destruct (isValid _); simpl; [|discriminate].
  intros H; injection H as <- _. eauto.
Qed.

(** X4. [extractJSON] edits the parsed reply in place.  When [adSegments]
    is an array on which the filter completes, the result is the parsed
    object with its keys in their order and every other key with its
    value, [adSegments] holding the kept segments; a kept segment is an
    object of the array with its keys in their order and every key other
    than [start] and [end] with its value.  When [adSegments] is missing
    or is not an array, the result is a fresh [{ adSegments: [] }] and the
    other keys of the reply are gone. *)
Theorem reply_edited_in_place (s : JsString.t) (ps : props) :
  extracted_json s = Some (VObj ps) ->
  (forall l kept,
      get_own ps (lit "adSegments") = Some (VArr l) ->
      filter_segments l = Normal kept ->
      exists ps',
        extractJSON (VStr s) = VObj ps'
        /\ map fst ps' = map fst ps
        /\ get_own ps' (lit "adSegments") = Some (VArr kept)
        /\ (forall k, k <> lit "adSegments" -> get_own ps' k = get_own ps k)
        /\ (forall seg,
              In seg kept ->
              exists ps0 qs,
                In (VObj ps0) l
                /\ seg = VObj qs
                /\ map fst qs = map fst ps0
                /\ forall k, k <> lit "start" -> k <> lit "end" ->
                             get_own qs k = get_own ps0 k))
  /\ (forall v,
        get_prop (VObj ps) (lit "adSegments") = Normal v ->
        is_array v = false ->
        extractJSON (VStr s) = empty_result).
Proof.
  intros E. split.
  - intros l kept G F.
    assert (Hown : has_own ps (lit "adSegments") = true)
      by (apply has_own_true; eauto).
    exists (obj_set ps (lit "adSegments") (VArr kept)).
    split; [|split; [|split; [|split]]].
    + rewrite extractJSON_string, E. simpl. rewrite G, F. reflexivity.
    + rewrite obj_set_existing by exact Hown. apply map_fst_replace_own.
    + now apply get_own_obj_set_existing.
    + intros k Hk. apply get_own_obj_set_existing_other; [exact Hown|].
      congruence.
    + intros seg Hin.
      destruct (filter_segments_provenance _ F _ Hin) as (seg0 & Hin0 & Hc).
      destruct (check_segment_kept_object _ Hc) as (ps0 & -> & ->).
      exists ps0, (coerce_props (coerce_props ps0 (lit "start")) (lit "end")).
      split; [exact Hin0|]. split; [reflexivity|]. split.
      * now rewrite !coerce_props_keys.
      * intros k Hs He. rewrite !coerce_props_get_other; congruence.
  - intros v G Hv. rewrite extractJSON_string, E, G. simpl.
    destruct v; try reflexivity. discriminate.
Qed.

(** *** Timestamps that are not numbers *)

Lemma isValid_missing_start ps :
  get_own ps (lit "start") = None -> isValid (VObj ps) = Normal false.
Proof. unfold isValid. simpl. now intros ->. Qed.

(** X5. The validity test works on what [start] and [end] convert to.  A
    [null] start counts as zero: with a positive numeric [end] and a
    string [text] the segment is kept, its [start] still [null].  A
    segment without [start], a segment with a numeric [start] and no
    [end], and a segment with numeric [start] and [end] and no [text] are
    dropped, and no error is raised for them. *)
Theorem timestamps_by_conversion (ps : props) :
  (forall b t,
      get_own ps (lit "start") = Some VNull ->
      get_own ps (lit "end") = Some (VNum b) ->
      SFltb JsNumber.zero b = true ->
      get_own ps (lit "text") = Some (VStr t) ->
      check_segment (VObj ps) = Normal (VObj ps, true))
  /\ (get_own ps (lit "start") = None ->
      check_segment (VObj ps)
      = Normal (VObj (coerce_props ps (lit "end")), false))
  /\ (forall a,
        get_own ps (lit "start") = Some (VNum a) ->
        get_own ps (lit "end") = None ->
        check_segment (VObj ps) = Normal (VObj ps, false))
  /\ (forall a b,
        get_own ps (lit "start") = Some (VNum a) ->
        get_own ps (lit "end") = Some (VNum b) ->
        get_own ps (lit "text") = None ->
        check_segment (VObj ps) = Normal (VObj ps, false)).
Proof.
  split; [|split; [|split]].
  - intros b t Hs He Hb Ht. rewrite check_segment_object.
    unfold coerce_segment, coerce_props. rewrite Hs, He.
    unfold isValid. simpl. rewrite Hs, He, Ht.
    destruct b as [sb|sb| |sb m e]; try discriminate Hb;
      destruct sb; try discriminate Hb; reflexivity.
  - intros Hs. rewrite check_segment_object.
    assert (H0 : coerce_props ps (lit "start") = ps)
      by (unfold coerce_props; now rewrite Hs).
    unfold coerce_segment. rewrite H0.
    rewrite isValid_missing_start; [reflexivity|].
    rewrite coerce_props_get_other by discriminate. exact Hs.
  - intros a Hs He. rewrite check_segment_object.
    unfold coerce_segment, coerce_props. rewrite Hs, He.
    unfold isValid. simpl. rewrite Hs, He. simpl.
    destruct (JsNumber.is_nan a); reflexivity.
  - intros a b Hs He Ht. rewrite check_segment_object.
    unfold coerce_segment, coerce_props. rewrite Hs, He.
    unfold isValid. simpl. rewrite Hs, He, Ht. simpl.
    destruct (JsNumber.is_nan a); [reflexivity|].
    destruct (JsNumber.is_nan b); reflexivity.
Qed.

(** *** Segments of the expected types *)

Lemma isValid_numbers qs a b t :
  get_own qs (lit "start") = Some (VNum a) ->
  get_own qs (lit "end") = Some (VNum b) ->
  get_own qs (lit "text") = Some (VStr t) ->
  isValid (VObj qs) = Normal (SFleb JsNumber.zero a && SFltb a b).
Proof.
  intros Hs He Ht. unfold isValid.
  cbn [get_prop bind]. rewrite Hs, He, Ht.
  cbn [isNaN ToNumber ToPrimitive prim_to_number bind is_string negb].
  assert (Na : JsNumber.is_nan a = true -> SFleb JsNumber.zero a = false)
    by (destruct a; try discriminate; reflexivity).
  assert (Nb : JsNumber.is_nan b = true -> SFltb a b = false)
    by (destruct b; try discriminate; destruct a; reflexivity).
  destruct (JsNumber.is_nan a); [now rewrite Na|].
  destruct (JsNumber.is_nan b); [now rewrite Nb, andb_false_r|].
  unfold ge, gt.
  cbn [ToPrimitive bind prim_less_than prim_to_number].
  destruct (SFleb JsNumber.zero a) eqn:L.
  - rewrite (leb_not_lessThan _ _ L). cbn [negb andb].
    destruct (SFltb a b) eqn:T.
    + now rewrite (proj2 (lessThan_ltb a b) T).
    + destruct (JsNumber.lessThan a b) as [[|]|] eqn:Lt; try reflexivity.
      apply lessThan_ltb in Lt. congruence.
  - destruct (JsNumber.lessThan a JsNumber.zero) as [[|]|] eqn:Lt;
      try reflexivity.
    apply not_lessThan_leb in Lt. congruence.
Qed.

Lemma coerce_props_timestamp ps k v a :
  get_own ps k = Some v -> Outcomes.timestamp v = Some a ->
  get_own (coerce_props ps k) k = Some (VNum a)
  /\ (is_string v = false -> coerce_props ps k = ps).
Proof.
  intros G T. unfold coerce_props. rewrite G.
  destruct v; try discriminate T; injection T as <-.
  - split; [exact G | reflexivity].
  - split; [|discriminate].
    apply get_own_obj_set_existing, has_own_true. eauto.
Qed.

(** X12. For a segment whose [start] and [end] are each a number or a
    string and whose [text] is a string, the callback never throws: the
    strings are replaced by what [parseFloat] reads in them, nothing else
    is changed, and the segment is kept exactly when [0 <= start] and
    [start < end] hold for the resulting numbers (NaN failing both).  A
    segment whose [start] and [end] are numbers already is left as it
    was. *)
Theorem typed_segment_verdict (qs : props) (vs ve : value)
  (a b : JsNumber.t) (t : JsString.t) :
  get_own qs (lit "start") = Some vs ->
  get_own qs (lit "end") = Some ve ->
  get_own qs (lit "text") = Some (VStr t) ->
  Outcomes.timestamp vs = Some a ->
  Outcomes.timestamp ve = Some b ->
  check_segment (VObj qs)
  = Normal (coerce_segment (VObj qs), SFleb JsNumber.zero a && SFltb a b)
  /\ get_prop (coerce_segment (VObj qs)) (lit "start") = Normal (VNum a)
  /\ get_prop (coerce_segment (VObj qs)) (lit "end") = Normal (VNum b)
  /\ get_prop (coerce_segment (VObj qs)) (lit "text") = Normal (VStr t)
  /\ (is_string vs = false -> is_string ve = false ->
      coerce_segment (VObj qs) = VObj qs).
Proof.
  intros Hs He Ht Ta Tb.
  destruct (coerce_props_timestamp _ _ Hs Ta) as [Gs Is].
  assert (He' : get_own (coerce_props qs (lit "start")) (lit "end") = Some ve)
    by (rewrite coerce_props_get_other by discriminate; exact He).
  destruct (coerce_props_timestamp _ _ He' Tb) as [Ge Ie].
  assert (Gs' : get_own (coerce_props (coerce_props qs (lit "start"))
                           (lit "end")) (lit "start") = Some (VNum a))
    by (rewrite coerce_props_get_other by discriminate; exact Gs).
  assert (Gt : get_own (coerce_props (coerce_props qs (lit "start"))
                          (lit "end")) (lit "text") = Some (VStr t))
    by (rewrite !coerce_props_get_other by discriminate; exact Ht).
  split; [|split; [|split; [|split]]].
  - rewrite check_segment_object. unfold coerce_segment.
    now rewrite (isValid_numbers _ Gs' Ge Gt).
  - simpl. now rewrite Gs'.
  - simpl. now rewrite Ge.
  - simpl. now rewrite Gt.
  - intros H1 H2. unfold coerce_segment. now rewrite (Is H1), (Ie H2) in *.
Qed.

Lemma typed_segment_verdict_witness :
  check_segment (VObj Scenes.noted_segment)
  = Normal (coerce_segment (VObj Scenes.noted_segment), true)
  /\ get_prop (coerce_segment (VObj Scenes.noted_segment)) (lit "start")
     = Normal (num 1 0).
Proof.
  destruct (@typed_segment_verdict Scenes.noted_segment
              (VStr (lit "1")) (num 2 0)
              (JsNumber.of_decimal false 1 0) (JsNumber.of_decimal false 2 0)
              (lit "ok"))
    as (H1 & H2 & _); try reflexivity.
  split; [exact H1 | exact H2].
Defined.

(** *** Elements on which the callback throws *)

Lemma filter_segments_throw l :
  (exists x e, In x l /\ check_segment x = Throw e) ->
  exists e, filter_segments l = Throw e.
Proof.
  induction l as [|y l IH]; intros (x & e & Hin & Hx); [destruct Hin|].
  simpl. destruct Hin as [->|Hin].
  - rewrite Hx. simpl. eauto.
  - destruct (check_segment y) as [c|e']; simpl; [|eauto].
    destruct IH as [e' ->]; [eauto|]. simpl. eauto.
Qed.

Lemma filter_segments_complete l :
  (forall x, In x l -> exists r, check_segment x = Normal r) ->
  exists kept, filter_segments l = Normal kept.
Proof.
  induction l as [|y l IH]; intros H; simpl; [eauto|].
  destruct (H y (or_introl eq_refl)) as [r ->]. simpl.
  destruct IH as [kept ->]; [intros x Hx; apply H; now right|].
  simpl. eauto.
Qed.

(** X6. The filter is all or nothing.  When the callback throws on one
    element of [adSegments], the result is [{ adSegments: [] }] whatever
    the other elements are; when it throws on none, the filter completes
    and the result holds the kept segments.  The callback throws on
    [null] and [undefined], and on an object whose validity test throws
    while converting [start] or [end]; it throws on nothing else. *)
Theorem one_failure_discards_all (s : JsString.t) (parsed : value)
  (l : list value) :
  extracted_json s = Some parsed ->
  get_prop parsed (lit "adSegments") = Normal (VArr l) ->
  ((exists x e, In x l /\ check_segment x = Throw e) ->
   extractJSON (VStr s) = empty_result)
  /\ ((forall x, In x l -> exists r, check_segment x = Normal r) ->
      exists kept,
        filter_segments l = Normal kept
        /\ segments_of (extractJSON (VStr s)) = kept)
  /\ (forall x,
        (exists e, check_segment x = Throw e)
        <-> x = VNull \/ x = VUndefined
            \/ exists ps e,
                 x = VObj ps
                 /\ isValid (coerce_segment (VObj ps)) = Throw e).
Proof.
  intros E G. split; [|split].
  - intros Hx. destruct (filter_segments_throw l Hx) as [e F].
    rewrite extractJSON_string, E, G. simpl. now rewrite F.
  - intros Hall. destruct (filter_segments_complete _ Hall) as [kept F].
    exists kept. split; [exact F|].
    now destruct (extractJSON_success _ E G F) as (ps & _ & _ & H).
  - intros x. split.
    + intros [e H]. destruct x as [| | | | | |ps]; try discriminate H; auto.
      right. right. exists ps.
      rewrite check_segment_object in H.
      destruct (isValid (coerce_segment (VObj ps))) as [ok|e'];
        [discriminate H | eauto].
    + intros [->|[->|(ps & e & -> & H)]];
        try (exists TypeError; reflexivity).
      exists e. rewrite check_segment_object, H. reflexivity.
Qed.

Lemma one_failure_discards_all_witness :
  extracted_json reply_unconvertible
  = Some (doc [good_segment; unconvertible_segment])
  /\ check_segment unconvertible_segment = Throw TypeError
  /\ extractJSON (VStr reply_unconvertible) = empty_result.
Proof.
  assert (E : extracted_json reply_unconvertible
              = Some (doc [good_segment; unconvertible_segment]))
    by (vm_compute; reflexivity).
  assert (Hc : check_segment unconvertible_segment = Throw TypeError)
    by (vm_compute; reflexivity).
  split; [exact E|]. split; [exact Hc|].
  apply (proj1 (@one_failure_discards_all reply_unconvertible _
                  [good_segment; unconvertible_segment] E eq_refl)).
  exists unconvertible_segment, TypeError. split; [|exact Hc].
  right. now left.
Defined.

Lemma surrounding_whitespace_ignored_witness :
  forallb is_whitespace (lit "  ") = true
  /\ forallb is_whitespace [10%N] = true
  /\ extractJSON (VStr (lit "  " ++ reply_ms ++ [10%N]))
     = extractJSON (VStr reply_ms).
Proof.
  split; [reflexivity|]. split; [reflexivity|].
  apply surrounding_whitespace_ignored; reflexivity.
Defined.

Lemma surrounding_prose_ignored_witness :
  ~ In open_brace Scenes.prose_before
  /\ ~ In close_brace Scenes.prose_after
  /\ extractJSON
       (VStr (Scenes.prose_before
              ++ (open_brace :: Scenes.clean_inside ++ [close_brace])
              ++ Scenes.prose_after))
     = extractJSON (VStr (open_brace :: Scenes.clean_inside ++ [close_brace])).
Proof.
  assert (Ha : ~ In open_brace Scenes.prose_before).
  { intros H. vm_compute in H. intuition discriminate. }
  assert (Hb : ~ In close_brace Scenes.prose_after).
  { intros H. vm_compute in H. intuition discriminate. }
  split; [exact Ha|]. split; [exact Hb|].
  exact (@surrounding_prose_ignored Scenes.prose_before Scenes.clean_inside
           Scenes.prose_after Ha Hb).
Defined.

Lemma reply_edited_in_place_witness :
  extracted_json Scenes.reply_noted = Some (VObj Scenes.noted_props)
  /\ exists ps',
       extractJSON (VStr Scenes.reply_noted) = VObj ps'
       /\ map fst ps' = map fst Scenes.noted_props
       /\ get_own ps' (lit "note") = Some (VStr (lit "n")).
Proof.
  assert (E : extracted_json Scenes.reply_noted
              = Some (VObj Scenes.noted_props)) by (vm_compute; reflexivity).
  split; [exact E|].
  destruct (proj1 (reply_edited_in_place _ E)
              [VObj Scenes.noted_segment]
              [coerce_segment (VObj Scenes.noted_segment)]
              eq_refl)
    as (ps' & H1 & H2 & _ & H4 & _).
  { vm_compute. reflexivity. }
  exists ps'. split; [exact H1|]. split; [exact H2|].
  rewrite H4 by discriminate. reflexivity.
Defined.

Lemma timestamps_by_conversion_witness :
  SFltb JsNumber.zero (JsNumber.of_decimal false 5 0) = true
  /\ check_segment (VObj Scenes.null_start)
     = Normal (VObj Scenes.null_start, true).
Proof.
  split; [vm_compute; reflexivity|].
  apply (proj1 (timestamps_by_conversion Scenes.null_start)
           (JsNumber.of_decimal false 5 0) (lit "x"));
    vm_compute; reflexivity.
Defined.

End ReplyFacts.

(** ** Cleaning and the span *)

Module CleaningFacts.
Import JsString JsStringFacts JsValue JsValue.Notations JsOps Server Scan Views.
Import Samples Anchors SpanFacts RegexFacts PropFacts FilterFacts ExtractFacts.
Import ResanitizeFacts ReplyFacts.

Lemma trimEnd_stops t : stops is_whitespace (rev (trimEnd t)).
Proof.
  unfold trimEnd. rewrite rev_involutive. apply drop_while_stops.
Qed.

Lemma prefix_stops p (t u w : JsString.t) :
  t = u ++ w -> stops p t -> stops p u.
Proof.
  intros -> H. destruct u as [|c u]; [exact I | exact H].
Qed.

Lemma trim_trimmed s : trimmed s (trim s).
Proof.
  destruct (trimStart_spec s) as (w1 & H1 & Hw1).
  destruct (trimEnd_spec (trimStart s)) as (w2 & H2 & Hw2).
  exists w1, w2. unfold trim.
  split; [now rewrite <- H2|]. split; [exact Hw1|]. split; [exact Hw2|].
  split; [|apply trimEnd_stops].
  eapply prefix_stops; [exact H2 | apply drop_while_stops].
Qed.

Lemma strip_leading_cut marker t :
  cut_leading marker t
    (match strip_prefix marker t with
     | Some r => drop_while is_whitespace r
     | None => t
     end).
Proof.
  destruct (strip_prefix marker t) as [r|] eqn:E.
  - right. apply strip_prefix_Some in E. subst t.
    exists (take_while is_whitespace r).
    split; [now rewrite take_drop_while|].
    split; [apply take_while_all | apply drop_while_stops].
  - left. split; [|reflexivity]. intros [r ->].
    rewrite strip_prefix_app in E. discriminate.
Qed.

Lemma strip_close_fence_cut t : cut_trailing fence t (strip_close_fence t).
Proof.
  unfold strip_close_fence.
  destruct (strip_suffix fence t) as [r|] eqn:E.
  - right. apply strip_suffix_Some in E. subst t.
    destruct (trimEnd_spec r) as (w & Hr & Hw).
    exists w. split; [now rewrite app_assoc, <- Hr|].
    split; [exact Hw | apply trimEnd_stops].
  - left. split; [|reflexivity]. intros [r Hr].
    apply strip_suffix_Some in Hr. congruence.
Qed.

(** A text that runs from a [{] to a [}] is its own span. *)
Lemma braced_span m :
  cleanText (open_brace :: m ++ [close_brace])
  = open_brace :: m ++ [close_brace]
  /\ jsonMatch (open_brace :: m ++ [close_brace])
     = Some (open_brace :: m ++ [close_brace]).
Proof.
  rewrite cleanText_scan, jsonMatch_scan, trim_braced, strip_fences_braced.
  split; [reflexivity | apply match_json_span_braced].
Qed.

(** C6 (amended). The text is trimmed: the white space at its two ends
    is cut, and all of it.  Then the code cuts at the two ends only: a
    leading [```json] with all the white space behind it, then a leading
    [```] with all the white space behind it, both when a [```json]
    marker is followed by a second marker, and a final [```] with all the
    white space in front of it; fences in the middle of the text stay.
    The span is the part of the cleaned text from its first [{] to its
    last [}], and the result is computed from the span alone: it is the
    result for the span taken as the whole reply, the empty result when
    the repaired span does not parse, and the segments that the filter
    keeps when it does.  When no [{] has a [}] behind it, the function
    returns [{ adSegments: [] }] from inside the [try] block, as a normal
    result and not through the error handler. *)
Theorem fences_and_span (s : JsString.t) :
  trimmed s (trim s)
  /\ (exists t1 t2,
        cut_leading (lit "```json") (trim s) t1
        /\ cut_leading fence t1 t2
        /\ cut_trailing fence t2 (cleanText s))
  /\ (exists pre suf,
        trim s = pre ++ cleanText s ++ suf
        /\ opening pre /\ closing suf)
  /\ (forall j,
        jsonMatch (cleanText s) = Some j <->
        exists a m b,
          cleanText s = a ++ j ++ b
          /\ j = open_brace :: m ++ [close_brace]
          /\ ~ In open_brace a /\ ~ In close_brace b)
  /\ (jsonMatch (cleanText s) = None ->
        (forall a m b,
            cleanText s <> a ++ open_brace :: m ++ close_brace :: b)
        /\ extractJSON_try (VStr s) = Normal empty_result
        /\ extractJSON (VStr s) = empty_result)
  /\ (forall j,
        jsonMatch (cleanText s) = Some j ->
        extractJSON (VStr s) = extractJSON (VStr j)
        /\ (Json.parse (jsonStr j) = None ->
            extractJSON (VStr s) = empty_result)
        /\ (forall parsed l kept,
              Json.parse (jsonStr j) = Some parsed ->
              get_prop parsed (lit "adSegments") = Normal (VArr l) ->
              filter_segments l = Normal kept ->
              segments_of (extractJSON (VStr s)) = kept))
  /\ cleanText reply_fenced = reply_backwards
  /\ cleanText reply_inner_fences = reply_inner_fences
  /\ jsonMatch (cleanText reply_inner_fences) = Some reply_backwards.
Proof.
  split; [apply trim_trimmed|].
  split.
  { rewrite cleanText_scan. unfold strip_fences.
    exists (strip_json_fence (trim s)),
           (strip_open_fence (strip_json_fence (trim s))).
    split; [apply strip_leading_cut|].
    split; [apply strip_leading_cut | apply strip_close_fence_cut]. }
  split.
  { rewrite cleanText_scan. apply strip_fences_anchored. }
  split.
  { intros j. rewrite jsonMatch_scan. split.
    - apply match_json_span_Some.
    - intros (a & m & b & -> & -> & Ha & Hb). now apply match_json_span_at. }
  split.
  { rewrite jsonMatch_scan. intros H.
    split; [now apply match_json_span_None|].
    unfold extractJSON. rewrite extractJSON_try_scan. unfold extractJSON_scan.
    rewrite <- cleanText_scan, H. split; reflexivity. }
  split.
  { intros j Hj.
    assert (Hs : extracted_json s = Json.parse (jsonStr j))
      by (unfold extracted_json; now rewrite Hj).
    split; [|split].
    - rewrite jsonMatch_scan in Hj.
      destruct (match_json_span_Some _ Hj) as (a & m & b & _ & -> & _).
      destruct (braced_span m) as [Hc Hm].
      unfold extractJSON, extractJSON_try.
      rewrite <- jsonMatch_scan in Hj. now rewrite Hj, Hc, Hm.
    - intros Hp. rewrite extractJSON_string, Hs, Hp. reflexivity.
    - intros parsed l kept Hp G F. rewrite <- Hs in Hp.
      destruct (extractJSON_success _ Hp G F) as (ps & _ & _ & H).
      exact H. }
  split; [vm_compute; reflexivity|].
  split; vm_compute; reflexivity.
Qed.

Lemma fences_and_span_witness :
  jsonMatch (cleanText (lit "} no object here {")) = None
  /\ extractJSON_try (VStr (lit "} no object here {")) = Normal empty_result
  /\ jsonMatch (cleanText reply_fenced_good)
     = Some (doc_json (seg_json (lit "1") (lit "2") (quoted "ok")))
  /\ segments_of (extractJSON (VStr reply_fenced_good)) = [good_segment].
Proof.
  assert (Hj : jsonMatch (cleanText reply_fenced_good)
               = Some (doc_json (seg_json (lit "1") (lit "2") (quoted "ok"))))
    by (vm_compute; reflexivity).
  split; [vm_compute; reflexivity|].
  split; [|split; [exact Hj|]].
  - apply (proj1 (proj2 (proj2 (proj2 (proj2
             (fences_and_span (lit "} no object here {"))))))).
    vm_compute. reflexivity.
  - apply (proj2 (proj2 (proj1 (proj2 (proj2 (proj2 (proj2 (proj2
             (fences_and_span reply_fenced_good))))))
             _ Hj)) (doc [good_segment]) [good_segment] [good_segment]);
      vm_compute; reflexivity.
Defined.

(** The claim C6 as stated fails: behind a [```json] marker a second
    marker is removed as well, although it is not at the very start of
    the text; what is cut in front of the cleaned text is more than one
    optional leading marker. *)
Lemma fences_and_span_counterexample :
  trim reply_two_markers = reply_two_markers
  /\ cleanText reply_two_markers = reply_backwards
  /\ reply_two_markers = lit "```json```" ++ cleanText reply_two_markers
  /\ (forall pre,
        reply_two_markers = pre ++ cleanText reply_two_markers ->
        ~ single_marker pre).
Proof.
  assert (Hc : cleanText reply_two_markers = reply_backwards)
    by (vm_compute; reflexivity).
  split; [vm_compute; reflexivity|]. split; [exact Hc|].
  rewrite Hc. split; [reflexivity|].
  intros pre E. unfold reply_two_markers in E.
  apply app_inv_tail in E. subst pre.
  intros [H|[(w & Hw & H)|(w & Hw & H)]].
  - discriminate H.
  - vm_compute in H. injection H as <-. vm_compute in Hw. discriminate Hw.
  - vm_compute in H. injection H as <-. vm_compute in Hw. discriminate Hw.
Qed.

End CleaningFacts.

(** ** JSON texts followed by more text *)

Module ParserFacts.
Import JsString JsStringFacts JsValue JsOps Json Delimiters RegexFacts.

Lemma delimited_head c r :
  delimited (c :: r) = true ->
  is_digit c = false /\ (c =? 46)%N = false
  /\ ((c =? 101) || (c =? 69))%N = false.
Proof.
  unfold delimited, is_json_ws, is_digit. intros H.
  repeat match type of H with
         | (_ || _)%bool = true => apply orb_true_iff in H as [H|H]
         end;
    apply N.eqb_eq in H; subst c; repeat split; reflexivity.
Qed.

(** A run that stops inside [a] stops at the same place in [a ++ b]. *)
Lemma take_while_app_some p a b :
  drop_while p a <> [] -> take_while p (a ++ b) = take_while p a.
Proof.
  induction a as [|c a IH]; simpl; [congruence|].
  destruct (p c); [|reflexivity]. intros H. now rewrite IH.
Qed.

Lemma drop_while_app_rest p a b :
  drop_while p a <> [] -> drop_while p (a ++ b) = drop_while p a ++ b.
Proof.
  induction a as [|c a IH]; simpl; [congruence|].
  destruct (p c); [exact IH | reflexivity].
Qed.

Lemma skip_ws_app s c r t :
  skip_ws s = c :: r -> skip_ws (s ++ t) = c :: r ++ t.
Proof.
  intros H. unfold skip_ws in *.
  rewrite drop_while_app_rest by (rewrite H; discriminate).
  now rewrite H.
Qed.

Lemma delimited_nonempty rest : delimited rest = true -> rest <> [].
Proof. destruct rest; [discriminate | discriminate]. Qed.

Lemma scan_exponent_app s ex rest t :
  scan_exponent s = (ex, rest) -> delimited rest = true ->
  scan_exponent (s ++ t) = (ex, rest ++ t).
Proof.
  unfold scan_exponent. destruct s as [|c r].
  { intros H; injection H as _ <-. discriminate. }
  cbn [app]. destruct (N.eqb c 101 || N.eqb c 69)%bool eqn:Ee.
  2:{ intros H; injection H as <- <-. reflexivity. }
  unfold scan_sign. destruct r as [|c1 r1].
  { simpl. intros H; injection H as _ <-. intros Hd.
    apply delimited_head in Hd as (_ & _ & Hd). congruence. }
  cbn [app].
  assert (Hrun : forall (neg : bool) (x : JsString.t),
             (if is_nil (take_while is_digit x) then (0%Z, c :: c1 :: r1)
              else ((if neg then - Z.of_N (JsNumber.digits_value 10
                                             (take_while is_digit x))
                     else Z.of_N (JsNumber.digits_value 10
                                    (take_while is_digit x)))%Z,
                    drop_while is_digit x)) = (ex, rest) ->
             delimited rest = true ->
             (if is_nil (take_while is_digit (x ++ t))
              then (0%Z, c :: c1 :: r1 ++ t)
              else ((if neg then - Z.of_N (JsNumber.digits_value 10
                                             (take_while is_digit (x ++ t)))
                     else Z.of_N (JsNumber.digits_value 10
                                    (take_while is_digit (x ++ t))))%Z,
                    drop_while is_digit (x ++ t))) = (ex, rest ++ t)).
  { intros neg x H Hd.
    destruct (is_nil (take_while is_digit x)) eqn:En.
    - injection H as _ <-.
      apply delimited_head in Hd as (_ & _ & Hd). congruence.
    - injection H as <- <-.
      pose proof (delimited_nonempty Hd) as Hne.
      rewrite take_while_app_some, drop_while_app_rest by exact Hne.
      now rewrite En. }
  destruct (c1 =? 45)%N; [exact (Hrun true r1)|].
  destruct (c1 =? 43)%N; [exact (Hrun false r1)|].
  exact (Hrun false (c1 :: r1)).
Qed.

(** A delimited rest comes from a text that does not start with a dot. *)
Lemma scan_exponent_delimited s ex rest :
  scan_exponent s = (ex, rest) -> delimited rest = true ->
  exists c r, s = c :: r /\ (c =? 46)%N = false.
Proof.
  destruct s as [|c r].
  - intros H; injection H as _ <-. discriminate.
  - intros H Hd. exists c, r. split; [reflexivity|].
    destruct (N.eqb_spec c 46) as [->|]; [|reflexivity].
    injection H as _ <-. discriminate.
Qed.

Lemma parse_number_stages s :
  parse_number s
  = let '(neg, r) := number_sign s in
    match r with
    | [] => None
    | d :: more =>
        if is_digit d then
          let '(ip, r1) := number_integer d more in
          let '(fp, r2) := number_fraction r1 in
          let '(ex, r3) := scan_exponent r2 in
          Some (JsNumber.of_decimal neg (JsNumber.digits_value 10 (ip ++ fp))
                  (ex - Z.of_nat (List.length fp)), r3)
        else None
    end.
Proof.
  unfold parse_number, number_sign. destruct s as [|c r0]; [reflexivity|].
  destruct (c =? 45)%N; [destruct r0|]; reflexivity.
Qed.

Lemma number_sign_app s neg r t :
  number_sign s = (neg, r) -> r <> [] -> number_sign (s ++ t) = (neg, r ++ t).
Proof.
  unfold number_sign. destruct s as [|c r0]; cbn [app].
  - intros E; injection E as _ <-. congruence.
  - destruct (c =? 45)%N; intros E _; injection E as <- <-; reflexivity.
Qed.

Lemma number_integer_app d more ip r1 t :
  number_integer d more = (ip, r1) -> r1 <> [] ->
  number_integer d (more ++ t) = (ip, r1 ++ t).
Proof.
  unfold number_integer. destruct (d =? 48)%N.
  - intros E _; injection E as <- <-. reflexivity.
  - intros E Hne; injection E as <- <-.
    change (d :: more ++ t) with ((d :: more) ++ t).
    now rewrite take_while_app_some, drop_while_app_rest.
Qed.

Lemma number_fraction_app r1 fp r2 t :
  number_fraction r1 = (fp, r2) ->
  (exists c r, r2 = c :: r /\ (c =? 46)%N = false) ->
  number_fraction (r1 ++ t) = (fp, r2 ++ t).
Proof.
  unfold number_fraction.
  intros H (c2 & x2 & E2 & Hdot). destruct r1 as [|c r'].
  - injection H as _ <-. discriminate.
  - cbn [app]. cbv zeta in *.
    destruct (c =? 46)%N eqn:Ec; cbn [andb] in *.
    + destruct (is_nil (take_while is_digit r')) eqn:En; cbn [negb] in *.
      * injection H as _ <-. injection E2 as -> _. congruence.
      * injection H as <- <-.
        assert (Hne : drop_while is_digit r' <> [])
          by (rewrite E2; discriminate).
        rewrite take_while_app_some, drop_while_app_rest by exact Hne.
        now rewrite En.
    + injection H as <- <-. reflexivity.
Qed.

(** A number literal followed by a delimiter is read the same with more
    text behind it. *)
Lemma parse_number_app s x rest t :
  parse_number s = Some (x, rest) -> delimited rest = true ->
  parse_number (s ++ t) = Some (x, rest ++ t).
Proof.
  rewrite !parse_number_stages. intros H Hd.
  destruct (number_sign s) as [neg r] eqn:Es.
  destruct r as [|d more]; [discriminate|].
  rewrite (@number_sign_app _ _ _ t Es) by discriminate. cbn [app].
  destruct (is_digit d) eqn:Hdig; [|discriminate].
  destruct (number_integer d more) as [ip r1] eqn:E1.
  destruct (number_fraction r1) as [fp r2] eqn:E2.
  destruct (scan_exponent r2) as [ex r3] eqn:E3.
  injection H as <- <-.
  pose proof (@scan_exponent_delimited _ _ _ E3 Hd) as Hr2.
  assert (Hr1 : r1 <> []).
  { intros ->. injection E2 as _ <-.
    destruct Hr2 as (c & r & E & _). discriminate. }
  rewrite (@number_integer_app _ _ _ _ t E1 Hr1).
  rewrite (@number_fraction_app _ _ _ t E2 Hr2).
  now rewrite (@scan_exponent_app _ _ _ t E3 Hd).
Qed.

Lemma parse_string_body_app t s : forall str rest,
  parse_string_body s = Some (str, rest) ->
  parse_string_body (s ++ t) = Some (str, rest ++ t).
Proof.
  assert (Hgen : forall n s str rest,
             List.length s <= n ->
             parse_string_body s = Some (str, rest) ->
             parse_string_body (s ++ t) = Some (str, rest ++ t));
    [|intros str rest; now apply (Hgen (List.length s))].
  clear s. induction n as [|n IH]; intros s str rest Hle.
  - destruct s; [discriminate | simpl in Hle; lia].
  - destruct s as [|c r]; [discriminate|]. simpl in Hle.
    cbn [app parse_string_body].
    destruct (c =? 34)%N.
    { intros H; injection H as <- <-. reflexivity. }
    destruct (c =? 92)%N.
    { destruct r as [|e r1]; [discriminate|]. simpl in Hle. cbn [app].
      destruct (e =? 117)%N.
      - destruct r1 as [|a [|b [|c' [|d r2]]]]; try discriminate.
        cbn [app].
        destruct (forallb is_hex [a; b; c'; d]); [|discriminate].
        destruct (parse_string_body r2) as [[str' rest']|] eqn:E;
          [|discriminate].
        intros H; injection H as <- <-.
        rewrite (IH r2 str' rest'); [reflexivity | simpl in Hle; lia | exact E].
      - destruct (escape e); [|discriminate].
        destruct (parse_string_body r1) as [[str' rest']|] eqn:E;
          [|discriminate].
        intros H; injection H as <- <-.
        rewrite (IH r1 str' rest'); [reflexivity | lia | exact E]. }
    destruct (c <? 32)%N; [discriminate|].
    destruct (parse_string_body r) as [[str' rest']|] eqn:E; [|discriminate].
    intros H; injection H as <- <-.
    rewrite (IH r str' rest'); [reflexivity | lia | exact E].
Qed.

Lemma parse_literal_app s v rest t :
  parse_literal s = POk v rest -> parse_literal (s ++ t) = POk v (rest ++ t).
Proof.
  destruct s as [|c r]; [discriminate|]. unfold parse_literal. cbn [app].
  change (strip_prefix (lit "true") (c :: r))
    with (if (116 =? c)%N then strip_prefix (lit "rue") r else None).
  change (strip_prefix (lit "true") (c :: r ++ t))
    with (if (116 =? c)%N then strip_prefix (lit "rue") (r ++ t) else None).
  change (strip_prefix (lit "false") (c :: r))
    with (if (102 =? c)%N then strip_prefix (lit "alse") r else None).
  change (strip_prefix (lit "false") (c :: r ++ t))
    with (if (102 =? c)%N then strip_prefix (lit "alse") (r ++ t) else None).
  change (strip_prefix (lit "null") (c :: r))
    with (if (110 =? c)%N then strip_prefix (lit "ull") r else None).
  change (strip_prefix (lit "null") (c :: r ++ t))
    with (if (110 =? c)%N then strip_prefix (lit "ull") (r ++ t) else None).
  assert (Happ : forall p x, strip_prefix p r = Some x ->
                             strip_prefix p (r ++ t) = Some (x ++ t)).
  { intros p x E. apply strip_prefix_Some in E. subst r.
    rewrite <- app_assoc. apply strip_prefix_app. }
  destruct (N.eqb_spec 116 c) as [<-|H1].
  { change (102 =? 116)%N with false. change (110 =? 116)%N with false.
    cbv iota.
    destruct (strip_prefix (lit "rue") r) as [x|] eqn:E; [|discriminate].
    intros H; injection H as <- <-. now rewrite (Happ _ _ E). }
  destruct (N.eqb_spec 102 c) as [<-|H2].
  { change (110 =? 102)%N with false. cbv iota.
    destruct (strip_prefix (lit "alse") r) as [x|] eqn:E; [|discriminate].
    intros H; injection H as <- <-. now rewrite (Happ _ _ E). }
  destruct (N.eqb_spec 110 c) as [<-|H3]; [|discriminate].
  destruct (strip_prefix (lit "ull") r) as [x|] eqn:E; [|discriminate].
  intros H; injection H as <- <-. now rewrite (Happ _ _ E).
Qed.

(** White space, then a comma, a bracket or a brace: the text is
    delimited. *)
Lemma skip_ws_delimited s c r :
  skip_ws s = c :: r ->
  ((c =? 44) || (c =? 93) || (c =? 125))%N = true ->
  delimited s = true.
Proof.
  unfold skip_ws. destruct s as [|x y]; [discriminate|]. cbn [drop_while].
  unfold delimited. destruct (is_json_ws x); [reflexivity|].
  intros E H; injection E as -> _. exact H.
Qed.

(** A value read from a text is read the same, with the same or more
    fuel, from the text followed by more text; for a number, provided a
    delimiter follows it. *)
Lemma parse_app_ind t f :
  (forall s v rest f',
      f <= f' -> parse_value f s = POk v rest ->
      (is_number v = true -> delimited rest = true) ->
      parse_value f' (s ++ t) = POk v (rest ++ t))
  /\ (forall acc s v rest f',
        f <= f' -> parse_elements f acc s = POk v rest ->
        parse_elements f' acc (s ++ t) = POk v (rest ++ t))
  /\ (forall acc s v rest f',
        f <= f' -> parse_members f acc s = POk v rest ->
        parse_members f' acc (s ++ t) = POk v (rest ++ t)).
Proof.
  induction f as [|f (IHv & IHe & IHm)].
  { repeat split; intros; discriminate. }
  split; [|split].
  - intros s v rest [|f'] Hle H Hnum; [lia|].
    assert (Hf : f <= f') by lia.
    cbn [parse_value] in *.
    destruct (skip_ws s) as [|c r] eqn:Ews; [discriminate|].
    rewrite (skip_ws_app _ t Ews).
    destruct (c =? 123)%N.
    { destruct (skip_ws r) as [|c' r'] eqn:Er; [discriminate|].
      rewrite (skip_ws_app _ t Er).
      destruct (c' =? 125)%N.
      - injection H as <- <-. reflexivity.
      - now apply IHm. }
    destruct (c =? 91)%N.
    { destruct (skip_ws r) as [|c' r'] eqn:Er; [discriminate|].
      rewrite (skip_ws_app _ t Er).
      destruct (c' =? 93)%N.
      - injection H as <- <-. reflexivity.
      - now apply IHe. }
    destruct (c =? 34)%N.
    { destruct (parse_string_body r) as [[str r']|] eqn:E; [|discriminate].
      injection H as <- <-.
      now rewrite (parse_string_body_app t _ E). }
    destruct ((c =? 45)%N || is_digit c).
    { destruct (parse_number (c :: r)) as [[x r']|] eqn:E; [|discriminate].
      injection H as <- <-.
      change (c :: r ++ t) with ((c :: r) ++ t).
      now rewrite (@parse_number_app _ _ _ t E (Hnum eq_refl)). }
    change (c :: r ++ t) with ((c :: r) ++ t).
    now apply parse_literal_app.
  - intros acc s v rest [|f'] Hle H; [lia|].
    assert (Hf : f <= f') by lia.
    cbn [parse_elements] in *.
    destruct (parse_value f s) as [v0 r0| |] eqn:Ev; try discriminate.
    destruct (skip_ws r0) as [|c r'] eqn:Er; [discriminate|].
    destruct (c =? 44)%N eqn:E44.
    { rewrite (IHv _ _ _ _ Hf Ev)
        by (intros _; apply (skip_ws_delimited _ Er); now rewrite E44).
      rewrite (skip_ws_app _ t Er), E44. now apply IHe. }
    destruct (c =? 93)%N eqn:E93; [|discriminate].
    rewrite (IHv _ _ _ _ Hf Ev)
      by (intros _; apply (skip_ws_delimited _ Er);
          now rewrite E93, orb_true_r).
    rewrite (skip_ws_app _ t Er), E44, E93.
    injection H as <- <-. reflexivity.
  - intros acc s v rest [|f'] Hle H; [lia|].
    assert (Hf : f <= f') by lia.
    cbn [parse_members] in *.
    destruct (skip_ws s) as [|q r] eqn:Ews; [discriminate|].
    rewrite (skip_ws_app _ t Ews).
    destruct (q =? 34)%N; [|discriminate].
    destruct (parse_string_body r) as [[key r1]|] eqn:E; [|discriminate].
    rewrite (parse_string_body_app t _ E).
    destruct (skip_ws r1) as [|c r2] eqn:E1; [discriminate|].
    rewrite (skip_ws_app _ t E1).
    destruct (c =? 58)%N; [|discriminate].
    destruct (parse_value f r2) as [v0 r3| |] eqn:Ev; try discriminate.
    destruct (skip_ws r3) as [|c' r4] eqn:E3; [discriminate|].
    destruct (c' =? 44)%N eqn:E44.
    { rewrite (IHv _ _ _ _ Hf Ev)
        by (intros _; apply (skip_ws_delimited _ E3); now rewrite E44).
      rewrite (skip_ws_app _ t E3), E44. now apply IHm. }
    destruct (c' =? 125)%N eqn:E125; [|discriminate].
    rewrite (IHv _ _ _ _ Hf Ev)
      by (intros _; apply (skip_ws_delimited _ E3);
          now rewrite E125, !orb_true_r).
    rewrite (skip_ws_app _ t E3), E44, E125.
    injection H as <- <-. reflexivity.
Qed.

(** An array or an object is read, never a number. *)
Lemma parse_compound_ind f :
  (forall acc s v rest,
      parse_elements f acc s = POk v rest -> is_number v = false)
  /\ (forall acc s v rest,
        parse_members f acc s = POk v rest -> is_number v = false).
Proof.
  induction f as [|f [IHe IHm]].
  { split; intros; discriminate. }
  split.
  - intros acc s v rest. cbn [parse_elements].
    destruct (parse_value f s) as [v0 r0| |]; try discriminate.
    destruct (skip_ws r0) as [|c r']; [discriminate|].
    destruct (c =? 44)%N; [apply IHe|].
    destruct (c =? 93)%N; [|discriminate].
    intros H; injection H as <- _. reflexivity.
  - intros acc s v rest. cbn [parse_members].
    destruct (skip_ws s) as [|q r]; [discriminate|].
    destruct (q =? 34)%N; [|discriminate].
    destruct (parse_string_body r) as [[key r1]|]; [|discriminate].
    destruct (skip_ws r1) as [|c r2]; [discriminate|].
    destruct (c =? 58)%N; [|discriminate].
    destruct (parse_value f r2) as [v0 r3| |]; try discriminate.
    destruct (skip_ws r3) as [|c' r4]; [discriminate|].
    destruct (c' =? 44)%N; [apply IHm|].
    destruct (c' =? 125)%N; [|discriminate].
    intros H; injection H as <- _. reflexivity.
Qed.

Lemma parse_value_braced f r v rest :
  parse_value f (123%N :: r) = POk v rest -> is_number v = false.
Proof.
  destruct f as [|f]; [discriminate|]. cbn [parse_value].
  change (skip_ws (123%N :: r)) with (123%N :: r).
  change (123 =? 123)%N with true. cbv iota.
  destruct (skip_ws r) as [|c' r']; [discriminate|].
  destruct (c' =? 125)%N.
  - intros H; injection H as <- _. reflexivity.
  - apply (proj2 (parse_compound_ind f)).
Qed.

Lemma drop_while_nil_all p (l : JsString.t) :
  drop_while p l = [] -> forallb p l = true.
Proof.
  induction l as [|c r IH]; simpl; [reflexivity|].
  destruct (p c); [exact IH | discriminate].
Qed.

(** A text that parses as an object does not parse any more with text
    other than white space behind it. *)
Lemma parse_followed (r t : JsString.t) v :
  Json.parse (123%N :: r) = Some v ->
  skip_ws t <> [] ->
  Json.parse ((123%N :: r) ++ t) = None.
Proof.
  assert (Hbr : forall f v0 rest,
             parse_value f (123%N :: r) = POk v0 rest ->
             is_number v0 = false) by (intros f; apply parse_value_braced).
  remember (123%N :: r) as j eqn:Ej. clear Ej.
  unfold parse. intros H Ht.
  destruct (parse_value (parse_fuel j) j) as [v0 rest| |] eqn:E;
    try discriminate.
  destruct (skip_ws rest) as [|x y] eqn:Er; [|discriminate].
  assert (Hle : parse_fuel j <= parse_fuel (j ++ t)).
  { unfold parse_fuel. rewrite length_app.
    apply Nat.add_le_mono_r, Nat.mul_le_mono_l, Nat.le_add_r. }
  assert (Hp : parse_value (parse_fuel (j ++ t)) (j ++ t)
               = POk v0 (rest ++ t)).
  { apply (proj1 (parse_app_ind t (parse_fuel j)) _ _ _ _ Hle E).
    rewrite (Hbr _ _ _ E). discriminate. }
  match goal with
  | |- context [parse_value ?f ?x] =>
      replace (parse_value f x) with (POk v0 (rest ++ t))
        by (symmetry; exact Hp)
  end.
  unfold skip_ws in *.
  rewrite drop_while_app_all by (now apply drop_while_nil_all).
  destruct (drop_while is_json_ws t); [congruence | reflexivity].
Qed.

End ParserFacts.

(** ** Text behind the object *)

Module TrailingFacts.
Import JsString JsStringFacts JsValue JsValue.Notations JsOps Server Scan Views.
Import SpanFacts RegexFacts ParserFacts ReplyFacts Samples.

(** X3. The span runs to the last [}] of the reply.  When an object that
    parses is followed by more text holding a [}], a second object for
    instance, the span holds both, it is not JSON, and the result is
    [{ adSegments: [] }]: the segments of the first object are lost.  (The
    statement is for a span that the five repairs leave as it is.) *)
Theorem text_behind_object_empties (a m b1 b2 : JsString.t) (v : value) :
  ~ In open_brace a ->
  ~ In close_brace b2 ->
  Json.parse (open_brace :: m ++ [close_brace]) = Some v ->
  jsonStr ((open_brace :: m ++ [close_brace]) ++ b1 ++ [close_brace])
  = (open_brace :: m ++ [close_brace]) ++ b1 ++ [close_brace] ->
  jsonMatch (cleanText (a ++ ((open_brace :: m ++ [close_brace])
                              ++ b1 ++ [close_brace]) ++ b2))
  = Some ((open_brace :: m ++ [close_brace]) ++ b1 ++ [close_brace])
  /\ extractJSON (VStr (a ++ ((open_brace :: m ++ [close_brace])
                              ++ b1 ++ [close_brace]) ++ b2))
     = empty_result.
Proof.
  intros Ha Hb Hv Hrep.
  assert (Hspan : (open_brace :: m ++ [close_brace]) ++ b1 ++ [close_brace]
                  = open_brace :: (m ++ [close_brace] ++ b1)
                    ++ [close_brace]).
  { simpl. now rewrite <- !app_assoc. }
  assert (Hm : jsonMatch
                 (cleanText (a ++ ((open_brace :: m ++ [close_brace])
                                   ++ b1 ++ [close_brace]) ++ b2))
               = Some ((open_brace :: m ++ [close_brace])
                       ++ b1 ++ [close_brace])).
  { rewrite Hspan. now apply jsonMatch_around. }
  split; [exact Hm|].
  assert (Hp : Json.parse ((open_brace :: m ++ [close_brace])
                           ++ b1 ++ [close_brace]) = None).
  { apply (@parse_followed (m ++ [close_brace]) (b1 ++ [close_brace]) v Hv).
    unfold Json.skip_ws. intros H.
    apply drop_while_nil_all in H. rewrite forallb_app in H.
    apply andb_true_iff in H as [_ H]. discriminate H. }
  unfold extractJSON, extractJSON_try. rewrite Hm, Hrep, Hp. reflexivity.
Qed.

Lemma text_behind_object_empties_witness :
  Json.parse (open_brace :: Scenes.clean_inside ++ [close_brace])
  = Some (doc [seg (num 125 (-1)) (num 20 0) (VStr (lit "x"))])
  /\ extractJSON (VStr (open_brace :: Scenes.clean_inside ++ [close_brace]))
     = doc [seg (num 125 (-1)) (num 20 0) (VStr (lit "x"))]
  /\ extractJSON
       (VStr (lit "Either "
              ++ ((open_brace :: Scenes.clean_inside ++ [close_brace])
                  ++ Scenes.second_object ++ [close_brace])
              ++ lit "."))
     = empty_result.
Proof.
  assert (Hv : Json.parse (open_brace :: Scenes.clean_inside ++ [close_brace])
               = Some (doc [seg (num 125 (-1)) (num 20 0) (VStr (lit "x"))]))
    by (vm_compute; reflexivity).
  split; [exact Hv|]. split; [vm_compute; reflexivity|].
  refine (proj2 (@text_behind_object_empties (lit "Either ")
                   Scenes.clean_inside Scenes.second_object (lit ".")
                   _ _ _ Hv _)).
  - intros H. vm_compute in H. intuition discriminate.
  - intros H. vm_compute in H. intuition discriminate.
  - vm_compute. reflexivity.
Defined.

End TrailingFacts.

(** ** The order of the keys *)

Module OrderFacts.
Import JsString JsStringFacts JsValue PropFacts Shape.

Lemma json_value_arr l : json_value (VArr l) <-> Forall json_value l.
Proof.
  induction l as [|x r IH]; simpl.
  - split; auto.
  - split.
    + intros [Hx Hr]. constructor; [exact Hx | now apply IH].
    + intros H. inversion H; subst. split; [assumption | now apply IH].
Qed.

Lemma json_value_obj ps :
  json_value (VObj ps)
  <-> ordered ps /\ Forall (fun kv => json_value (snd kv)) ps.
Proof.
  simpl. apply and_iff_compat_l.
  induction ps as [|[k x] r IH]; simpl.
  - split; auto.
  - split.
    + intros [Hx Hr]. constructor; [exact Hx | now apply IH].
    + intros H. inversion H; subst. split; [assumption | now apply IH].
Qed.

Lemma exact_numbers_arr l : exact_numbers (VArr l) <-> Forall exact_numbers l.
Proof.
  induction l as [|x r IH]; simpl.
  - split; auto.
  - split.
    + intros [Hx Hr]. constructor; [exact Hx | now apply IH].
    + intros H. inversion H; subst. split; [assumption | now apply IH].
Qed.

Lemma exact_numbers_obj ps :
  exact_numbers (VObj ps) <-> Forall (fun kv => exact_numbers (snd kv)) ps.
Proof.
  induction ps as [|[k x] r IH]; simpl.
  - split; auto.
  - split.
    + intros [Hx Hr]. constructor; [exact Hx | now apply IH].
    + intros H. inversion H; subst. split; [assumption | now apply IH].
Qed.

(** Induction on values, with the elements and the property values as
    induction hypotheses. *)
Lemma value_induction (P : value -> Prop) :
  P VUndefined -> P VNull -> (forall b, P (VBool b)) ->
  (forall x, P (VNum x)) -> (forall s, P (VStr s)) ->
  (forall l, Forall P l -> P (VArr l)) ->
  (forall ps, Forall (fun kv => P (snd kv)) ps -> P (VObj ps)) ->
  forall v, P v.
Proof.
  intros Hu Hn Hb Hx Hs Ha Ho.
  fix IH 1. intros [| |b|x|s|l|ps].
  - exact Hu.
  - exact Hn.
  - apply Hb.
  - apply Hx.
  - apply Hs.
  - apply Ha. induction l as [|y r IHl]; constructor; [apply IH | exact IHl].
  - apply Ho. induction ps as [|[k y] r IHl]; constructor;
      [apply IH | exact IHl].
Qed.

(** *** Array indices *)

Lemma digit_value_digit c :
  is_digit c = true -> (JsNumber.digit_value c = c - 48 /\ 48 <= c <= 57)%N.
Proof.
  unfold is_digit, JsNumber.digit_value. intros H. rewrite H.
  apply andb_true_iff in H as [H1 H2].
  apply N.leb_le in H1, H2. auto.
Qed.

Lemma digits_value_snoc ds d :
  JsNumber.digits_value 10 (ds ++ [d])
  = (JsNumber.digits_value 10 ds * 10 + JsNumber.digit_value d)%N.
Proof. unfold JsNumber.digits_value. now rewrite fold_left_app. Qed.

(** Two runs of digits of the same length and value are the same. *)
Lemma digits_value_inj_length a : forall b,
  forallb is_digit a = true -> forallb is_digit b = true ->
  List.length a = List.length b ->
  JsNumber.digits_value 10 a = JsNumber.digits_value 10 b -> a = b.
Proof.
  induction a as [|x a IH] using rev_ind; intros b Ha Hb Hlen Hv.
  - destruct b; [reflexivity | discriminate].
  - destruct b as [|y b _] using rev_ind.
    { rewrite length_app in Hlen. simpl in Hlen. lia. }
    rewrite !length_app in Hlen. simpl in Hlen.
    rewrite forallb_app in Ha, Hb. simpl in Ha, Hb.
    apply andb_true_iff in Ha as [Ha Hx], Hb as [Hb Hy].
    rewrite andb_true_r in Hx, Hy.
    rewrite !digits_value_snoc in Hv.
    destruct (digit_value_digit _ Hx) as [Ex Rx].
    destruct (digit_value_digit _ Hy) as [Ey Ry].
    rewrite Ex, Ey in Hv.
    assert (x = y) by lia. subst y.
    assert (JsNumber.digits_value 10 a = JsNumber.digits_value 10 b) by lia.
    f_equal. apply IH; auto. lia.
Qed.

Lemma digits_value_bound ds :
  forallb is_digit ds = true ->
  (JsNumber.digits_value 10 ds < 10 ^ N.of_nat (List.length ds))%N.
Proof.
  induction ds as [|x ds IH] using rev_ind; intros H.
  - vm_compute. reflexivity.
  - rewrite forallb_app in H. simpl in H.
    apply andb_true_iff in H as [H Hx]. rewrite andb_true_r in Hx.
    rewrite digits_value_snoc, length_app. simpl List.length.
    destruct (digit_value_digit _ Hx) as [Ex Rx]. rewrite Ex.
    specialize (IH H).
    replace (N.of_nat (List.length ds + 1)) with (N.succ (N.of_nat (List.length ds)))
      by lia.
    rewrite N.pow_succ_r'. lia.
Qed.

Lemma digits_value_cons c ds :
  JsNumber.digits_value 10 (c :: ds)
  = (JsNumber.digit_value c * 10 ^ N.of_nat (List.length ds)
     + JsNumber.digits_value 10 ds)%N.
Proof.
  revert c. induction ds as [|x ds IH] using rev_ind; intros c.
  - simpl. unfold JsNumber.digits_value. simpl. lia.
  - change (c :: ds ++ [x]) with ((c :: ds) ++ [x]).
    rewrite !digits_value_snoc, IH, length_app. simpl List.length.
    replace (N.of_nat (List.length ds + 1)) with (N.succ (N.of_nat (List.length ds)))
      by lia.
    rewrite N.pow_succ_r'. lia.
Qed.

(** A run of digits that does not start with a zero is at least
    [10^(length - 1)]. *)
Lemma digits_value_low c ds :
  is_digit c = true -> (c =? 48)%N = false ->
  (10 ^ N.of_nat (List.length ds) <= JsNumber.digits_value 10 (c :: ds))%N.
Proof.
  intros Hc H0. rewrite digits_value_cons.
  destruct (digit_value_digit _ Hc) as [Ec Rc]. rewrite Ec.
  apply N.eqb_neq in H0.
  assert (1 <= c - 48)%N by lia.
  assert (0 < 10 ^ N.of_nat (List.length ds))%N
    by (apply N.neq_0_lt_0, N.pow_nonzero; lia).
  nia.
Qed.

Lemma array_index_Some k n :
  array_index k = Some n ->
  exists c r, k = c :: r
    /\ forallb is_digit k = true
    /\ ((c =? 48)%N = false \/ r = [])
    /\ n = JsNumber.digits_value 10 k.
Proof.
  unfold array_index. destruct k as [|c r]; [discriminate|].
  destruct (forallb is_digit (c :: r)) eqn:Hd; [|discriminate].
  destruct (negb (c =? 48)%N || match r with [] => true | _ => false end) eqn:Hz;
    [|discriminate].
  cbn [andb]. destruct (_ <=? _)%N; [|discriminate].
  intros H; injection H as <-. exists c, r. repeat split; auto.
  apply orb_true_iff in Hz as [Hz|Hz].
  - left. now apply negb_true_iff.
  - right. destruct r; [reflexivity | discriminate].
Qed.

(** The key of an array index is its decimal notation, and no other. *)
Lemma array_index_inj k k' n :
  array_index k = Some n -> array_index k' = Some n -> k = k'.
Proof.
  intros H H'.
  destruct (array_index_Some _ H) as (c & r & -> & Hd & Hz & ->).
  destruct (array_index_Some _ H') as (c' & r' & -> & Hd' & Hz' & Hv).
  assert (Hc : is_digit c = true)
    by (simpl in Hd; now apply andb_true_iff in Hd as [? _]).
  assert (Hc' : is_digit c' = true)
    by (simpl in Hd'; now apply andb_true_iff in Hd' as [? _]).
  assert (Hr : forallb is_digit r = true)
    by (simpl in Hd; now apply andb_true_iff in Hd as [_ ?]).
  assert (Hr' : forallb is_digit r' = true)
    by (simpl in Hd'; now apply andb_true_iff in Hd' as [_ ?]).
  assert (Hlen : List.length r = List.length r').
  { pose proof (digits_value_bound _ Hd) as B.
    pose proof (digits_value_bound _ Hd') as B'.
    simpl List.length in B, B'.
    destruct (Nat.lt_trichotomy (List.length r) (List.length r'))
      as [Hlt|[Heq|Hgt]]; [exfalso|exact Heq|exfalso].
    - destruct Hz' as [Hz'| ->]; [|simpl in Hlt; lia].
      pose proof (@digits_value_low c' r' Hc' Hz') as L.
      assert (10 ^ N.of_nat (S (List.length r)) <= 10 ^ N.of_nat (List.length r'))%N
        by (apply N.pow_le_mono_r; lia).
      lia.
    - destruct Hz as [Hz| ->]; [|simpl in Hgt; lia].
      pose proof (@digits_value_low c r Hc Hz) as L.
      assert (10 ^ N.of_nat (S (List.length r')) <= 10 ^ N.of_nat (List.length r))%N
        by (apply N.pow_le_mono_r; lia).
      lia. }
  apply digits_value_inj_length; auto. simpl. now rewrite Hlen.
Qed.

(** *** Keys in enumeration order *)

Lemma has_own_false ps k : has_own ps k = false <-> ~ In k (map fst ps).
Proof.
  unfold has_own. induction ps as [|[k' v'] r IH]; simpl.
  - split; [intros _ [] | reflexivity].
  - destruct (JsString.eqb k' k) eqn:E.
    + apply eqb_eq in E. split; [discriminate | intros H; exfalso; auto].
    + apply eqb_neq in E. rewrite IH. split.
      * intros H [H1|H1]; [congruence | auto].
      * intros H H1. apply H. now right.
Qed.

Lemma ordered_from_index b ks k rest i :
  ordered_from b (ks ++ k :: rest) = true ->
  array_index k = Some i ->
  Forall (fun k' => exists j, array_index k' = Some j /\ (j < i)%N) ks
  /\ match b with Some x => (x < i)%N | None => True end.
Proof.
  revert b. induction ks as [|k0 ks IH]; intros b H Hi; simpl in H.
  - rewrite Hi in H. apply andb_true_iff in H as [H _].
    split; [constructor|]. destruct b; [now apply N.ltb_lt | exact I].
  - destruct (array_index k0) as [j|] eqn:E.
    + apply andb_true_iff in H as [Hb H].
      destruct (IH _ H Hi) as [Hall Hj]. split.
      * constructor; [eauto | exact Hall].
      * destruct b; [|exact I]. apply N.ltb_lt in Hb. lia.
    + rewrite forallb_app in H. simpl in H. rewrite Hi in H. simpl in H.
      rewrite andb_false_r in H. discriminate.
Qed.

Lemma insert_index_end ps i k v :
  Forall (fun kv => exists j, array_index (fst kv) = Some j /\ (j < i)%N) ps ->
  insert_index ps i k v = ps ++ [(k, v)].
Proof.
  induction 1 as [|[k0 v0] r (j & E & Hj) _ IH]; simpl; [reflexivity|].
  simpl in E. rewrite E.
  apply N.ltb_lt in Hj. now rewrite Hj, IH.
Qed.

(** Assigning the next property of an ordered list puts it at the end. *)
Lemma assign_next p k v q :
  ordered (p ++ (k, v) :: q) -> obj_set p k v = p ++ [(k, v)].
Proof.
  intros [Hnd Hord]. rewrite map_app in Hnd, Hord. simpl in Hnd, Hord.
  unfold obj_set.
  assert (Hno : has_own p k = false).
  { apply has_own_false. apply NoDup_remove_2 in Hnd.
    intros H. apply Hnd. apply in_or_app. now left. }
  rewrite Hno.
  destruct (array_index k) as [i|] eqn:E; [|reflexivity].
  apply insert_index_end.
  destruct (ordered_from_index _ _ _ _ Hord E) as [Hall _].
  rewrite Forall_map in Hall. exact Hall.
Qed.

Lemma rebuild_from q : forall p,
  ordered (p ++ q) -> fold_left assign q p = p ++ q.
Proof.
  induction q as [|[k v] q IH]; intros p H; simpl.
  - now rewrite app_nil_r.
  - unfold assign at 2. simpl. rewrite (assign_next _ _ _ _ H).
    rewrite IH; rewrite <- app_assoc; [reflexivity | exact H].
Qed.

(** An ordered list of properties is rebuilt by its own assignments. *)
Lemma rebuild_ordered ps : ordered ps -> rebuild ps = ps.
Proof. intros H. unfold rebuild. now apply (rebuild_from ps []). Qed.

Lemma ordered_from_named b ks k :
  ordered_from b ks = true -> array_index k = None ->
  ordered_from b (ks ++ [k]) = true.
Proof.
  revert b. induction ks as [|k0 ks IH]; intros b H Hk; simpl in *.
  - now rewrite Hk.
  - destruct (array_index k0).
    + apply andb_true_iff in H as [H1 H2]. rewrite H1. simpl. now apply IH.
    + rewrite forallb_app, H. simpl. now rewrite Hk.
Qed.

Lemma ordered_from_weaken b ks :
  ordered_from b ks = true -> ordered_from None ks = true.
Proof.
  destruct ks as [|k ks]; simpl; [reflexivity|].
  destruct (array_index k); [|auto].
  intros H. apply andb_true_iff in H as [_ H]. exact H.
Qed.

Lemma insert_index_split ps i k v :
  exists a1 a2, ps = a1 ++ a2 /\ insert_index ps i k v = a1 ++ (k, v) :: a2.
Proof.
  induction ps as [|[k0 v0] r (a1 & a2 & E & H)]; simpl.
  - exists [], []. split; reflexivity.
  - destruct (array_index k0) as [j|].
    + destruct (j <? i)%N.
      * exists ((k0, v0) :: a1), a2. split; [now rewrite E | now rewrite H].
      * exists [], ((k0, v0) :: r). split; reflexivity.
    + exists [], ((k0, v0) :: r). split; reflexivity.
Qed.

Lemma ordered_from_insert ps i k v : forall b,
  ordered_from b (map fst ps) = true ->
  match b with Some x => (x < i)%N | None => True end ->
  array_index k = Some i ->
  ~ In k (map fst ps) ->
  ordered_from b (map fst (insert_index ps i k v)) = true.
Proof.
  induction ps as [|[k0 v0] r IH]; intros b H Hb Hk Hno; simpl in *.
  - rewrite Hk. rewrite andb_true_r.
    destruct b; [now apply N.ltb_lt | reflexivity].
  - destruct (array_index k0) as [j|] eqn:E.
    + apply andb_true_iff in H as [H1 H2].
      destruct (j <? i)%N eqn:Hji; simpl.
      * rewrite E, H1. simpl. apply IH; auto. now apply N.ltb_lt.
      * rewrite Hk. simpl. rewrite E.
        assert (Hne : j <> i).
        { intros ->. apply Hno. left. exact (array_index_inj _ _ E Hk). }
        apply N.ltb_ge in Hji.
        assert (Hij : (i <? j)%N = true) by (apply N.ltb_lt; lia).
        rewrite Hij, H2.
        destruct b; [|reflexivity].
        rewrite andb_true_r. now apply N.ltb_lt.
    + simpl. rewrite Hk. simpl. rewrite E, H.
      destruct b; [|reflexivity].
      rewrite andb_true_r. now apply N.ltb_lt.
Qed.

Lemma replace_own_keys ps k v : map fst (replace_own ps k v) = map fst ps.
Proof.
  induction ps as [|[k' v'] r IH]; simpl; [reflexivity|].
  destruct (JsString.eqb k' k); simpl; [reflexivity | now rewrite IH].
Qed.

(** An assignment keeps the properties in order. *)
Lemma ordered_obj_set ps k v : ordered ps -> ordered (obj_set ps k v).
Proof.
  intros [Hnd Hord]. unfold obj_set.
  destruct (has_own ps k) eqn:Hown.
  - unfold ordered. rewrite replace_own_keys. now split.
  - apply has_own_false in Hown.
    destruct (array_index k) as [i|] eqn:E.
    + split.
      * destruct (insert_index_split ps i k v) as (a1 & a2 & Hps & ->).
        rewrite map_app. simpl. subst ps. rewrite map_app in *.
        apply (NoDup_Add (Add_app k _ _)). now split.
      * now apply ordered_from_insert.
    + split.
      * rewrite map_app. simpl.
        apply (NoDup_Add (a := k) (l := map fst ps)).
        { rewrite <- (app_nil_r (map fst ps)) at 1. apply Add_app. }
        now split.
      * rewrite map_app. simpl. now apply ordered_from_named.
Qed.

Lemma ordered_nil : ordered [].
Proof. split; [constructor | reflexivity]. Qed.

(** The order only depends on the keys. *)
Lemma ordered_keys ps qs : map fst ps = map fst qs -> ordered ps -> ordered qs.
Proof. unfold ordered. now intros ->. Qed.

End OrderFacts.

(** ** Serialized texts *)

Module LexFacts.
Import JsString JsStringFacts JsValue Json Server Scan Lexer Shape OrderFacts.

Lemma stringify_arr l :
  stringify (VArr l)
  = Some (lit "[" ++ join (lit ",") (map element_text l) ++ lit "]").
Proof. reflexivity. Qed.

Lemma stringify_obj ps :
  stringify (VObj ps)
  = Some (lit "{" ++ join (lit ",") (flat_map member_texts ps) ++ lit "}").
Proof.
  cbn [stringify]. do 4 f_equal.
  induction ps as [|[k x] r IH]; [reflexivity|].
  cbn [flat_map]. unfold member_texts at 1. cbn [fst snd].
  destruct (stringify x); cbn [app]; now rewrite IH.
Qed.

Lemma lex_run_app q a b :
  lex_run q (a ++ b)
  = match lex_run q a with Some q' => lex_run q' b | None => None end.
Proof.
  revert q. induction a as [|c a IH]; intros q; simpl; [reflexivity|].
  destruct (lex_step q c); [apply IH | reflexivity].
Qed.

Lemma plain_step c :
  is_plain c = true ->
  lex_step Fresh c = Some Behind /\ lex_step Opened c = Some Behind
  /\ lex_step Behind c = Some Behind.
Proof.
  intros H. unfold lex_step. rewrite H, !orb_true_r.
  assert (H34 : (c =? 34)%N = false).
  { destruct (N.eqb_spec c 34) as [->|]; [discriminate H | reflexivity]. }
  assert (H91 : (c =? 91)%N = false).
  { destruct (N.eqb_spec c 91) as [->|]; [discriminate H | reflexivity]. }
  assert (H123 : (c =? 123)%N = false).
  { destruct (N.eqb_spec c 123) as [->|]; [discriminate H | reflexivity]. }
  assert (H44 : (c =? 44)%N = false).
  { destruct (N.eqb_spec c 44) as [->|]; [discriminate H | reflexivity]. }
  assert (H58 : (c =? 58)%N = false).
  { destruct (N.eqb_spec c 58) as [->|]; [discriminate H | reflexivity]. }
  rewrite H34, H91, H123, H44, H58. repeat split.
Qed.

Lemma plain_run_behind s :
  forallb is_plain s = true -> lex_run Behind s = Some Behind.
Proof.
  induction s as [|c r IH]; cbn [lex_run forallb]; [reflexivity|].
  intros H. apply andb_true_iff in H as [Hc Hr].
  destruct (plain_step _ Hc) as (_ & _ & ->). now apply IH.
Qed.

(** A text of plain code units is read as one value. *)
Lemma plain_run s :
  forallb is_plain s = true -> s <> [] ->
  lex_run Fresh s = Some Behind /\ lex_run Opened s = Some Behind.
Proof.
  destruct s as [|c r]; [congruence|]. cbn [lex_run forallb]. intros H _.
  apply andb_true_iff in H as [Hc Hr].
  destruct (plain_step _ Hc) as (-> & -> & _).
  split; now apply plain_run_behind.
Qed.

Lemma digit_plain c : is_digit c = true -> is_plain c = true.
Proof. intros H. unfold is_plain. now rewrite H. Qed.

Lemma digits_plain s : forallb is_digit s = true -> forallb is_plain s = true.
Proof.
  induction s as [|c r IH]; simpl; [reflexivity|].
  intros H. apply andb_true_iff in H as [Hc Hr].
  now rewrite (digit_plain _ Hc), IH.
Qed.

(** *** The text of a number *)

Lemma dec_digits_aux_digits fuel : forall n acc,
  forallb is_digit acc = true ->
  forallb is_digit (JsNumber.dec_digits_aux fuel n acc) = true
  /\ exists pre, JsNumber.dec_digits_aux fuel n acc = pre ++ acc.
Proof.
  induction fuel as [|f IH]; intros n acc H; cbn [JsNumber.dec_digits_aux].
  - split; [exact H | now exists []].
  - assert (Hd : is_digit (48 + n mod 10)%N = true).
    { unfold is_digit. pose proof (N.mod_lt n 10 ltac:(discriminate)).
      apply andb_true_iff.
      split; apply N.leb_le; generalize dependent (n mod 10)%N; intros; lia. }
    assert (H' : forallb is_digit ((48 + n mod 10)%N :: acc) = true)
      by (cbn [forallb]; now rewrite Hd, H).
    destruct (n / 10 =? 0)%N.
    + split; [exact H' | now exists [(48 + n mod 10)%N]].
    + destruct (IH (n / 10)%N _ H') as [H1 [pre H2]].
      split; [exact H1|]. exists (pre ++ [(48 + n mod 10)%N]).
      now rewrite H2, <- app_assoc.
Qed.

Lemma dec_digits_digits n :
  forallb is_digit (JsNumber.dec_digits n) = true
  /\ JsNumber.dec_digits n <> [].
Proof.
  unfold JsNumber.dec_digits.
  split; [now apply dec_digits_aux_digits|].
  cbn [JsNumber.dec_digits_aux].
  destruct (n / 10 =? 0)%N; [discriminate|].
  assert (Hd : forallb is_digit [(48 + n mod 10)%N] = true).
  { pose proof (N.mod_lt n 10 ltac:(discriminate)). unfold is_digit.
    cbn [forallb]. rewrite andb_true_r. apply andb_true_iff.
    split; apply N.leb_le; generalize dependent (n mod 10)%N; intros; lia. }
  destruct (proj2 (dec_digits_aux_digits (N.to_nat (N.log2 n)) (n / 10)%N
                     _ Hd)) as [pre E].
  intros Hnil. pose proof (eq_trans (eq_sym E) Hnil) as Hp.
  destruct pre; discriminate Hp.
Qed.

Lemma forallb_firstn (p : code_unit -> bool) n l :
  forallb p l = true -> forallb p (firstn n l) = true.
Proof.
  revert n. induction l as [|c r IH]; intros [|n]; simpl; auto.
  intros H. apply andb_true_iff in H as [-> Hr]. now apply IH.
Qed.

Lemma forallb_skipn (p : code_unit -> bool) n l :
  forallb p l = true -> forallb p (skipn n l) = true.
Proof.
  revert n. induction l as [|c r IH]; intros [|n]; simpl; auto.
  intros H. apply andb_true_iff in H as [_ Hr]. now apply IH.
Qed.

Lemma zeros_plain n : forallb is_plain (JsNumber.zeros n) = true.
Proof.
  unfold JsNumber.zeros. induction (Z.to_nat n); simpl; auto.
Qed.

Lemma format_digits_plain ds n :
  forallb is_digit ds = true -> ds <> [] ->
  forallb is_plain (JsNumber.format_digits ds n) = true
  /\ JsNumber.format_digits ds n <> [].
Proof.
  intros Hd Hne. apply digits_plain in Hd as Hp.
  unfold JsNumber.format_digits.
  destruct (_ && _).
  { split.
    - now rewrite forallb_app, Hp, zeros_plain.
    - destruct ds; [congruence | discriminate]. }
  destruct (_ && _).
  { split.
    - rewrite !forallb_app, forallb_firstn, forallb_skipn by exact Hp.
      reflexivity.
    - intros H. apply app_eq_nil in H as [_ H]. discriminate H. }
  destruct (_ && _).
  { split; [|discriminate].
    rewrite !forallb_app, zeros_plain, Hp. reflexivity. }
  destruct (dec_digits_digits (Z.to_N (Z.abs (n - 1)))) as [He _].
  apply digits_plain in He.
  split.
  - rewrite !forallb_app, He.
    assert (Hm : forallb is_plain
                   match ds with
                   | [] => []
                   | [d] => [d]
                   | d :: (_ :: _) as rest => d :: lit "." ++ rest
                   end = true).
    { destruct ds as [|d [|d' rest]]; [reflexivity | exact Hp|].
      simpl in Hp |- *. apply andb_true_iff in Hp as [-> ->]. reflexivity. }
    rewrite Hm. destruct (n - 1 <? 0)%Z; reflexivity.
  - intros H. apply app_eq_nil in H as [_ H]. discriminate H.
Qed.

Lemma toString_plain x :
  is_finite x = true ->
  forallb is_plain (JsNumber.toString x) = true
  /\ JsNumber.toString x <> [].
Proof.
  destruct x as [s|s| |s m e]; try discriminate; intros _.
  - split; [reflexivity | discriminate].
  - unfold JsNumber.toString.
    destruct (JsNumber.shortest_from 17 m e (JsNumber.magnitude m e) 1)
      as [d n].
    destruct (dec_digits_digits d) as [Hd Hne].
    destruct (format_digits_plain n Hd Hne) as [Hp Hn].
    split.
    + rewrite forallb_app, Hp. destruct s; reflexivity.
    + intros H. apply app_eq_nil in H as [_ H]. contradiction.
Qed.

(** *** The text of a string *)

Lemma hex_digit_inside n :
  (n < 16)%N -> lex_step Inside (hex_digit n) = Some Inside.
Proof.
  intros H. unfold lex_step, hex_digit.
  destruct (N.ltb_spec n 10).
  - replace (48 + n =? 34)%N with false by (symmetry; apply N.eqb_neq; lia).
    replace (48 + n =? 92)%N with false by (symmetry; apply N.eqb_neq; lia).
    reflexivity.
  - replace (87 + n =? 34)%N with false by (symmetry; apply N.eqb_neq; lia).
    replace (87 + n =? 92)%N with false by (symmetry; apply N.eqb_neq; lia).
    reflexivity.
Qed.

Lemma unicode_escape_lex c rest :
  lex_run Inside (unicode_escape c ++ rest) = lex_run Inside rest.
Proof.
  unfold unicode_escape. cbn [app lex_run].
  change (lex_step Inside 92%N) with (Some Escaped). cbv iota.
  change (lex_step Escaped 117%N) with (Some Inside). cbv iota.
  rewrite !hex_digit_inside by (apply N.mod_lt; discriminate).
  reflexivity.
Qed.

Lemma quote_unit_lex c rest :
  lex_run Inside (quote_unit c ++ rest) = lex_run Inside rest.
Proof.
  unfold quote_unit.
  destruct (c =? 8)%N; [reflexivity|].
  destruct (c =? 9)%N; [reflexivity|].
  destruct (c =? 10)%N; [reflexivity|].
  destruct (c =? 12)%N; [reflexivity|].
  destruct (c =? 13)%N; [reflexivity|].
  destruct (c =? 34)%N eqn:E34; [reflexivity|].
  destruct (c =? 92)%N eqn:E92; [reflexivity|].
  destruct (_ || _); [apply unicode_escape_lex|].
  cbn [app lex_run]. unfold lex_step. now rewrite E34, E92.
Qed.

Lemma surrogate_inside c :
  is_high_surrogate c = true \/ is_low_surrogate c = true ->
  lex_step Inside c = Some Inside.
Proof.
  unfold is_high_surrogate, is_low_surrogate, lex_step.
  intros [H|H]; apply andb_true_iff in H as [H1 H2];
    apply N.leb_le in H1, H2;
    replace (c =? 34)%N with false by (symmetry; apply N.eqb_neq; lia);
    replace (c =? 92)%N with false by (symmetry; apply N.eqb_neq; lia);
    reflexivity.
Qed.

Lemma quote_body_lex rest s :
  lex_run Inside (quote_body s ++ rest) = lex_run Inside rest.
Proof.
  assert (H : forall n s, List.length s <= n ->
                          lex_run Inside (quote_body s ++ rest)
                          = lex_run Inside rest);
    [|now apply (H (List.length s))].
  clear s. induction n as [|n IH]; intros s Hn.
  - destruct s; [reflexivity | simpl in Hn; lia].
  - destruct s as [|c [|c2 r2]]; [reflexivity | apply quote_unit_lex|].
    simpl in Hn.
    change (quote_body (c :: c2 :: r2))
      with (if is_high_surrogate c && is_low_surrogate c2
            then c :: c2 :: quote_body r2
            else quote_unit c ++ quote_body (c2 :: r2)).
    destruct (is_high_surrogate c && is_low_surrogate c2) eqn:E.
    + apply andb_true_iff in E as [E1 E2].
      cbn [app lex_run].
      rewrite (surrogate_inside c (or_introl E1)).
      rewrite (surrogate_inside c2 (or_intror E2)).
      apply IH. lia.
    + rewrite <- app_assoc, quote_unit_lex. apply IH. simpl. lia.
Qed.

Lemma quote_lex k rest :
  lex_run Fresh (quote k ++ rest) = lex_run Behind rest
  /\ lex_run Opened (quote k ++ rest) = lex_run Behind rest.
Proof.
  unfold quote. rewrite <- !app_assoc.
  change (dq ++ quote_body k ++ dq ++ rest)
    with (34%N :: quote_body k ++ 34%N :: rest).
  cbn [lex_run].
  change (lex_step Fresh 34%N) with (Some Inside).
  change (lex_step Opened 34%N) with (Some Inside). cbv iota.
  rewrite quote_body_lex. split; reflexivity.
Qed.

(** *** The text of a value *)

(** Texts that are each read as one value, joined by commas, are read
    through to behind the last one. *)
Lemma join_lex ts rest :
  Forall (fun t => lex_run Fresh t = Some Behind
                   /\ lex_run Opened t = Some Behind) ts ->
  ts <> [] ->
  lex_run Fresh (join (lit ",") ts ++ rest) = lex_run Behind rest
  /\ lex_run Opened (join (lit ",") ts ++ rest) = lex_run Behind rest.
Proof.
  induction 1 as [|t ts [Ht1 Ht2] Hts IH]; [congruence|]. intros _.
  destruct ts as [|t' ts].
  - simpl. rewrite !lex_run_app, Ht1, Ht2. split; reflexivity.
  - change (join (lit ",") (t :: t' :: ts))
      with (t ++ lit "," ++ join (lit ",") (t' :: ts)).
    rewrite <- !app_assoc, !lex_run_app, Ht1, Ht2.
    change (lit "," ++ join (lit ",") (t' :: ts) ++ rest)
      with (44%N :: join (lit ",") (t' :: ts) ++ rest).
    cbn [lex_run]. change (lex_step Behind 44%N) with (Some Fresh). cbv iota.
    destruct IH as [IH _]; [discriminate|]. now rewrite IH.
Qed.

(** Every serialized value is read as one value. *)
Lemma stringify_lex v : forall text,
  stringify v = Some text ->
  lex_run Fresh text = Some Behind /\ lex_run Opened text = Some Behind.
Proof.
  induction v as [| |b|x|s|l IH|ps IH] using value_induction; intros text H.
  - discriminate.
  - injection H as <-. split; reflexivity.
  - injection H as <-. destruct b; split; reflexivity.
  - simpl in H. injection H as <-.
    destruct (is_finite x) eqn:E; [|split; reflexivity].
    destruct (toString_plain x E) as [Hp Hn]. now apply plain_run.
  - injection H as <-.
    destruct (quote_lex s []) as [H1 H2]. rewrite app_nil_r in H1, H2.
    now rewrite H1, H2.
  - rewrite stringify_arr in H. injection H as <-.
    change (lit "[" ++ join (lit ",") (map element_text l) ++ lit "]")
      with (91%N :: join (lit ",") (map element_text l) ++ lit "]").
    cbn [lex_run].
    change (lex_step Fresh 91%N) with (Some Opened).
    change (lex_step Opened 91%N) with (Some Opened). cbv iota.
    destruct l as [|x l]; [split; reflexivity|].
    assert (Hall : Forall (fun t => lex_run Fresh t = Some Behind
                                    /\ lex_run Opened t = Some Behind)
                     (map element_text (x :: l))).
    { apply Forall_map. revert IH. apply Forall_impl. intros y Hy.
      unfold element_text. destruct (stringify y) as [t|];
        [now apply Hy | split; reflexivity]. }
    destruct (join_lex (lit "]") Hall) as [_ ->]; [discriminate|].
    split; reflexivity.
  - rewrite stringify_obj in H. injection H as <-.
    change (lit "{" ++ join (lit ",") (flat_map member_texts ps) ++ lit "}")
      with (123%N :: join (lit ",") (flat_map member_texts ps) ++ lit "}").
    cbn [lex_run].
    change (lex_step Fresh 123%N) with (Some Opened).
    change (lex_step Opened 123%N) with (Some Opened). cbv iota.
    assert (Hall : Forall (fun t => lex_run Fresh t = Some Behind
                                    /\ lex_run Opened t = Some Behind)
                     (flat_map member_texts ps)).
    { induction IH as [|[k y] r Hy _ IHr]; [constructor|].
      cbn [flat_map]. apply Forall_app. split; [|exact IHr].
      unfold member_texts. cbn [fst snd] in *.
      destruct (stringify y) as [t|]; [|constructor].
      constructor; [|constructor].
      destruct (quote_lex k (lit ":" ++ t)) as [-> ->].
      change (lit ":" ++ t) with (58%N :: t). cbn [lex_run].
      change (lex_step Behind 58%N) with (Some Fresh). cbv iota.
      destruct (Hy t eq_refl) as [-> _]. split; reflexivity. }
    destruct (flat_map member_texts ps) as [|m ms] eqn:E;
      [split; reflexivity|].
    destruct (join_lex (lit "}") Hall) as [_ ->]; [discriminate|].
    split; reflexivity.
Qed.

(** *** No unit to repair in a serialized value *)

Lemma whitespace_not_fresh c :
  is_whitespace c = true -> lex_step Fresh c = None.
Proof.
  intros H. unfold lex_step, is_plain, is_digit.
  unfold is_whitespace in H.
  repeat match type of H with
         | (_ || _)%bool = true => apply orb_true_iff in H as [H|H]
         end;
    try (apply andb_true_iff in H as [H1 H2]; apply N.leb_le in H1, H2);
    try (apply N.eqb_eq in H; subst c; reflexivity);
    repeat match goal with
           | |- context [(c =? ?k)%N] =>
               replace (c =? k)%N with false
                 by (symmetry; apply N.eqb_neq; lia)
           | |- context [(?k <=? c)%N] =>
               first [ replace (k <=? c)%N with false
                         by (symmetry; apply N.leb_gt; lia)
                     | replace (k <=? c)%N with true
                         by (symmetry; apply N.leb_le; lia) ]
           | |- context [(c <=? ?k)%N] =>
               first [ replace (c <=? k)%N with false
                         by (symmetry; apply N.leb_gt; lia)
                     | replace (c <=? k)%N with true
                         by (symmetry; apply N.leb_le; lia) ]
           end;
    reflexivity.
Qed.

Lemma digits_run q s rest :
  q = Fresh \/ q = Behind ->
  forallb is_digit s = true -> s <> [] ->
  lex_run q (s ++ rest) = lex_run Behind rest.
Proof.
  intros Hq Hd Hne. rewrite lex_run_app.
  apply digits_plain in Hd.
  destruct Hq as [->| ->].
  - now destruct (plain_run Hd Hne) as [-> _].
  - now rewrite (plain_run_behind _ Hd).
Qed.

Lemma unit_rejected rest x :
  strip_prefix (lit "ms") rest = Some x -> lex_run Behind rest = None.
Proof.
  intros H. apply strip_prefix_Some in H. subst rest. reflexivity.
Qed.

(** A reader that expects a value does not get through a number with its
    unit. *)
Lemma number_ms_rejected b :
  match_number_ms b <> None -> lex_run Fresh b = None.
Proof.
  unfold match_number_ms. intros H.
  destruct b as [|c b']; [now elim H|].
  destruct (is_whitespace c) eqn:Ews.
  { cbn [lex_run]. now rewrite (whitespace_not_fresh _ Ews). }
  assert (E0 : drop_while is_whitespace (c :: b') = c :: b')
    by (simpl; now rewrite Ews).
  rewrite E0 in H.
  set (d1 := take_while is_digit (c :: b')) in *.
  set (r1 := drop_while is_digit (c :: b')) in *.
  assert (Hsplit : c :: b' = d1 ++ r1)
    by (symmetry; apply take_drop_while).
  destruct d1 as [|d ds] eqn:Ed1; [now elim H|].
  cbn [JsOps.is_nil] in H.
  assert (Hd : forallb is_digit (d :: ds) = true)
    by (rewrite <- Ed1; apply take_while_all).
  rewrite Hsplit.
  rewrite (@digits_run Fresh (d :: ds) r1 (or_introl eq_refl) Hd)
    by discriminate.
  destruct r1 as [|c1 r2]; [now elim H|].
  destruct (c1 =? 46)%N eqn:E46.
  - apply N.eqb_eq in E46. subst c1.
    cbn [lex_run]. change (lex_step Behind 46%N) with (Some Behind).
    cbv iota.
    destruct (strip_prefix (lit "ms") (drop_while is_digit r2)) as [x|] eqn:E;
      [|now elim H].
    rewrite <- (take_drop_while is_digit r2), lex_run_app.
    rewrite (plain_run_behind _ (digits_plain _ (take_while_all is_digit r2))).
    exact (unit_rejected _ E).
  - destruct (strip_prefix (lit "ms") (c1 :: r2)) as [x|] eqn:E;
      [|now elim H].
    exact (unit_rejected _ E).
Qed.

Lemma lex_run_prefix q a b :
  lex_run q (a ++ b) <> None -> exists q', lex_run q a = Some q'.
Proof.
  rewrite lex_run_app. destruct (lex_run q a); [eauto | congruence].
Qed.

Lemma key_lex q :
  (lex_run q start_key = None \/ lex_run q start_key = Some Fresh)
  /\ (lex_run q end_key = None \/ lex_run q end_key = Some Fresh).
Proof. destruct q; split; vm_compute; auto. Qed.

(** In a text that can be read, neither key is followed by a number with
    its unit. *)
Lemma readable_no_unit q t key :
  key = start_key \/ key = end_key ->
  lex_run q t <> None ->
  forall a b, t = a ++ b -> match_field_ms key b = None.
Proof.
  intros Hkey Hrun a b ->. unfold match_field_ms.
  destruct (strip_prefix key b) as [r|] eqn:E; [|reflexivity].
  apply strip_prefix_Some in E. subst b.
  destruct (match_number_ms r) as [m|] eqn:M; [|reflexivity].
  exfalso. apply Hrun. rewrite lex_run_app.
  destruct (lex_run q a) as [qa|]; [|reflexivity].
  rewrite lex_run_app.
  assert (Hk : lex_run qa key = None \/ lex_run qa key = Some Fresh).
  { destruct (key_lex qa) as [H1 H2]. destruct Hkey as [-> | ->]; assumption. }
  destruct Hk as [-> | ->]; [reflexivity|].
  apply number_ms_rejected. congruence.
Qed.

Lemma strip_ms_no_match key t :
  (forall a b, t = a ++ b -> match_field_ms key b = None) ->
  strip_ms key t = t.
Proof.
  unfold strip_ms. induction t as [|c r IH]; intros H; [reflexivity|].
  cbn [strip_ms_from]. rewrite (H [] (c :: r) eq_refl).
  f_equal. apply IH. intros a b ->. apply (H (c :: a)). reflexivity.
Qed.

(** The unit repairs leave every serialized value as it is. *)
Lemma stringify_no_unit v text :
  stringify v = Some text ->
  strip_ms start_key text = text /\ strip_ms end_key text = text.
Proof.
  intros H. destruct (stringify_lex v H) as [Hrun _].
  split; apply strip_ms_no_match;
    apply (@readable_no_unit Fresh); auto; rewrite Hrun; discriminate.
Qed.

End LexFacts.

(** ** Reading a serialized value *)

Module RoundTripFacts.
Import JsString JsStringFacts JsValue JsOps Json Views Delimiters.
Import RegexFacts PropFacts JsonFacts ParserFacts.
Import Lexer Shape OrderFacts LexFacts.

(** *** What follows a value *)

Lemma closes_head c r :
  closes (c :: r) ->
  is_json_ws c = false /\ is_digit c = false
  /\ (c =? 46)%N = false /\ ((c =? 101) || (c =? 69))%N = false
  /\ (c =? 45)%N = false /\ (c =? 43)%N = false.
Proof.
  intros [->|[->| ->]]; repeat split; reflexivity.
Qed.

Lemma closes_skip_ws t : closes t -> skip_ws t = t.
Proof.
  destruct t as [|c r]; [reflexivity|]. intros H.
  destruct (closes_head H) as (Hw & _). unfold skip_ws. simpl.
  now rewrite Hw.
Qed.

Lemma closes_stops t : closes t -> stops is_digit t.
Proof.
  destruct t as [|c r]; [exact (fun _ => I)|]. intros H.
  now destruct (closes_head H) as (_ & Hd & _).
Qed.

(** A run stops at the same place when a text that stops it follows. *)
Lemma take_while_before p a t :
  stops p t -> take_while p (a ++ t) = take_while p a.
Proof.
  intros Ht. induction a as [|c a IH]; simpl.
  - destruct t as [|c r]; [reflexivity|]. simpl in Ht |- *. now rewrite Ht.
  - destruct (p c); [now rewrite IH | reflexivity].
Qed.

Lemma drop_while_before p a t :
  stops p t -> drop_while p (a ++ t) = drop_while p a ++ t.
Proof.
  intros Ht. induction a as [|c a IH]; simpl.
  - destruct t as [|c r]; [reflexivity|]. simpl in Ht |- *. now rewrite Ht.
  - destruct (p c); [exact IH | reflexivity].
Qed.

(** *** Numbers *)

Lemma number_integer_before d more t :
  closes t ->
  number_integer d (more ++ t)
  = (fst (number_integer d more), snd (number_integer d more) ++ t).
Proof.
  intros Ht. unfold number_integer. destruct (d =? 48)%N; [reflexivity|].
  change (d :: more ++ t) with ((d :: more) ++ t).
  rewrite take_while_before, drop_while_before by now apply closes_stops.
  reflexivity.
Qed.

Lemma number_fraction_before r1 t :
  closes t ->
  number_fraction (r1 ++ t)
  = (fst (number_fraction r1), snd (number_fraction r1) ++ t).
Proof.
  intros Ht. unfold number_fraction. destruct r1 as [|c r'].
  - destruct t as [|c r]; [reflexivity|].
    destruct (closes_head Ht) as (_ & _ & H46 & _).
    cbn [app]. now rewrite H46.
  - cbn [app]. cbv zeta.
    rewrite take_while_before, drop_while_before by now apply closes_stops.
    destruct ((c =? 46)%N && negb (is_nil (take_while is_digit r')));
      reflexivity.
Qed.

Lemma scan_exponent_before r2 t :
  closes t ->
  scan_exponent (r2 ++ t)
  = (fst (scan_exponent r2), snd (scan_exponent r2) ++ t).
Proof.
  intros Ht. unfold scan_exponent. destruct r2 as [|c r].
  - destruct t as [|c r]; [reflexivity|].
    destruct (closes_head Ht) as (_ & _ & _ & He & _).
    cbn [app]. now rewrite He.
  - cbn [app]. destruct ((c =? 101) || (c =? 69))%N; [|reflexivity].
    assert (Hs : scan_sign (r ++ t)
                 = (fst (scan_sign r), snd (scan_sign r) ++ t)).
    { unfold scan_sign. destruct r as [|c1 r1].
      - destruct t as [|c1 r1]; [reflexivity|].
        destruct (closes_head Ht) as (_ & _ & _ & _ & H45 & H43).
        cbn [app]. now rewrite H45, H43.
      - cbn [app]. destruct (c1 =? 45)%N; [reflexivity|].
        destruct (c1 =? 43)%N; reflexivity. }
    rewrite Hs. destruct (scan_sign r) as [neg r1]. cbn [fst snd].
    rewrite take_while_before, drop_while_before by now apply closes_stops.
    destruct (is_nil (take_while is_digit r1)); reflexivity.
Qed.

(** A number read from a text is read the same when a comma, a bracket
    or a brace follows the text. *)
Lemma parse_number_before s x rest t :
  closes t ->
  parse_number s = Some (x, rest) ->
  parse_number (s ++ t) = Some (x, rest ++ t).
Proof.
  intros Ht. rewrite !parse_number_stages.
  destruct (number_sign s) as [neg r] eqn:Es.
  destruct r as [|d more]; [discriminate|].
  rewrite (@number_sign_app _ _ _ t Es) by discriminate. cbn [app].
  destruct (is_digit d); [|discriminate].
  rewrite (@number_integer_before d more t Ht).
  destruct (number_integer d more) as [ip r1]. cbn [fst snd].
  rewrite (@number_fraction_before r1 t Ht).
  destruct (number_fraction r1) as [fp r2]. cbn [fst snd].
  rewrite (@scan_exponent_before r2 t Ht).
  destruct (scan_exponent r2) as [ex r3]. cbn [fst snd].
  intros H; injection H as <- <-. reflexivity.
Qed.

Lemma reads_back_finite x : reads_back x -> is_finite x = true.
Proof.
  unfold reads_back.
  destruct x as [s|[|]| |s m e]; try reflexivity; intros H;
    vm_compute in H; discriminate H.
Qed.

(** What the parser does with the text of a number that reads back. *)
Lemma reads_back_number x :
  reads_back x ->
  exists c r rest,
    JsNumber.toString x = c :: r
    /\ is_json_ws c = false
    /\ (c =? 123)%N = false /\ (c =? 91)%N = false /\ (c =? 34)%N = false
    /\ ((c =? 45)%N || is_digit c) = true
    /\ parse_number (c :: r) = Some (x, rest)
    /\ forallb is_json_ws rest = true.
Proof.
  intros H. pose proof (reads_back_finite H) as Hfin.
  destruct (toString_plain x Hfin) as [Hp Hne].
  unfold reads_back, parse in H.
  destruct (JsNumber.toString x) as [|c r] eqn:E; [congruence|].
  assert (Hc : is_plain c = true)
    by (simpl in Hp; now apply andb_true_iff in Hp as [? _]).
  assert (Hws : is_json_ws c = false).
  { unfold is_json_ws.
    destruct (N.eqb_spec c 9) as [->|]; [discriminate Hc|].
    destruct (N.eqb_spec c 10) as [->|]; [discriminate Hc|].
    destruct (N.eqb_spec c 13) as [->|]; [discriminate Hc|].
    destruct (N.eqb_spec c 32) as [->|]; [discriminate Hc|].
    reflexivity. }
  assert (H123 : (c =? 123)%N = false).
  { destruct (N.eqb_spec c 123) as [->|]; [discriminate Hc | reflexivity]. }
  assert (H91 : (c =? 91)%N = false).
  { destruct (N.eqb_spec c 91) as [->|]; [discriminate Hc | reflexivity]. }
  assert (H34 : (c =? 34)%N = false).
  { destruct (N.eqb_spec c 34) as [->|]; [discriminate Hc | reflexivity]. }
  unfold parse_fuel in H.
  replace (2 * List.length (c :: r) + 2)
    with (S (2 * List.length (c :: r) + 1)) in H by lia.
  cbn [parse_value] in H.
  assert (Hskip : skip_ws (c :: r) = c :: r)
    by (unfold skip_ws; simpl; now rewrite Hws).
  rewrite Hskip, H123, H91, H34 in H.
  destruct ((c =? 45)%N || is_digit c) eqn:Hd.
  - destruct (parse_number (c :: r)) as [[y rest]|] eqn:Ep; [|discriminate H].
    destruct (is_nil (skip_ws rest)) eqn:En; [|discriminate H].
    injection H as ->.
    exists c, r, rest. repeat split; auto.
    apply drop_while_nil_all. unfold skip_ws in En.
    destruct (drop_while is_json_ws rest); [reflexivity | discriminate En].
  - destruct (parse_literal (c :: r)) as [v rest| |] eqn:El;
      try discriminate H.
    destruct (is_nil (skip_ws rest)); [|discriminate H].
    injection H as ->. unfold parse_literal in El.
    destruct (strip_prefix (lit "true") (c :: r)); [discriminate El|].
    destruct (strip_prefix (lit "false") (c :: r)); [discriminate El|].
    destruct (strip_prefix (lit "null") (c :: r)); discriminate El.
Qed.

(** *** Strings *)

Lemma parse_string_body_cons c r :
  parse_string_body (c :: r)
  = if (c =? 34)%N then Some ([], r)
    else if (c =? 92)%N then
      match r with
      | [] => None
      | e :: r1 =>
          if (e =? 117)%N then
            match r1 with
            | a :: b :: c' :: d :: r2 =>
                if forallb is_hex [a; b; c'; d] then
                  match parse_string_body r2 with
                  | Some (str, rest) =>
                      Some (JsNumber.digits_value 16 [a; b; c'; d] :: str,
                            rest)
                  | None => None
                  end
                else None
            | _ => None
            end
          else
            match escape e, parse_string_body r1 with
            | Some u, Some (str, rest) => Some (u :: str, rest)
            | _, _ => None
            end
      end
    else if (c <? 32)%N then None
    else
      match parse_string_body r with
      | Some (str, rest) => Some (c :: str, rest)
      | None => None
      end.
Proof. reflexivity. Qed.

Lemma raw_unit_parse c X :
  (c =? 34)%N = false -> (c =? 92)%N = false -> (c <? 32)%N = false ->
  parse_string_body (c :: X) = one_more c X.
Proof.
  intros H34 H92 H32. now rewrite parse_string_body_cons, H34, H92, H32.
Qed.

Lemma hex_digit_value n :
  (n < 16)%N ->
  is_hex (hex_digit n) = true /\ JsNumber.digit_value (hex_digit n) = n.
Proof.
  intros H. unfold is_hex, is_digit, JsNumber.digit_value, hex_digit.
  destruct (N.ltb_spec n 10).
  - replace (48 <=? 48 + n)%N with true by (symmetry; apply N.leb_le; lia).
    replace (48 + n <=? 57)%N with true by (symmetry; apply N.leb_le; lia).
    split; [reflexivity | cbn [andb]; lia].
  - replace (48 <=? 87 + n)%N with true by (symmetry; apply N.leb_le; lia).
    replace (87 + n <=? 57)%N with false by (symmetry; apply N.leb_gt; lia).
    replace (97 <=? 87 + n)%N with true by (symmetry; apply N.leb_le; lia).
    replace (87 + n <=? 102)%N with true by (symmetry; apply N.leb_le; lia).
    replace (87 + n <=? 122)%N with true by (symmetry; apply N.leb_le; lia).
    split; [reflexivity | cbn [andb]; lia].
Qed.

Lemma hex_digits_value c :
  (c < 65536)%N ->
  JsNumber.digits_value 16
    [hex_digit (c / 4096 mod 16); hex_digit (c / 256 mod 16);
     hex_digit (c / 16 mod 16); hex_digit (c mod 16)] = c.
Proof.
  intros H. unfold JsNumber.digits_value. cbn [fold_left].
  rewrite !(fun n Hn => proj2 (@hex_digit_value n Hn))
    by (apply N.mod_lt; discriminate).
  assert (E : c = (4096 * (c / 4096) + c mod 4096)%N)
    by (apply N.div_mod'; discriminate).
  assert (H1 : (c / 4096 < 16)%N)
    by (apply N.Div0.div_lt_upper_bound; exact H).
  assert (E1 : (c / 4096 mod 16 = c / 4096)%N) by (now apply N.mod_small).
  assert (E2 : (c / 256 = 16 * (c / 4096) + c / 256 mod 16)%N).
  { replace (c / 4096)%N with (c / 256 / 16)%N
      by (rewrite N.Div0.div_div; reflexivity).
    apply N.div_mod'. }
  assert (E3 : (c / 16 = 16 * (c / 256) + c / 16 mod 16)%N).
  { replace (c / 256)%N with (c / 16 / 16)%N
      by (rewrite N.Div0.div_div; reflexivity).
    apply N.div_mod'. }
  assert (E4 : (c = 16 * (c / 16) + c mod 16)%N) by apply N.div_mod'.
  rewrite E1.
  generalize dependent (c / 4096)%N. generalize dependent (c / 256 mod 16)%N.
  generalize dependent (c / 256)%N. generalize dependent (c / 16 mod 16)%N.
  generalize dependent (c / 16)%N. generalize dependent (c mod 16)%N.
  generalize dependent (c mod 4096)%N.
  intros. lia.
Qed.

Lemma unicode_escape_parse c X :
  (c < 65536)%N -> parse_string_body (unicode_escape c ++ X) = one_more c X.
Proof.
  intros H. unfold unicode_escape. cbn [app].
  rewrite parse_string_body_cons.
  change (92 =? 34)%N with false. change (92 =? 92)%N with true.
  change (117 =? 117)%N with true. cbv iota.
  assert (Hhex : forall n, (n < 16)%N -> is_hex (hex_digit n) = true)
    by (intros n Hn; apply (hex_digit_value Hn)).
  cbn [forallb].
  rewrite !Hhex by (apply N.mod_lt; discriminate). cbn [andb].
  rewrite (hex_digits_value H). reflexivity.
Qed.

Lemma quote_unit_parse c X :
  parse_string_body (quote_unit c ++ X) = one_more c X.
Proof.
  unfold quote_unit, one_more.
  destruct (N.eqb_spec c 8) as [->|_];
    [cbn; destruct (parse_string_body X) as [[? ?]|]; reflexivity|].
  destruct (N.eqb_spec c 9) as [->|_];
    [cbn; destruct (parse_string_body X) as [[? ?]|]; reflexivity|].
  destruct (N.eqb_spec c 10) as [->|_];
    [cbn; destruct (parse_string_body X) as [[? ?]|]; reflexivity|].
  destruct (N.eqb_spec c 12) as [->|_];
    [cbn; destruct (parse_string_body X) as [[? ?]|]; reflexivity|].
  destruct (N.eqb_spec c 13) as [->|_];
    [cbn; destruct (parse_string_body X) as [[? ?]|]; reflexivity|].
  destruct (N.eqb_spec c 34) as [->|H34];
    [cbn; destruct (parse_string_body X) as [[? ?]|]; reflexivity|].
  destruct (N.eqb_spec c 92) as [->|H92];
    [cbn; destruct (parse_string_body X) as [[? ?]|]; reflexivity|].
  destruct ((c <? 32)%N || is_high_surrogate c || is_low_surrogate c) eqn:E.
  - apply unicode_escape_parse.
    apply orb_true_iff in E as [E|E];
      [apply orb_true_iff in E as [E|E]|].
    + apply N.ltb_lt in E. lia.
    + unfold is_high_surrogate in E. apply andb_true_iff in E as [_ E].
      apply N.leb_le in E. lia.
    + unfold is_low_surrogate in E. apply andb_true_iff in E as [_ E].
      apply N.leb_le in E. lia.
  - apply orb_false_iff in E as [E _]. apply orb_false_iff in E as [E _].
    apply raw_unit_parse; [now apply N.eqb_neq | now apply N.eqb_neq | exact E].
Qed.

Lemma surrogate_raw c :
  is_high_surrogate c = true \/ is_low_surrogate c = true ->
  (c =? 34)%N = false /\ (c =? 92)%N = false /\ (c <? 32)%N = false.
Proof.
  unfold is_high_surrogate, is_low_surrogate.
  intros [H|H]; apply andb_true_iff in H as [H1 H2];
    apply N.leb_le in H1, H2;
    (split; [apply N.eqb_neq; lia|split; [apply N.eqb_neq; lia|]]);
    apply N.ltb_ge; lia.
Qed.

(** A quoted string is read back as the string. *)
Lemma quote_body_parse rest s :
  parse_string_body (quote_body s ++ dq ++ rest) = Some (s, rest).
Proof.
  assert (H : forall n s, List.length s <= n ->
                parse_string_body (quote_body s ++ dq ++ rest)
                = Some (s, rest));
    [|now apply (H (List.length s))].
  clear s. induction n as [|n IH]; intros s Hn.
  - destruct s; [reflexivity | simpl in Hn; lia].
  - destruct s as [|c [|c2 r2]]; [reflexivity| |].
    + change (quote_body [c]) with (quote_unit c).
      rewrite quote_unit_parse. reflexivity.
    + simpl in Hn.
      change (quote_body (c :: c2 :: r2))
        with (if is_high_surrogate c && is_low_surrogate c2
              then c :: c2 :: quote_body r2
              else quote_unit c ++ quote_body (c2 :: r2)).
      destruct (is_high_surrogate c && is_low_surrogate c2) eqn:E.
      * apply andb_true_iff in E as [E1 E2].
        destruct (surrogate_raw c (or_introl E1)) as (A1 & A2 & A3).
        destruct (surrogate_raw c2 (or_intror E2)) as (B1 & B2 & B3).
        cbn [app].
        rewrite (@raw_unit_parse c _ A1 A2 A3). unfold one_more.
        rewrite (@raw_unit_parse c2 _ B1 B2 B3). unfold one_more.
        rewrite IH by lia. reflexivity.
      * rewrite <- app_assoc, quote_unit_parse. unfold one_more.
        rewrite IH by (simpl; lia). reflexivity.
Qed.

(** *** Values *)

Lemma json_value_stringify v :
  json_value v -> exists text, stringify v = Some text.
Proof.
  destruct v; [intros []|..]; intros _; eexists; reflexivity.
Qed.

Lemma plain_not_structural c :
  is_plain c = true ->
  is_json_ws c = false /\ (c =? 93)%N = false /\ (c =? 125)%N = false.
Proof.
  intros Hc. unfold is_json_ws.
  destruct (N.eqb_spec c 9) as [->|]; [discriminate Hc|].
  destruct (N.eqb_spec c 10) as [->|]; [discriminate Hc|].
  destruct (N.eqb_spec c 13) as [->|]; [discriminate Hc|].
  destruct (N.eqb_spec c 32) as [->|]; [discriminate Hc|].
  destruct (N.eqb_spec c 93) as [->|]; [discriminate Hc|].
  destruct (N.eqb_spec c 125) as [->|]; [discriminate Hc|].
  repeat split.
Qed.

(** A serialized value starts with a code unit that is neither white
    space nor a closing bracket or brace. *)
Lemma stringify_head v text :
  stringify v = Some text ->
  exists c r, text = c :: r
    /\ is_json_ws c = false
    /\ (c =? 93)%N = false /\ (c =? 125)%N = false.
Proof.
  intros H. destruct (stringify_lex v H) as [Hrun _].
  destruct text as [|c r]; [discriminate Hrun|].
  exists c, r. split; [reflexivity|].
  cbn [lex_run] in Hrun. unfold lex_step in Hrun.
  destruct (N.eqb_spec c 34) as [->|_]; [repeat split|].
  destruct ((c =? 91) || (c =? 123))%N eqn:E.
  { apply orb_true_iff in E as [E|E]; apply N.eqb_eq in E; subst c;
      repeat split. }
  destruct (is_plain c) eqn:Hp; [|discriminate Hrun].
  now apply plain_not_structural.
Qed.

Lemma skip_ws_head c r : is_json_ws c = false -> skip_ws (c :: r) = c :: r.
Proof. intros H. unfold skip_ws. simpl. now rewrite H. Qed.

Lemma skip_ws_blank w t :
  forallb is_json_ws w = true -> skip_ws (w ++ t) = skip_ws t.
Proof. intros H. unfold skip_ws. now apply drop_while_app_all. Qed.

Lemma join_cons sep (m : JsString.t) ms :
  ms <> [] -> join sep (m :: ms) = m ++ sep ++ join sep ms.
Proof. destruct ms; [congruence | reflexivity]. Qed.

(** The text [text], followed by [t], is read as the value [v] up to
    [t], when the fuel allows. *)
Local Abbreviation reads_as f text t v :=
  (parse_value f (text ++ t) = POutOfFuel
   \/ exists rest, parse_value f (text ++ t) = POk v rest
                   /\ skip_ws rest = t%list).

Local Abbreviation reads_well v :=
  (forall text, stringify v = Some text ->
   forall f t, closes t -> reads_as f text t v).

Lemma closes_comma t : closes (lit "," ++ t).
Proof. left. reflexivity. Qed.

Lemma closes_bracket t : closes (lit "]" ++ t).
Proof. right. left. reflexivity. Qed.

Lemma closes_brace t : closes (lit "}" ++ t).
Proof. right. right. reflexivity. Qed.

Lemma parse_elements_join l : forall acc f t,
  l <> [] ->
  Forall (fun x => reads_well x) l ->
  Forall json_value l ->
  parse_elements f acc (join (lit ",") (map element_text l) ++ lit "]" ++ t)
  = POutOfFuel
  \/ parse_elements f acc
       (join (lit ",") (map element_text l) ++ lit "]" ++ t)
     = POk (VArr (rev acc ++ l)) t.
Proof.
  induction l as [|x l IH]; intros acc f t Hne HP Hj; [congruence|].
  inversion HP as [|? ? HPx HPl]; subst.
  inversion Hj as [|? ? Hjx Hjl]; subst.
  destruct (json_value_stringify x Hjx) as [tx Ex].
  destruct f as [|f]; [left; reflexivity|].
  cbn [map]. unfold element_text at 1 3. rewrite Ex.
  destruct l as [|y l'].
  - cbn [map join parse_elements].
    destruct (HPx tx Ex f (lit "]" ++ t) (closes_bracket t))
      as [Hout|(rest & Hok & Hrest)].
    + left. now rewrite Hout.
    + right. rewrite Hok, Hrest. reflexivity.
  - rewrite join_cons by discriminate. rewrite <- !app_assoc.
    cbn [parse_elements].
    destruct (HPx tx Ex f
                (lit "," ++ join (lit ",") (map element_text (y :: l'))
                 ++ lit "]" ++ t) (closes_comma _))
      as [Hout|(rest & Hok & Hrest)].
    + left. now rewrite Hout.
    + rewrite Hok, Hrest.
      change (lit "," ++ join (lit ",") (map element_text (y :: l'))
              ++ lit "]" ++ t)
        with (44%N :: join (lit ",") (map element_text (y :: l'))
              ++ lit "]" ++ t).
      cbv iota. change (44 =? 44)%N with true. cbv iota.
      destruct (IH (x :: acc) f t) as [H|H]; auto; [discriminate|].
      right. rewrite H. cbn [rev]. now rewrite <- app_assoc.
Qed.

Lemma member_texts_some k x tx :
  stringify x = Some tx -> member_texts (k, x) = [quote k ++ lit ":" ++ tx].
Proof. intros E. unfold member_texts. cbn [fst snd]. now rewrite E. Qed.

Lemma member_text_read k tx rest :
  (quote k ++ lit ":" ++ tx) ++ rest
  = 34%N :: quote_body k ++ dq ++ 58%N :: tx ++ rest.
Proof. unfold quote. now rewrite <- !app_assoc. Qed.

Lemma parse_value_bracket f r :
  parse_value (S f) (91%N :: r)
  = match skip_ws r with
    | [] => PSyntaxError
    | c' :: r' => if (c' =? 93)%N then POk (VArr []) r'
                  else parse_elements f [] r
    end.
Proof. reflexivity. Qed.

Lemma parse_value_brace f r :
  parse_value (S f) (123%N :: r)
  = match skip_ws r with
    | [] => PSyntaxError
    | c' :: r' => if (c' =? 125)%N then POk (VObj []) r'
                  else parse_members f [] r
    end.
Proof. reflexivity. Qed.

Lemma parse_value_quote f r :
  parse_value (S f) (34%N :: r)
  = match parse_string_body r with
    | Some (str, r') => POk (VStr str) r'
    | None => PSyntaxError
    end.
Proof. reflexivity. Qed.

Lemma parse_member_step f acc k X :
  parse_members (S f) acc (34%N :: quote_body k ++ dq ++ 58%N :: X)
  = match parse_value f X with
    | POk v r3 =>
        match skip_ws r3 with
        | [] => PSyntaxError
        | c' :: r4 =>
            if (c' =? 44)%N then parse_members f (obj_set acc k v) r4
            else if (c' =? 125)%N then POk (VObj (obj_set acc k v)) r4
            else PSyntaxError
        end
    | PSyntaxError => PSyntaxError
    | POutOfFuel => POutOfFuel
    end.
Proof.
  cbn [parse_members].
  replace (skip_ws (34%N :: quote_body k ++ dq ++ 58%N :: X))
    with (34%N :: quote_body k ++ dq ++ 58%N :: X) by reflexivity.
  change (34 =? 34)%N with true. cbv iota.
  rewrite quote_body_parse. reflexivity.
Qed.

Lemma parse_members_join ps : forall acc f t,
  ps <> [] ->
  Forall (fun kv => reads_well (snd kv)) ps ->
  Forall (fun kv => json_value (snd kv)) ps ->
  parse_members f acc
    (join (lit ",") (flat_map member_texts ps) ++ lit "}" ++ t)
  = POutOfFuel
  \/ parse_members f acc
       (join (lit ",") (flat_map member_texts ps) ++ lit "}" ++ t)
     = POk (VObj (fold_left assign ps acc)) t.
Proof.
  induction ps as [|[k x] ps IH]; intros acc f t Hne HP Hj; [congruence|].
  inversion HP as [|? ? HPx HPl]; subst.
  inversion Hj as [|? ? Hjx Hjl]; subst.
  cbn [snd] in HPx, Hjx.
  destruct (json_value_stringify x Hjx) as [tx Ex].
  destruct f as [|f]; [left; reflexivity|].
  cbn [flat_map]. rewrite (member_texts_some k x Ex). cbn [app].
  destruct ps as [|[k2 y] ps'].
  - cbn [flat_map join]. rewrite member_text_read, parse_member_step.
    destruct (HPx tx Ex f (lit "}" ++ t) (closes_brace t))
      as [Hout|(rest & Hok & Hrest)].
    + left. now rewrite Hout.
    + right. rewrite Hok, Hrest. reflexivity.
  - assert (Hms : flat_map member_texts ((k2, y) :: ps') <> []).
    { inversion Hjl as [|? ? Hjy _]; subst. cbn [snd] in Hjy.
      destruct (json_value_stringify y Hjy) as [ty Ey].
      cbn [flat_map]. rewrite (member_texts_some k2 y Ey). discriminate. }
    rewrite join_cons by exact Hms.
    rewrite <- !app_assoc.
    rewrite (app_assoc (quote k) (lit ":") _).
    rewrite (app_assoc (quote k ++ lit ":") tx _).
    rewrite <- (app_assoc (quote k) (lit ":") tx).
    rewrite member_text_read, parse_member_step.
    destruct (HPx tx Ex f
                (lit "," ++ join (lit ",")
                              (flat_map member_texts ((k2, y) :: ps'))
                 ++ lit "}" ++ t) (closes_comma _))
      as [Hout|(rest & Hok & Hrest)].
    + left. now rewrite Hout.
    + rewrite Hok, Hrest.
      change (lit "," ++ join (lit ",")
                           (flat_map member_texts ((k2, y) :: ps'))
              ++ lit "}" ++ t)
        with (44%N :: join (lit ",")
                        (flat_map member_texts ((k2, y) :: ps'))
              ++ lit "}" ++ t).
      cbv iota. change (44 =? 44)%N with true. cbv iota.
      destruct (IH (obj_set acc k x) f t ltac:(discriminate) HPl Hjl)
        as [H|H]; [left | right]; exact H.
Qed.

(** Every value that [JSON.parse] can build and whose numbers read back
    is read back from its serialization, whatever follows it in an array
    or an object. *)
Lemma stringify_reads_well v :
  json_value v -> exact_numbers v -> reads_well v.
Proof.
  induction v as [| |b|x|s|l IH|ps IH] using value_induction;
    intros Hj He text Hs f t Ht.
  - destruct Hj.
  - injection Hs as <-. destruct f as [|f]; [left; reflexivity|].
    right. exists t. split; [reflexivity | now apply closes_skip_ws].
  - injection Hs as <-. destruct f as [|f]; [left; reflexivity|].
    right. exists t.
    split; [destruct b; reflexivity | now apply closes_skip_ws].
  - cbn [exact_numbers] in He. cbn [stringify] in Hs.
    rewrite (reads_back_finite He) in Hs. injection Hs as <-.
    destruct (reads_back_number He)
      as (c & r & rest & -> & Hws & H123 & H91 & H34 & Hd & Hp & Hrest).
    destruct f as [|f]; [left; reflexivity|].
    right. exists (rest ++ t). split.
    + cbn [parse_value app].
      rewrite skip_ws_head by exact Hws. rewrite H123, H91, H34, Hd.
      change (c :: r ++ t) with ((c :: r) ++ t).
      now rewrite (@parse_number_before _ _ _ _ Ht Hp).
    + rewrite skip_ws_blank by exact Hrest. now apply closes_skip_ws.
  - injection Hs as <-. destruct f as [|f]; [left; reflexivity|].
    right. exists t. split; [|now apply closes_skip_ws].
    unfold quote. rewrite <- !app_assoc.
    change (dq ++ quote_body s ++ dq ++ t)
      with (34%N :: quote_body s ++ dq ++ t).
    now rewrite parse_value_quote, quote_body_parse.
  - rewrite stringify_arr in Hs. injection Hs as <-.
    apply json_value_arr in Hj. apply exact_numbers_arr in He.
    destruct f as [|f]; [left; reflexivity|].
    cbn [app]. rewrite <- !app_assoc, parse_value_bracket.
    destruct l as [|x l].
    { right. exists t. split; [reflexivity | now apply closes_skip_ws]. }
    assert (HP : Forall (fun x => reads_well x) (x :: l)).
    { rewrite Forall_forall in *. intros y Hy. apply IH; auto. }
    assert (Hhead : exists c r,
               skip_ws (join (lit ",") (map element_text (x :: l))
                        ++ lit "]" ++ t) = c :: r
               /\ (c =? 93)%N = false).
    { inversion Hj as [|? ? Hjx _]; subst.
      destruct (json_value_stringify x Hjx) as [tx Ex].
      destruct (stringify_head x Ex) as (c & r & -> & Hw & H93 & _).
      cbn [map]. unfold element_text at 1. rewrite Ex.
      destruct l; cbn [map join app]; rewrite skip_ws_head by exact Hw;
        eauto. }
    destruct Hhead as (c & r & Er & H93).
    rewrite Er, H93.
    destruct (@parse_elements_join (x :: l) [] f t ltac:(discriminate) HP Hj)
      as [H|H].
    + left. exact H.
    + right. exists t. split; [exact H | now apply closes_skip_ws].
  - rewrite stringify_obj in Hs. injection Hs as <-.
    apply json_value_obj in Hj as [Hord Hj].
    apply exact_numbers_obj in He.
    destruct f as [|f]; [left; reflexivity|].
    cbn [app]. rewrite <- !app_assoc, parse_value_brace.
    destruct ps as [|[k x] ps].
    { right. exists t. split; [reflexivity | now apply closes_skip_ws]. }
    assert (HP : Forall (fun kv => reads_well (snd kv)) ((k, x) :: ps)).
    { rewrite Forall_forall in *. intros y Hy. apply IH; auto. }
    assert (Hhead : exists r,
               skip_ws (join (lit ",") (flat_map member_texts ((k, x) :: ps))
                        ++ lit "}" ++ t) = 34%N :: r).
    { inversion Hj as [|? ? Hjx _]; subst. cbn [snd] in Hjx.
      destruct (json_value_stringify x Hjx) as [tx Ex].
      cbn [flat_map]. rewrite (member_texts_some k x Ex). cbn [app].
      destruct (flat_map member_texts ps); cbn [join].
      - rewrite member_text_read. eexists. reflexivity.
      - rewrite <- (app_assoc (quote k ++ lit ":" ++ tx)).
        rewrite member_text_read. eexists. reflexivity. }
    destruct Hhead as (r & Er).
    rewrite Er. change (34 =? 125)%N with false. cbv iota.
    destruct (@parse_members_join ((k, x) :: ps) [] f t
                ltac:(discriminate) HP Hj) as [H|H].
    + left. exact H.
    + right. exists t. split; [|now apply closes_skip_ws].
      rewrite H. f_equal. f_equal. exact (rebuild_ordered Hord).
Qed.

(** [JSON.parse(JSON.stringify(v))] is [v]. *)
Lemma parse_stringify v text :
  json_value v -> exact_numbers v ->
  stringify v = Some text -> Json.parse text = Some v.
Proof.
  intros Hj He Hs. unfold parse.
  pose proof (parse_fuel_enough text) as Hfuel.
  destruct (@stringify_reads_well v Hj He text Hs (parse_fuel text) [] I)
    as [H|(rest & H & Hrest)]; rewrite app_nil_r in H.
  - congruence.
  - now rewrite H, Hrest.
Qed.

(** *** What the parser builds *)

Lemma obj_set_forall (P : value -> Prop) acc k v :
  Forall (fun kv => P (snd kv)) acc -> P v ->
  Forall (fun kv => P (snd kv)) (obj_set acc k v).
Proof.
  intros Hacc Hv. unfold obj_set.
  destruct (has_own acc k).
  - clear -Hacc Hv. induction Hacc as [|[k' v'] r Hx Hr IH]; simpl;
      [constructor|].
    destruct (JsString.eqb k' k); constructor; auto.
  - destruct (array_index k) as [i|].
    + destruct (insert_index_split acc i k v) as (a1 & a2 & -> & ->).
      apply Forall_app in Hacc as [H1 H2].
      apply Forall_app. split; [exact H1|]. constructor; assumption.
    + apply Forall_app. split; [exact Hacc|]. constructor; [exact Hv|].
      constructor.
Qed.

Lemma parse_shape_ind f :
  (forall s v rest, parse_value f s = POk v rest -> json_value v)
  /\ (forall acc s v rest,
        parse_elements f acc s = POk v rest ->
        Forall json_value acc -> json_value v)
  /\ (forall acc s v rest,
        parse_members f acc s = POk v rest ->
        ordered acc -> Forall (fun kv => json_value (snd kv)) acc ->
        json_value v).
Proof.
  induction f as [|f (IHv & IHe & IHm)].
  { repeat split; intros; discriminate. }
  split; [|split].
  - intros s v rest. cbn [parse_value].
    destruct (skip_ws s) as [|c r]; [discriminate|].
    destruct (c =? 123)%N.
    { destruct (skip_ws r) as [|c' r']; [discriminate|].
      destruct (c' =? 125)%N.
      - intros H; injection H as <- _.
        apply json_value_obj. split; [apply ordered_nil | constructor].
      - intros H. apply (IHm _ _ _ _ H); [apply ordered_nil | constructor]. }
    destruct (c =? 91)%N.
    { destruct (skip_ws r) as [|c' r']; [discriminate|].
      destruct (c' =? 93)%N.
      - intros H; injection H as <- _. exact I.
      - intros H. apply (IHe _ _ _ _ H). constructor. }
    destruct (c =? 34)%N.
    { destruct (parse_string_body r) as [[str r']|]; [|discriminate].
      intros H; injection H as <- _. exact I. }
    destruct ((c =? 45)%N || is_digit c).
    { destruct (parse_number (c :: r)) as [[x r']|]; [|discriminate].
      intros H; injection H as <- _. exact I. }
    unfold parse_literal.
    destruct (strip_prefix (lit "true") (c :: r));
      [intros H; injection H as <- _; exact I|].
    destruct (strip_prefix (lit "false") (c :: r));
      [intros H; injection H as <- _; exact I|].
    destruct (strip_prefix (lit "null") (c :: r));
      [intros H; injection H as <- _; exact I | discriminate].
  - intros acc s v rest. cbn [parse_elements].
    destruct (parse_value f s) as [v0 r0| |] eqn:E; try discriminate.
    destruct (skip_ws r0) as [|c r']; [discriminate|].
    pose proof (IHv _ _ _ E) as Hv0.
    destruct (c =? 44)%N.
    { intros H Hacc. apply (IHe _ _ _ _ H). now constructor. }
    destruct (c =? 93)%N; [|discriminate].
    intros H Hacc; injection H as <- _.
    apply json_value_arr. apply Forall_app.
    split; [now apply Forall_rev | now constructor].
  - intros acc s v rest. cbn [parse_members].
    destruct (skip_ws s) as [|q r]; [discriminate|].
    destruct (q =? 34)%N; [|discriminate].
    destruct (parse_string_body r) as [[key r1]|]; [|discriminate].
    destruct (skip_ws r1) as [|c r2]; [discriminate|].
    destruct (c =? 58)%N; [|discriminate].
    destruct (parse_value f r2) as [v0 r3| |] eqn:E; try discriminate.
    destruct (skip_ws r3) as [|c' r4]; [discriminate|].
    pose proof (IHv _ _ _ E) as Hv0.
    destruct (c' =? 44)%N.
    { intros H Hord Hacc. apply (IHm _ _ _ _ H).
      - now apply ordered_obj_set.
      - now apply obj_set_forall. }
    destruct (c' =? 125)%N; [|discriminate].
    intros H Hord Hacc; injection H as <- _.
    apply json_value_obj. split.
    + now apply ordered_obj_set.
    + now apply obj_set_forall.
Qed.

(** What [JSON.parse] returns holds no [undefined], and its objects have
    their properties in enumeration order. *)
Lemma parse_shape s v : Json.parse s = Some v -> json_value v.
Proof.
  unfold parse.
  destruct (parse_value (parse_fuel s) s) as [v0 rest| |] eqn:E;
    try discriminate.
  destruct (is_nil (skip_ws rest)); [|discriminate].
  intros H; injection H as <-.
  exact (proj1 (parse_shape_ind (parse_fuel s)) _ _ _ E).
Qed.

End RoundTripFacts.

(** ** Sanitizing a serialized result *)

Module StabilityFacts.
Import JsString JsStringFacts JsValue JsValue.Notations JsOps Server Scan Views.
Import RegexFacts PropFacts FilterFacts ExtractFacts RepairFacts Samples.
Import ResanitizeFacts ReplyFacts Shape OrderFacts LexFacts RoundTripFacts.

Lemma get_own_In ps k v : get_own ps k = Some v -> In (k, v) ps.
Proof.
  induction ps as [|[k' v'] r IH]; simpl; [discriminate|].
  destruct (JsString.eqb k' k) eqn:E.
  - apply eqb_eq in E. subst k'. intros H; injection H as ->. now left.
  - intros H. right. now apply IH.
Qed.

Lemma coerce_props_shape ps k :
  ordered ps -> Forall (fun kv => json_value (snd kv)) ps ->
  ordered (coerce_props ps k)
  /\ Forall (fun kv => json_value (snd kv)) (coerce_props ps k).
Proof.
  intros Hord Hall. split.
  - apply (@ordered_keys ps); [|exact Hord].
    symmetry. apply coerce_props_keys.
  - unfold coerce_props.
    destruct (get_own ps k) as [[| | | |str| |]|]; try exact Hall.
    apply obj_set_forall; [exact Hall | exact I].
Qed.

(** The filter callback hands back a value of the same kind. *)
Lemma check_segment_shape seg0 seg ok :
  check_segment seg0 = Normal (seg, ok) -> json_value seg0 -> json_value seg.
Proof.
  destruct seg0 as [| |b|x|s|l|qs]; try (intros H; discriminate H).
  - rewrite check_segment_primitive by (try reflexivity; discriminate).
    intros H _; injection H as <- _. exact I.
  - rewrite check_segment_primitive by (try reflexivity; discriminate).
    intros H _; injection H as <- _. exact I.
  - rewrite check_segment_primitive by (try reflexivity; discriminate).
    intros H _; injection H as <- _. exact I.
  - rewrite check_segment_primitive by (try reflexivity; discriminate).
    intros H Hl; injection H as <- _. exact Hl.
  - rewrite check_segment_object.
    destruct (isValid (coerce_segment (VObj qs))) as [b|]; [|discriminate].
    intros H Hq; injection H as <- _.
    apply json_value_obj in Hq as [Hord Hall].
    unfold coerce_segment. apply json_value_obj.
    destruct (coerce_props_shape (lit "start") Hord Hall) as [H1 H2].
    exact (coerce_props_shape (lit "end") H1 H2).
Qed.

Lemma empty_result_shape : json_value empty_result.
Proof.
  apply json_value_obj. split; [split|].
  - constructor; [intros [] | constructor].
  - reflexivity.
  - constructor; [exact I | constructor].
Qed.

(** The result of [extractJSON] holds no [undefined], and its objects
    have their properties in enumeration order. *)
Lemma extractJSON_shape text : json_value (extractJSON text).
Proof.
  destruct (extractJSON_cases text)
    as [->|(s & ps & l & kept & -> & E & G & F & ->)];
    [apply empty_result_shape|].
  assert (Hps : json_value (VObj ps)).
  { unfold extracted_json in E.
    destruct (jsonMatch (cleanText s)); [|discriminate].
    exact (parse_shape _ E). }
  apply json_value_obj in Hps as [Hord Hall].
  assert (Hl : Forall json_value l).
  { apply json_value_arr. apply get_own_In in G.
    rewrite Forall_forall in Hall. exact (Hall _ G). }
  apply json_value_obj. split; [now apply ordered_obj_set|].
  apply obj_set_forall; [exact Hall|].
  apply json_value_arr. apply Forall_forall. intros seg Hin.
  destruct (filter_segments_provenance _ F _ Hin) as (seg0 & Hin0 & Hc).
  rewrite Forall_forall in Hl.
  exact (@check_segment_shape seg0 _ _ Hc (Hl _ Hin0)).
Qed.

(** The repairs leave a serialized value alone when it holds no escaped
    ampersand: there is never a unit to remove. *)
Lemma stringify_repair v s :
  Json.stringify v = Some s ->
  contains (lit "&amp;") s = false ->
  repair s = s.
Proof.
  intros Hs Hamp. unfold repair.
  destruct (stringify_no_unit v Hs) as [-> ->].
  rewrite (replace_all_no_match (lit "&amp;#39;") _ _
             (contains_longer (lit "&amp;") (lit "#39;") _ Hamp)).
  rewrite (replace_all_no_match (lit "&amp;quot;") _ _
             (contains_longer (lit "&amp;") (lit "quot;") _ Hamp)).
  exact (replace_all_no_match _ _ _ Hamp).
Qed.

(** C4 (amended). The result of [extractJSON] always serializes, and the
    unit repairs never alter the serialized text.  Sanitizing the
    serialized result gives the same result again whenever the serialized
    text holds no escaped ampersand and every number of the result reads
    back, that is, is printed by [JSON.stringify] to a text that
    [JSON.parse] reads as the same number: the second pass then finds the
    whole text as its span, repairs nothing, parses the result back and
    keeps every segment.  (It is not so when a kept text still holds an
    escaped ampersand, which the second pass unescapes once more, nor
    when a kept number is infinite or a negative zero, which serialize to
    [null] and to [0].) *)
Theorem resanitize_stable (text : value) :
  (exists s, Json.stringify (extractJSON text) = Some s)
  /\ (forall s,
        Json.stringify (extractJSON text) = Some s ->
        Regex.replace_global (re_ms start_key) (ms_template start_key) s = s
        /\ Regex.replace_global (re_ms end_key) (ms_template end_key) s = s)
  /\ (forall s,
        Json.stringify (extractJSON text) = Some s ->
        contains (lit "&amp;") s = false ->
        jsonMatch (cleanText s) = Some s /\ jsonStr s = s)
  /\ (forall s,
        Json.stringify (extractJSON text) = Some s ->
        exact_numbers (extractJSON text) ->
        Json.parse s = Some (extractJSON text))
  /\ (forall s,
        Json.stringify (extractJSON text) = Some s ->
        contains (lit "&amp;") s = false ->
        exact_numbers (extractJSON text) ->
        extractJSON (VStr s) = extractJSON text)
  /\ (forall s,
        extractJSON text = empty_result ->
        Json.stringify (extractJSON text) = Some s ->
        extractJSON (VStr s) = extractJSON text).
Proof.
  pose proof (extractJSON_shape text) as Hshape.
  destruct (result_filter_stable text) as (ps & segs & Hr & Hg & Hf).
  rewrite Hr in *.
  destruct (stringify_object_braced ps) as [x Hx].
  assert (Hspan : forall s, Json.stringify (VObj ps) = Some s ->
                            jsonMatch (cleanText s) = Some s).
  { intros s Hs. rewrite Hx in Hs. injection Hs as <-.
    rewrite jsonMatch_scan, cleanText_scan, trim_braced, strip_fences_braced.
    apply match_json_span_braced. }
  assert (Hrep : forall s, Json.stringify (VObj ps) = Some s ->
                           contains (lit "&amp;") s = false ->
                           jsonStr s = s).
  { intros s Hs Hamp. rewrite jsonStr_scan.
    exact (stringify_repair _ Hs Hamp). }
  assert (Hparse : forall s, Json.stringify (VObj ps) = Some s ->
                             exact_numbers (VObj ps) ->
                             Json.parse s = Some (VObj ps)).
  { intros s Hs He. exact (@parse_stringify _ _ Hshape He Hs). }
  assert (Hmain : forall s, Json.stringify (VObj ps) = Some s ->
                            contains (lit "&amp;") s = false ->
                            exact_numbers (VObj ps) ->
                            extractJSON (VStr s) = VObj ps).
  { intros s Hs Hamp He.
    unfold extractJSON, extractJSON_try.
    rewrite (Hspan s Hs), (Hrep s Hs Hamp), (Hparse s Hs He).
    cbn [get_prop bind]. rewrite Hg. cbn [bind].
    rewrite Hf. cbn [bind set_prop try_catch].
    now rewrite (obj_set_same _ _ Hg). }
  split; [eauto|].
  split; [intros s Hs; rewrite !re_ms_closed;
          exact (stringify_no_unit _ Hs)|].
  split; [intros s Hs Hamp; split; auto|].
  split; [exact Hparse|]. split; [exact Hmain|].
  intros s He Hs. apply Hmain; [exact Hs| |].
  - rewrite He in Hs. vm_compute in Hs. injection Hs as <-.
    vm_compute. reflexivity.
  - rewrite He. cbn. auto.
Qed.

Lemma resanitize_stable_witness :
  Json.stringify (extractJSON (VStr reply_ms)) = Some reply_ms_clean
  /\ contains (lit "&amp;") reply_ms_clean = false
  /\ exact_numbers (extractJSON (VStr reply_ms))
  /\ extractJSON (VStr reply_ms_clean) = extractJSON (VStr reply_ms).
Proof.
  assert (H1 : Json.stringify (extractJSON (VStr reply_ms))
               = Some reply_ms_clean) by (vm_compute; reflexivity).
  assert (H2 : contains (lit "&amp;") reply_ms_clean = false)
    by (vm_compute; reflexivity).
  assert (H3 : exact_numbers (extractJSON (VStr reply_ms))).
  { replace (extractJSON (VStr reply_ms))
      with (doc [seg (num 125 (-1)) (num 20 0) (VStr (lit "x"))])
      by (vm_compute; reflexivity).
    cbn [exact_numbers doc seg num].
    repeat split; vm_compute; reflexivity. }
  split; [exact H1|]. split; [exact H2|]. split; [exact H3|].
  exact (proj1 (proj2 (proj2 (proj2 (proj2 (resanitize_stable
           (VStr reply_ms)))))) _ H1 H2 H3).
Defined.

(** The claim C4 as stated fails: the first pass turns the text
    [a&amp;amp;b] into [a&amp;b]; serialized and sanitized again, the result
    holds [a&b]. *)
Lemma resanitize_stable_counterexample :
  extractJSON (VStr reply_amp)
    = doc [seg (num 1 0) (num 2 0) (VStr (lit "a&amp;b"))]
  /\ Json.stringify (extractJSON (VStr reply_amp)) = Some reply_amp_once
  /\ extractJSON (VStr reply_amp_once)
     = doc [seg (num 1 0) (num 2 0) (VStr (lit "a&b"))]
  /\ extractJSON (VStr reply_amp_once) <> extractJSON (VStr reply_amp).
Proof.
  split; [vm_compute; reflexivity|].
  split; [vm_compute; reflexivity|].
  split; [vm_compute; reflexivity|].
  vm_compute. discriminate.
Qed.

(** Nor does a result with a number that does not read back survive.  The
    string [Infinity] is coerced to an infinite [end], which serializes to
    [null], and the second pass drops the segment. *)
Lemma resanitize_infinite_end :
  extractJSON (VStr reply_infinity)
    = doc [seg (num 1 0) (VNum (S754_infinity false)) (VStr (lit "x"))]
  /\ ~ reads_back (S754_infinity false)
  /\ Json.stringify (extractJSON (VStr reply_infinity))
     = Some reply_infinity_once
  /\ jsonStr reply_infinity_once = reply_infinity_once
  /\ extractJSON (VStr reply_infinity_once) = doc [].
Proof.
  split; [vm_compute; reflexivity|].
  split; [intros H; vm_compute in H; discriminate H|].
  repeat split; vm_compute; reflexivity.
Qed.

(** A [start] that is a negative zero is kept, serializes to [0] and
    comes back as a positive zero. *)
Lemma resanitize_negative_zero :
  extractJSON (VStr reply_negative_zero)
    = doc [seg (VNum (S754_zero true)) (num 2 0) (VStr (lit "x"))]
  /\ ~ reads_back (S754_zero true)
  /\ Json.stringify (extractJSON (VStr reply_negative_zero))
     = Some reply_zero
  /\ jsonStr reply_zero = reply_zero
  /\ extractJSON (VStr reply_zero)
     = doc [seg (VNum (S754_zero false)) (num 2 0) (VStr (lit "x"))].
Proof.
  split; [vm_compute; reflexivity|].
  split; [intros H; vm_compute in H; discriminate H|].
  repeat split; vm_compute; reflexivity.
Qed.

End StabilityFacts.

(** ** The runtime model on known values *)

Module ModelExamples.
Import JsString JsValue JsOps Regex Server Samples.

(** The matcher on small texts: an empty match of a global pattern moves
    the search one code unit on; a star gives back what the rest of the
    pattern needs; the anchors hold at the two ends of the text only; a
    number needs a digit in front of its dot. *)
Example regex_values :
  replace_global (Star (fun c => (c =? 99)%N)) [Text (lit "-")] (lit "abc")
  = lit "-a-b--"
  /\ match_first (Seq (Star is_digit) (Lit (lit "1"))) (lit "x2111y")
     = Some (lit "2111")
  /\ replace re_close_fence [] (lit "a ``` b  ```") = lit "a ``` b"
  /\ replace re_open_fence [] (lit " ```x") = lit " ```x"
  /\ replace re_json_fence [] (lit "```json" ++ [10%N] ++ lit "{}") = lit "{}"
  /\ match_first re_object (lit "a{b}c}d{") = Some (lit "{b}c}")
  /\ replace_global (re_ms start_key) (ms_template start_key)
       (start_key ++ lit "1.ms, " ++ start_key ++ lit " 2.50ms "
        ++ start_key ++ lit ".5ms")
     = start_key ++ lit " 1., " ++ start_key ++ lit " 2.50 "
       ++ start_key ++ lit ".5ms".
Proof. repeat split; vm_compute; reflexivity. Qed.

Example tenth_as_double :
  JsNumber.of_decimal false 1 (-1) = S754_finite false 7205759403792794 (-56).
Proof. vm_compute. reflexivity. Qed.

Example number_toString :
  map JsNumber.toString
    [JsNumber.of_decimal false 1 (-1); JsNumber.of_decimal false 29532 (-2);
     JsNumber.of_decimal false 1 21; JsNumber.of_decimal false 1 (-7);
     JsNumber.of_decimal true 125 (-1); JsNumber.of_decimal false 1 400;
     JsNumber.of_decimal false 3 (-400)]
  = [lit "0.1"; lit "295.32"; lit "1e+21"; lit "1e-7"; lit "-12.5";
     lit "Infinity"; lit "0"].
Proof. vm_compute. reflexivity. Qed.

Example parseFloat_values :
  map parseFloat [lit "12.5ms"; lit "  7e1"; lit "-.5e1x"; lit "1e"; lit "0x10"]
  = [JsNumber.of_decimal false 125 (-1); JsNumber.of_decimal false 70 0;
     JsNumber.of_decimal true 5 0; JsNumber.of_decimal false 1 0;
     JsNumber.of_decimal false 0 0]
  /\ map parseFloat [lit "abc"; lit ""; lit "."; lit "ms12"]
     = [JsNumber.NaN; JsNumber.NaN; JsNumber.NaN; JsNumber.NaN].
Proof. split; vm_compute; reflexivity. Qed.

Example StringToNumber_values :
  map StringToNumber [lit ""; lit " 12 "; lit "0x10"; lit "1e3"; lit "-Infinity"]
  = [JsNumber.zero; JsNumber.of_decimal false 12 0;
     JsNumber.of_decimal false 16 0; JsNumber.of_decimal false 1000 0;
     S754_infinity true]
  /\ map StringToNumber [lit "12px"; lit "1,2"; lit "[object Object]"]
     = [JsNumber.NaN; JsNumber.NaN; JsNumber.NaN].
Proof. split; vm_compute; reflexivity. Qed.

Example ToString_values :
  ToString (VArr [num 1 0; VArr [num 2 0; num 3 0]; VNull]) = Normal (lit "1,2,3,")
  /\ ToString (VObj []) = Normal (lit "[object Object]")
  /\ ToString (VObj [(lit "toString", num 0 0)]) = Throw TypeError.
Proof. repeat split; vm_compute; reflexivity. Qed.

(** Two arrays are compared as strings, an array and a number as numbers. *)
Example comparison_of_arrays :
  gt (VArr [num 9 0]) (VArr [num 10 0]) = Normal true
  /\ gt (VArr [num 9 0]) (num 10 0) = Normal false
  /\ ge VNull (VNum JsNumber.zero) = Normal true
  /\ ge VUndefined (VNum JsNumber.zero) = Normal false.
Proof. repeat split; vm_compute; reflexivity. Qed.

(** A repeated key keeps its first place and its last value; array indices
    come first. *)
Example parse_key_order :
  Json.parse (lit "{" ++ quoted "b" ++ lit ":1," ++ quoted "2" ++ lit ":2, "
              ++ quoted "b" ++ lit ":[true,null]," ++ quoted "1"
              ++ lit ": -0.5e1 }")
  = Some (VObj [(lit "1", VNum (JsNumber.of_decimal true 5 0));
                (lit "2", num 2 0);
                (lit "b", VArr [VBool true; VNull])]).
Proof. vm_compute. reflexivity. Qed.

Example parse_rejects :
  map Json.parse
    [lit "{"; lit "{,}"; lit "[1,]"; lit "01"; lit "1."; lit "{a:1}";
     lit "nul"; lit "{} x"; quoted "a" ++ [10%N]; []]
  = [None; None; None; None; None; None; None; None;
     Some (VStr (lit "a")); None].
Proof. vm_compute. reflexivity. Qed.

Example stringify_values :
  Json.stringify
    (VObj [(lit "a", VArr [VUndefined; VNum (S754_infinity false);
                           VNum (S754_zero true)]);
           (lit "u", VUndefined);
           (lit "s", VStr ([9; 34; 92; 31; 127; 55357]%N ++ lit "ok"))])
  = Some (lit "{" ++ quoted "a" ++ lit ":[null,null,0]," ++ quoted "s"
          ++ lit ":" ++ dq ++ [92; 116; 92; 34; 92; 92]%N ++ [92%N]
          ++ lit "u001f" ++ [127%N; 92%N] ++ lit "ud83dok" ++ dq ++ lit "}").
Proof. vm_compute. reflexivity. Qed.

End ModelExamples.
